(** * hunyuanvideo-foley demo scripts: a shallow embedding and its properties

    The repository holds three one-shot batch scripts:
    - [generate_model_comparison.py]  (the Manifest Builder),
    - [replace_video_urls.py]         (the Log-Driven URL Resolver),
    - [generate_signed_urls.py]       (the Signed-URL Refresher).

    Modelling conventions.
    - A Python [str] is a Rocq [string].  Character classes ([isdigit],
      [isspace], [lower]) are the ASCII ones; characters above 127 carry no
      class of their own.
    - A Python [dict] keeps insertion order, so it is an association list
      with unique keys ([Dict]); the flat file store is a [gmap] from path
      to content.
    - Functions that touch files, print or log live in the monad [M]: they
      take the world (files and log), and give back either a value or the
      exception that escaped, together with the world at that point.
    - The file store is flat and writing to it never fails; the purely
      informational log lines are left out of the log.
    - The [json], [csv], [re] and [subprocess] libraries are not part of the
      repository; they enter as interfaces ([Codec], section variables).
      Where a concrete run is evaluated the interfaces are instantiated: by
      a reference JSON codec for the integer-and-string fragment the
      manifests use (shown to obey the laws asked of a codec), by a matcher
      for the upload-log pattern, and by stand-ins for the signing tool. *)

From Stdlib Require Import ZArith Ascii String List Lia Bool Sorted Permutation.
From Stdlib Require Import DecimalString DecimalN DecimalZ.
From stdpp Require Import base option list gmap strings.

Local Open Scope string_scope.
Local Open Scope list_scope.

(* ===================================================================== *)
(** * Exceptions and results *)
(* ===================================================================== *)

Inductive exn : Type :=
  | FileNotFoundError
  | ValueError
  | TypeError
  | AttributeError
  | IndexError
  | UnboundLocalError
  | KeyError
  | JSONDecodeError
  | TimeoutExpiredError.

Inductive result (A : Type) : Type :=
  | Ok (a : A)
  | Raise (e : exn).
Arguments Ok {A} a.
Arguments Raise {A} e.

Definition rbind {A B} (r : result A) (k : A -> result B) : result B :=
  match r with
  | Ok a => k a
  | Raise e => Raise e
  end.

Declare Scope result_scope.
Delimit Scope result_scope with res.
Notation "x <-r m ;; k" := (rbind m (fun x => k))
  (at level 60, m at next level, right associativity) : result_scope.

(* ===================================================================== *)
(** * Python strings *)
(* ===================================================================== *)

Module PyStr.

Definition nl : ascii := "010"%char.
Definition cr : ascii := "013"%char.
Definition dq : ascii := "034"%char.     (* the double quote *)

(** [c.isdigit()] on an ASCII character. *)
Definition is_digit (c : ascii) : bool :=
  let n := nat_of_ascii c in (48 <=? n)%nat && (n <=? 57)%nat.

(** Whitespace as [str.strip()] and [int()] see it (ASCII range). *)
Definition is_space (c : ascii) : bool :=
  let n := nat_of_ascii c in
  ((9 <=? n)%nat && (n <=? 13)%nat) || ((28 <=? n)%nat && (n <=? 32)%nat).

Definition lower_char (c : ascii) : ascii :=
  let n := nat_of_ascii c in
  if (65 <=? n)%nat && (n <=? 90)%nat then ascii_of_nat (n + 32) else c.

Fixpoint lower (s : string) : string :=
  match s with
  | "" => ""
  | String c s' => String (lower_char c) (lower s')
  end.

Fixpoint all_chars (p : ascii -> bool) (s : string) : bool :=
  match s with
  | "" => true
  | String c s' => p c && all_chars p s'
  end.

(** [s.isdigit()]: non-empty and every character a digit. *)
Definition isdigit (s : string) : bool :=
  match s with
  | "" => false
  | _ => all_chars is_digit s
  end.

(** [s.startswith(p)]. *)
Fixpoint startswith (p s : string) : bool :=
  match p, s with
  | "", _ => true
  | String _ _, "" => false
  | String a p', String b s' => Ascii.eqb a b && startswith p' s'
  end.

(** [s.endswith(suf)]: some tail of [s] is [suf]. *)
Fixpoint endswith (suf s : string) : bool :=
  String.eqb s suf ||
  match s with
  | "" => false
  | String _ s' => endswith suf s'
  end.

(** [sub in s]. *)
Fixpoint contains (sub s : string) : bool :=
  startswith sub s ||
  match s with
  | "" => false
  | String _ s' => contains sub s'
  end.

Fixpoint drop (n : nat) (s : string) : string :=
  match n, s with
  | O, _ => s
  | S _, "" => ""
  | S n', String _ s' => drop n' s'
  end.

(** [s.replace(old, new)] for a non-empty [old]: a left-to-right scan
    over non-overlapping occurrences.  [skip] counts the characters of a
    matched occurrence that are still to be passed over. *)
Fixpoint replace_from (old new : string) (skip : nat) (s : string) : string :=
  match s with
  | "" => ""
  | String c s' =>
      match skip with
      | S k => replace_from old new k s'
      | O =>
          if startswith old s
          then new +:+ replace_from old new (String.length old - 1) s'
          else String c (replace_from old new 0 s')
      end
  end.

Definition replace (old new s : string) : string := replace_from old new 0 s.

(** [s.split(sep)] for a one-character separator. *)
Fixpoint split (sep : ascii) (s : string) : list string :=
  match s with
  | "" => [""]
  | String c s' =>
      if Ascii.eqb c sep then "" :: split sep s'
      else match split sep s' with
           | [] => [String c ""]
           | t :: ts => String c t :: ts
           end
  end.

(** [s.split(sep, 1)[1]] when [sep in s]: what follows the first
    occurrence of [sep]. *)
Fixpoint after_first (sep s : string) : option string :=
  if startswith sep s then Some (drop (String.length sep) s)
  else match s with
       | "" => None
       | String _ s' => after_first sep s'
       end.

(** [os.path.basename(p)]: what follows the last slash. *)
Definition basename (p : string) : string := List.last (split "/" p) "".

Fixpoint lstrip (s : string) : string :=
  match s with
  | "" => ""
  | String c s' => if is_space c then lstrip s' else s
  end.

Fixpoint rstrip (s : string) : string :=
  match s with
  | "" => ""
  | String c s' =>
      match rstrip s' with
      | "" => if is_space c then "" else String c ""
      | r => String c r
      end
  end.

(** [s.strip()]. *)
Definition strip (s : string) : string := lstrip (rstrip s).

(** [s[:-1]]. *)
Fixpoint drop_last (s : string) : string :=
  match s with
  | "" => ""
  | String c s' => match s' with "" => "" | _ => String c (drop_last s') end
  end.

(** Text-mode reading with universal newlines: CR LF and a lone CR
    become LF. *)
Fixpoint universal_newlines (s : string) : string :=
  match s with
  | "" => ""
  | String c s' =>
      if Ascii.eqb c cr then
        match s' with
        | String d s'' =>
            if Ascii.eqb d nl then String nl (universal_newlines s'')
            else String nl (universal_newlines s')
        | "" => String nl ""
        end
      else String c (universal_newlines s')
  end.

(** [for line in f]: the lines of a text, each with its terminating LF
    (the last one may lack it). *)
Fixpoint iter_lines (s : string) : list string :=
  match s with
  | "" => []
  | String c s' =>
      if Ascii.eqb c nl then String nl "" :: iter_lines s'
      else match iter_lines s' with
           | [] => [String c ""]
           | l :: ls => String c l :: ls
           end
  end.

Definition file_lines (content : string) : list string :=
  iter_lines (universal_newlines content).

(** The text produced by [f.write(line + '\n')] for each line. *)
Definition write_lines (lines : list string) : string :=
  String.concat "" (map (fun l => l +:+ String nl "") lines).

Definition digit_val (c : ascii) : Z := Z.of_nat (nat_of_ascii c) - 48.

(** Value of a string of decimal digits, most significant first. *)
Fixpoint digits_val (acc : Z) (s : string) : Z :=
  match s with
  | "" => acc
  | String c s' => digits_val (10 * acc + digit_val c) s'
  end.

(** The digit part of an [int()] literal: digits, with single
    underscores allowed between digits. [prev] tells whether the previous
    character was a digit. *)
Fixpoint int_body (prev : bool) (acc : Z) (s : string) : option Z :=
  match s with
  | "" => if prev then Some acc else None
  | String c s' =>
      if is_digit c then int_body true (10 * acc + digit_val c) s'
      else if Ascii.eqb c "_" && prev then
        match s' with
        | "" => None
        | String d _ => if is_digit d then int_body false acc s' else None
        end
      else None
  end.

(** [int(s)] in base ten: surrounding whitespace, an optional sign, then
    the digits.  [None] stands for [ValueError]. *)
Definition int (s : string) : option Z :=
  match strip s with
  | String "-" body => Z.opp <$> int_body false 0 body
  | String "+" body => int_body false 0 body
  | body => int_body false 0 body
  end.

End PyStr.

(* ===================================================================== *)
(** * Python dictionaries: insertion-ordered, keyed by strings *)
(* ===================================================================== *)

Module Dict.

Definition t (V : Type) : Type := list (string * V).

Fixpoint get {V} (k : string) (d : t V) : option V :=
  match d with
  | [] => None
  | (k', v) :: d' => if String.eqb k k' then Some v else get k d'
  end.

(** [k in d]. *)
Definition mem {V} (k : string) (d : t V) : bool :=
  match get k d with Some _ => true | None => false end.

(** [d[k] = v]: an existing key keeps its place, a new key goes last. *)
Fixpoint set {V} (k : string) (v : V) (d : t V) : t V :=
  match d with
  | [] => [(k, v)]
  | (k', v') :: d' =>
      if String.eqb k k' then (k, v) :: d' else (k', v') :: set k v d'
  end.

Definition keys {V} (d : t V) : list string := map fst d.

(** [d.get(k, default)]. *)
Definition get_default {V} (k : string) (default : V) (d : t V) : V :=
  match get k d with Some v => v | None => default end.

(** The invariant of a Python dict: no key occurs twice. *)
Definition wf {V} (d : t V) : Prop := NoDup (keys d).

End Dict.

(* ===================================================================== *)
(** * The world: files and log; the monad of the scripts *)
(* ===================================================================== *)

(** What the scripts report on their log or standard output.  One
    constructor per reporting site that matters below; the purely
    informational [logger.info]/[logger.debug] lines are left out. *)
Inductive message : Type :=
  | WarnNoCaption (video_id : string)        (* builder: print("Warning: No matching video ...") *)
  | ErrLogMissing (log_file : string)        (* resolver: upload log does not exist *)
  | ErrNoFileMapping                         (* resolver: no file mapping found, exiting *)
  | ErrNoUrlGenerated                        (* resolver: no URL generated, exiting *)
  | WarnUrlFailed (filename : string)        (* resolver: URL generation failed for a file *)
  | WarnManifestMissing (jsonl_file : string)(* update: manifest does not exist, skipped *)
  | ErrJsonLine (line_num : nat)             (* update: JSON parse error on a line *)
  | ErrToolMissing                           (* refresher: coscmd not installed or configured *)
  | ErrMappingMissing (mapping_file : string)(* refresher: URL mapping file does not exist *)
  | ErrNoCosPath                             (* refresher: no COS path found *)
  | ErrNoSignedUrl                           (* refresher: no signed URL generated *)
  | ErrSignTimeout (cos_path : string)       (* refresher: signing timed out *)
  | ErrSignFailed (cos_path : string)        (* refresher: signing exited non-zero *)
  | ErrSignToolNotFound                      (* refresher: the coscmd command was not found *)
  | WarnSkipFile (filename : string).        (* refresher: entry skipped *)

Record World : Type := mkWorld {
  files : gmap string string;          (* path -> content *)
  dirs  : gmap string (list string);   (* directory -> names of its entries *)
  log   : list message                 (* oldest first *)
}.

Definition M (A : Type) : Type := World -> result A * World.

Definition ret {A} (a : A) : M A := fun w => (Ok a, w).
Definition raise {A} (e : exn) : M A := fun w => (Raise e, w).
Definition bind {A B} (m : M A) (k : A -> M B) : M B :=
  fun w => match m w with
           | (Ok a, w') => k a w'
           | (Raise e, w') => (Raise e, w')
           end.
Definition lift {A} (r : result A) : M A := fun w => (r, w).

Declare Scope m_scope.
Delimit Scope m_scope with M.
Notation "x <- m ;; k" := (bind m (fun x => k))
  (at level 60, m at next level, right associativity) : m_scope.
Notation "m ;;; k" := (bind m (fun _ => k))
  (at level 60, right associativity) : m_scope.

(** [logger.warning(..)], [logger.error(..)], [print(..)]. *)
Definition emit (msg : message) : M unit :=
  fun w => (Ok tt, mkWorld (files w) (dirs w) (log w ++ [msg])).

(** [os.path.exists(path)]. *)
Definition path_exists (path : string) : M bool :=
  fun w => (Ok (bool_decide (is_Some (files w !! path))), w).

(** [open(path, 'r').read()]; a missing file raises. *)
Definition read_file (path : string) : M string :=
  fun w => match files w !! path with
           | Some c => (Ok c, w)
           | None => (Raise FileNotFoundError, w)
           end.

(** [open(path, 'w')] followed by the writes and the close. *)
Definition write_file (path content : string) : M unit :=
  fun w => (Ok tt, mkWorld (<[path := content]> (files w)) (dirs w) (log w)).

(** [Path(dir).glob("*.mp4")], names only.  A directory that does not exist
    yields nothing. *)
Definition glob_mp4 (dir : string) : M (list string) :=
  fun w => (Ok (match dirs w !! dir with
                | Some names => List.filter (PyStr.endswith ".mp4") names
                | None => []
                end), w).

(** A [for] loop whose body may raise: the iterations run in order and the
    first exception ends the loop. *)
Fixpoint for_each {A S} (l : list A) (body : S -> A -> M S) (s : S) : M S :=
  match l with
  | [] => ret s
  | x :: l' => bind (body s x) (for_each l' body)
  end.

(* ===================================================================== *)
(** * JSON values and the codec interface *)
(* ===================================================================== *)

(** What [json.loads] returns: [None], [bool], [int], [str], [list],
    [dict].  (Floating-point numbers are not modelled.) *)
#[warnings="-register-all"]
Inductive json : Type :=
  | JNull
  | JBool (b : bool)
  | JInt (z : Z)
  | JStr (s : string)
  | JArr (l : list json)
  | JObj (d : list (string * json)).

(** [loads] is [json.loads] ([None] for [JSONDecodeError]); [dumps] is
    [json.dumps(.., ensure_ascii=False)]. *)
Record Codec : Type := mkCodec {
  loads : string -> option json;
  dumps : json -> string;
  dumps_indent : json -> string     (* json.dumps(.., indent=2) *)
}.

(** [subprocess.run(args, capture_output=True, check=True, timeout=..)]:
    how the call ends. *)
Inductive run_result : Type :=
  | Completed (stdout : string)          (* exit status 0 *)
  | TimeoutExpired
  | CalledProcessError (stderr : string) (* non-zero exit status *)
  | CommandNotFound.                     (* FileNotFoundError *)

(* ===================================================================== *)
(** * generate_model_comparison.py: the Manifest Builder *)
(* ===================================================================== *)

Module Builder.
Import PyStr.

Definition CSV_PATH : string := "public/test_aries_tv2a_sound.csv".
Definition VIDEO_DIR : string := "public/videos/demo_show".
Definition OUTPUT_PATH : string := "src/assets/model_comparison_videos.jsonl".
Definition OURS_PREFIX : string := "Ours__128d_200k__".
Definition V_AURA_PREFIX : string := "V_AURA_".

(** A row of [csv.DictReader]: column name -> cell. *)
Definition row : Type := Dict.t string.

(** ** extract_video_ids_and_models *)

(** The local variables of the loop.  [model_name] and [video_id] are
    assigned inside the branches and read after them, so their values
    survive from one iteration to the next; [None] is "not yet bound". *)
Record locals : Type := mkLocals {
  video_groups : Dict.t (Dict.t string);
  model_name : option string;
  video_id : option string
}.

Definition read_local (v : option string) : result string :=
  match v with
  | Some x => Ok x
  | None => Raise UnboundLocalError
  end.

(** [video_groups[video_id][model_name] = path], creating the inner dict
    when the id is new. *)
Definition add_video (groups : Dict.t (Dict.t string)) (vid model path : string)
  : Dict.t (Dict.t string) :=
  let groups' := if Dict.mem vid groups then groups else Dict.set vid [] groups in
  Dict.set vid (Dict.set model path (Dict.get_default vid [] groups')) groups'.

(** One iteration of the [for filename in video_files] loop. *)
Definition extract_step (st : locals) (filename : string) : result locals :=
  match filename with
  | "" => Raise IndexError                       (* filename[0] *)
  | String c0 _ =>
      if is_digit c0 && contains "-" filename then Ok st     (* continue *)
      else if contains "_" filename then
        let st1 :=
          if startswith OURS_PREFIX filename then
            mkLocals (video_groups st) (Some "HIFI-Foley")
              (Some (replace ".mp4" "" (replace OURS_PREFIX "" filename)))
          else
            let parts := split "_" (replace ".mp4" "" filename) in
            if (2 <=? length parts)%nat then
              if startswith V_AURA_PREFIX filename then
                mkLocals (video_groups st) (Some "V_AURA") (Some (List.last parts ""))
              else
                mkLocals (video_groups st) (Some (List.hd "" parts))
                  (Some (List.last parts ""))
            else st
        in
        (vid <-r read_local (video_id st1) ;;
         model <-r read_local (model_name st1) ;;
         Ok (mkLocals
               (add_video (video_groups st1) vid model ("videos/demo_show/" +:+ filename))
               (model_name st1) (video_id st1)))%res
      else Ok st
  end.

Fixpoint extract_loop (video_files : list string) (st : locals) : result locals :=
  match video_files with
  | [] => Ok st
  | f :: rest => (st' <-r extract_step st f ;; extract_loop rest st')%res
  end.

Definition extract_video_ids_and_models : M (Dict.t (Dict.t string)) :=
  (video_files <- glob_mp4 VIDEO_DIR ;;
   st <- lift (extract_loop video_files (mkLocals [] None None)) ;;
   ret (video_groups st))%M.

(** ** get_prompt_from_csv *)

Definition CSV_START : nat := 64.

Definition int_or_raise (s : string) : result Z :=
  match int s with
  | Some z => Ok z
  | None => Raise ValueError
  end.

(** The body of [for i in range(64, len(csv_data))], over the rows from
    index 64 on; [Some caption] is the early [return]. *)
Fixpoint scan_rows (rows : list row) (video_id : string) : result (option string) :=
  match rows with
  | [] => Ok None
  | r :: rest =>
      let video_path := Dict.get_default "video" "" r in
      if negb (String.eqb video_path "") then
        let filename := List.last (split "/" video_path) "" in
        let video_name_without_ext := replace ".mp4" "" filename in
        (name <-r int_or_raise video_name_without_ext ;;
         target <-r int_or_raise video_id ;;
         if (name =? target)%Z
         then Ok (Some (Dict.get_default "SoundCaption" "" r))
         else scan_rows rest video_id)%res
      else scan_rows rest video_id
  end.

Definition get_prompt_from_csv (csv_data : list row) (video_id : string) : M string :=
  (found <- lift (scan_rows (List.skipn CSV_START csv_data) video_id) ;;
   match found with
   | Some caption => ret caption
   | None => emit (WarnNoCaption video_id) ;;; ret ""
   end)%M.

(** ** generate_model_comparison_jsonl *)

(** The sort key [int(x) if x.isdigit() else float('inf')];
    [None] is the infinity. *)
Definition sort_key (x : string) : option Z :=
  if isdigit x then Some (digits_val 0 x) else None.

(** [a < b] on keys. *)
Definition key_lt (a b : option Z) : bool :=
  match a, b with
  | Some x, Some y => (x <? y)%Z
  | Some _, None => true
  | None, _ => false
  end.

(** [sorted(.., key=sort_key)]: stable, ascending. *)
Fixpoint insert_sorted (x : string) (l : list string) : list string :=
  match l with
  | [] => [x]
  | y :: l' =>
      if key_lt (sort_key y) (sort_key x) then y :: insert_sorted x l'
      else x :: y :: l'
  end.

Definition sorted_ids (ids : list string) : list string :=
  List.fold_right insert_sorted [] ids.

Record entry : Type := mkEntry {
  sequence_id : nat;
  entry_video_id : string;
  prompt : string;
  videos : Dict.t string
}.

Definition model_mapping : Dict.t string :=
  [ ("HIFI-Foley", "hifi-foley");
    ("FoleyCrafter", "foleycrafter");
    ("Frieren", "frieren");
    ("MMAudio", "mmaudio");
    ("ThinkSound", "thinksound");
    ("V_AURA", "v-aura") ].

Definition map_models (models : Dict.t string) : Dict.t string :=
  List.fold_left
    (fun acc '(model_name, video_path) =>
       Dict.set (Dict.get_default model_name (lower model_name) model_mapping)
                video_path acc)
    models [].

(** The loop [for idx, video_id in enumerate(sorted_video_ids)]. *)
Fixpoint build_entries (csv_data : list row) (video_groups : Dict.t (Dict.t string))
    (idx : nat) (ids : list string) : M (list entry) :=
  match ids with
  | [] => ret []
  | vid :: rest =>
      (p <- get_prompt_from_csv csv_data vid ;;
       let models := Dict.get_default vid [] video_groups in
       let e := mkEntry (idx + 1) vid p (map_models models) in
       es <- build_entries csv_data video_groups (S idx) rest ;;
       ret (e :: es))%M
  end.

Definition entry_json (e : entry) : json :=
  JObj [ ("sequence_id", JInt (Z.of_nat (sequence_id e)));
         ("video_id", JStr (entry_video_id e));
         ("prompt", JStr (prompt e));
         ("videos", JObj (map (fun '(k, v) => (k, JStr v)) (videos e))) ].

Section WithLibraries.
Variable codec : Codec.
(** [list(csv.DictReader(f))] on the content of the file. *)
Variable csv_DictReader : string -> list row.

Definition read_csv_data (csv_path : string) : M (list row) :=
  (content <- read_file csv_path ;; ret (csv_DictReader content))%M.

Definition generate_model_comparison_jsonl : M (list entry) :=
  (csv_data <- read_csv_data CSV_PATH ;;
   video_groups <- extract_video_ids_and_models ;;
   let sorted_video_ids := sorted_ids (Dict.keys video_groups) in
   jsonl_entries <- build_entries csv_data video_groups 0 sorted_video_ids ;;
   write_file OUTPUT_PATH
     (write_lines (map (fun e => dumps codec (entry_json e)) jsonl_entries)) ;;;
   ret jsonl_entries)%M.
End WithLibraries.

End Builder.

(* ===================================================================== *)
(** * replace_video_urls.py: the Log-Driven URL Resolver *)
(* ===================================================================== *)

Module Resolver.
Import PyStr.

Definition UPLOAD_LOG_FILE : string := "upload_result.log".
Definition SIGN_URL_TIMEOUT : string := "157680000".    (* str(SIGN_URL_TIMEOUT) *)
Definition JSONL_FILES : list string :=
  [ "src/assets/demo_videos.jsonl";
    "src/assets/moviegen_benchmark.jsonl";
    "src/assets/model_comparison_videos.jsonl" ].
Definition DEFAULT_BUCKET : string := "texttoaudio-train-1258344703".
Definition REGION : string := "ap-shanghai".
Definition UPLOAD_PATTERN : string := "Upload\s+(.+?)\s+=>\s+cos://[^/]+/(.+)".
Definition MAPPING_FILE : string := "video_url_mapping.json".

Definition build_cos_public_url_in (cos_path bucket_name : string) : string :=
  "https://" +:+ bucket_name +:+ ".cos." +:+ REGION +:+ ".myqcloud.com/" +:+ cos_path.

(** [build_cos_public_url(cos_path)] with the default bucket. *)
Definition build_cos_public_url (cos_path : string) : string :=
  build_cos_public_url_in cos_path DEFAULT_BUCKET.

(** [stdout.decode('utf-8').strip().split('\n')[0]], then the [b'..']
    wrapper is taken off. *)
Definition clean_signed_output (stdout : string) : string :=
  let url := List.hd "" (split nl (strip stdout)) in
  if startswith "b'" url && endswith "'" url then drop_last (drop 2 url) else url.

(** Truthiness of an [Optional[str]]: [None] and [''] are false. *)
Definition truthy (o : option string) : bool :=
  match o with
  | Some (String _ _) => true
  | _ => false
  end.

(** ** update of one parsed line *)

(** ['videos' in data]. *)
Definition contains_videos (data : json) : result bool :=
  match data with
  | JObj d => Ok (Dict.mem "videos" d)
  | JArr l => Ok (existsb (fun x => match x with
                                    | JStr s => String.eqb s "videos"
                                    | _ => false
                                    end) l)
  | JStr s => Ok (contains "videos" s)
  | JNull | JBool _ | JInt _ => Raise TypeError
  end.

(** [data['videos']]. *)
Definition getitem_videos (data : json) : result json :=
  match data with
  | JObj d => match Dict.get "videos" d with
              | Some v => Ok v
              | None => Raise KeyError
              end
  | _ => Raise TypeError
  end.

(** [x.items()]. *)
Definition items (x : json) : result (list (string * json)) :=
  match x with
  | JObj d => Ok d
  | _ => Raise AttributeError
  end.

(** [os.path.basename(video_path)]. *)
Definition basename_of (video_path : json) : result string :=
  match video_path with
  | JStr p => Ok (basename p)
  | _ => Raise TypeError
  end.

(** The loop over [data['videos'].items()]: [cur] is the videos dict as
    mutated so far, [updated] the flag [line_updated]. *)
Fixpoint update_videos (url_mapping : Dict.t string)
    (its : list (string * json)) (cur : Dict.t json) (updated : bool)
    : result (Dict.t json * bool) :=
  match its with
  | [] => Ok (cur, updated)
  | (method, video_path) :: rest =>
      (filename <-r basename_of video_path ;;
       match Dict.get filename url_mapping with
       | Some url => update_videos url_mapping rest (Dict.set method (JStr url) cur) true
       | None => update_videos url_mapping rest cur updated
       end)%res
  end.

(** The [try] body for one parsed line: the record after the update and
    whether some path was replaced. *)
Definition update_data (url_mapping : Dict.t string) (data : json)
    : result (json * bool) :=
  (has <-r contains_videos data ;;
   if has then
     vs <-r getitem_videos data ;;
     its <-r items vs ;;
     r <-r update_videos url_mapping its its false ;;
     match data with
     | JObj d => Ok (JObj (Dict.set "videos" (JObj (fst r)) d), snd r)
     | _ => Ok (data, snd r)
     end
   else Ok (data, false))%res.

Definition create_backup (file_path : string) : M string :=
  let backup_path := file_path +:+ ".backup" in
  (ex <- path_exists file_path ;;
   (if ex then content <- read_file file_path ;; write_file backup_path content
    else ret tt) ;;;
   ret backup_path)%M.

Section WithLibraries.
Variable codec : Codec.
Variable subprocess_run : list string -> option nat -> run_result.
(** [re.search(pattern, line)]: the groups 1, 2, .. of the match. *)
Variable re_search : string -> string -> option (list string).

Definition get_cos_signed_url (remote_file_path : string) : option string :=
  match subprocess_run
          ["coscmd"; "signurl"; "-t"; SIGN_URL_TIMEOUT; remote_file_path]
          (Some 60%nat) with
  | Completed stdout => Some (clean_signed_output stdout)
  | TimeoutExpired | CalledProcessError _ | CommandNotFound =>
      Some (build_cos_public_url remote_file_path)
  end.

Definition parse_upload_log (log_file : string) : M (Dict.t string) :=
  (ex <- path_exists log_file ;;
   if negb ex then emit (ErrLogMissing log_file) ;;; ret []
   else
     content <- read_file log_file ;;
     ret (List.fold_left
            (fun file_mapping line =>
               match re_search UPLOAD_PATTERN line with
               | Some groups =>
                   let local_path := nth 0 groups "" in
                   let cos_path := nth 1 groups "" in
                   Dict.set (basename local_path) cos_path file_mapping
               | None => file_mapping
               end)
            (file_lines content) []))%M.

Definition generate_video_url_mapping (file_mapping : Dict.t string)
    : M (Dict.t string) :=
  for_each file_mapping
    (fun url_mapping '(filename, cos_path) =>
       if endswith ".mp4" filename then
         let signed_url := get_cos_signed_url cos_path in
         if truthy signed_url
         then ret (Dict.set filename (default "" signed_url) url_mapping)
         else (emit (WarnUrlFailed filename) ;;; ret url_mapping)%M
       else ret url_mapping)
    [].

(** One turn of [for line_num, line in enumerate(f, 1)]. *)
Definition update_line (url_mapping : Dict.t string)
    (st : list string * nat * nat) (line : string) : M (list string * nat * nat) :=
  let '(updated_lines, updates_count, line_num) := st in
  let line := strip line in
  if String.eqb line "" then ret (updated_lines, updates_count, S line_num)
  else
    match loads codec line with
    | Some data =>
        (r <- lift (update_data url_mapping data) ;;
         ret (updated_lines ++ [dumps codec (fst r)],
              if snd r then S updates_count else updates_count,
              S line_num))%M
    | None =>
        (emit (ErrJsonLine line_num) ;;;
         ret (updated_lines ++ [line], updates_count, S line_num))%M
    end.

Definition update_jsonl_file (jsonl_file : string) (url_mapping : Dict.t string)
    : M nat :=
  (ex <- path_exists jsonl_file ;;
   if negb ex then emit (WarnManifestMissing jsonl_file) ;;; ret 0%nat
   else
     content <- read_file jsonl_file ;;
     st <- for_each (file_lines content) (update_line url_mapping) ([], 0%nat, 1%nat) ;;
     let '(updated_lines, updates_count, _) := st in
     write_file jsonl_file (write_lines updated_lines) ;;;
     ret updates_count)%M.

Definition mapping_json (m : Dict.t string) : json :=
  JObj (map (fun '(k, v) => (k, JStr v)) m).

Definition main : M unit :=
  (file_mapping <- parse_upload_log UPLOAD_LOG_FILE ;;
   match file_mapping with
   | [] => emit ErrNoFileMapping
   | _ =>
       url_mapping <- generate_video_url_mapping file_mapping ;;
       match url_mapping with
       | [] => emit ErrNoUrlGenerated
       | _ =>
           _ <- for_each JSONL_FILES
                  (fun total_updates jsonl_file =>
                     create_backup jsonl_file ;;;
                     updates <- update_jsonl_file jsonl_file url_mapping ;;
                     ret (total_updates + updates)%nat)
                  0%nat ;;
           write_file MAPPING_FILE (dumps_indent codec (mapping_json url_mapping))
       end
   end)%M.
End WithLibraries.

End Resolver.

(* ===================================================================== *)
(** * generate_signed_urls.py: the Signed-URL Refresher *)
(* ===================================================================== *)

Module Refresher.
Import PyStr.

Definition URL_MAPPING_FILE : string := "video_url_mapping.json".
Definition SIGNED_URL_MAPPING_FILE : string := "signed_video_url_mapping.json".
Definition SIGN_URL_TIMEOUT : string := "157680000".
Definition MARKER : string := "/hunyuanvideo-foley_demo/".
Definition MARKER_DIR : string := "hunyuanvideo-foley_demo/".

(** The body of [for filename, public_url in url_mapping.items()] for a
    URL that is a string. *)
Definition extract_cos_path (public_url : string) : option string :=
  if contains MARKER public_url then
    match after_first MARKER public_url with
    | Some rest => Some (MARKER_DIR +:+ rest)
    | None => None
    end
  else None.

(** The same body on whatever [json.load] produced for the value. *)
Definition extract_step (cos_paths : Dict.t string) (filename : string)
    (public_url : json) : result (Dict.t string) :=
  match public_url with
  | JStr u =>
      match extract_cos_path u with
      | Some cos_path => Ok (Dict.set filename cos_path cos_paths)
      | None => Ok cos_paths
      end
  | JArr l =>
      if existsb (fun x => match x with
                           | JStr s => String.eqb s MARKER
                           | _ => false
                           end) l
      then Raise AttributeError           (* list has no split *)
      else Ok cos_paths
  | JObj d =>
      if Dict.mem MARKER d then Raise AttributeError else Ok cos_paths
  | JNull | JBool _ | JInt _ => Raise TypeError
  end.

Fixpoint extract_loop (its : list (string * json)) (cos_paths : Dict.t string)
    : result (Dict.t string) :=
  match its with
  | [] => Ok cos_paths
  | (filename, public_url) :: rest =>
      (cos_paths' <-r extract_step cos_paths filename public_url ;;
       extract_loop rest cos_paths')%res
  end.

Section WithLibraries.
Variable codec : Codec.
Variable subprocess_run : list string -> option nat -> run_result.

Definition get_cos_signed_url (cos_path : string) : M (option string) :=
  match subprocess_run ["coscmd"; "signurl"; "-t"; SIGN_URL_TIMEOUT; cos_path]
          (Some 60%nat) with
  | Completed stdout => ret (Some (Resolver.clean_signed_output stdout))
  | TimeoutExpired => (emit (ErrSignTimeout cos_path) ;;; ret None)%M
  | CalledProcessError _ => (emit (ErrSignFailed cos_path) ;;; ret None)%M
  | CommandNotFound => (emit ErrSignToolNotFound ;;; ret None)%M
  end.

Definition extract_cos_paths_from_mapping : M (Dict.t string) :=
  (ex <- path_exists URL_MAPPING_FILE ;;
   if negb ex then emit (ErrMappingMissing URL_MAPPING_FILE) ;;; ret []
   else
     content <- read_file URL_MAPPING_FILE ;;
     match loads codec content with
     | None => raise JSONDecodeError
     | Some url_mapping =>
         its <- lift (Resolver.items url_mapping) ;;
         lift (extract_loop its [])
     end)%M.

Definition generate_signed_urls (cos_paths : Dict.t string) : M (Dict.t string) :=
  for_each cos_paths
    (fun signed_urls '(filename, cos_path) =>
       (signed_url <- get_cos_signed_url cos_path ;;
        if Resolver.truthy signed_url
        then ret (Dict.set filename (default "" signed_url) signed_urls)
        else emit (WarnSkipFile filename) ;;; ret signed_urls)%M)
    [].

Definition update_jsonl_files_with_signed_urls (signed_urls : Dict.t string)
    : M unit :=
  (_ <- for_each Resolver.JSONL_FILES
          (fun (_ : unit) jsonl_file =>
             ex <- path_exists jsonl_file ;;
             if ex then
               Resolver.create_backup (jsonl_file +:+ ".signed") ;;;
               Resolver.update_jsonl_file codec jsonl_file signed_urls ;;;
               ret tt
             else ret tt)
          tt ;;
   ret tt)%M.

Definition main : M unit :=
  match subprocess_run ["coscmd"; "--version"] None with
  | CalledProcessError _ | CommandNotFound => emit ErrToolMissing
  | TimeoutExpired => raise TimeoutExpiredError
  | Completed _ =>
      (cos_paths <- extract_cos_paths_from_mapping ;;
       match cos_paths with
       | [] => emit ErrNoCosPath
       | _ =>
           signed_urls <- generate_signed_urls cos_paths ;;
           match signed_urls with
           | [] => emit ErrNoSignedUrl
           | _ =>
               write_file SIGNED_URL_MAPPING_FILE
                 (dumps_indent codec (Resolver.mapping_json signed_urls)) ;;;
               update_jsonl_files_with_signed_urls signed_urls
           end
       end)%M
  end.
End WithLibraries.

End Refresher.

(* ===================================================================== *)
(** * A reference JSON codec *)
(* ===================================================================== *)

(** A codec for the fragment of JSON the manifests are written in:
    [null], booleans, integers, strings, arrays, objects.  Texts with a
    fraction or an exponent, [NaN]/[Infinity], and [\u] escapes above 127
    are outside the fragment and are rejected.  Output follows
    [json.dumps(.., ensure_ascii=False)]: [", "] and [": "] as separators,
    control characters escaped, everything else verbatim. *)
Module RefJson.
Import PyStr.

Inductive token : Type :=
  | TLBrace | TRBrace | TLBrack | TRBrack | TComma | TColon
  | TNull | TTrue | TFalse
  | TInt (z : Z)
  | TStr (s : string).

(** ** Printing *)

Definition hex_digit (n : nat) : ascii :=
  if (n <? 10)%nat then ascii_of_nat (48 + n) else ascii_of_nat (87 + n).

Definition escape_char (c : ascii) : string :=
  let n := nat_of_ascii c in
  if Ascii.eqb c dq then String "\" (String dq "")
  else if Ascii.eqb c "\" then "\\"
  else if (n =? 8)%nat then "\b"
  else if (n =? 12)%nat then "\f"
  else if (n =? 10)%nat then "\n"
  else if (n =? 13)%nat then "\r"
  else if (n =? 9)%nat then "\t"
  else if (n <? 32)%nat then
    "\u00" +:+ String (hex_digit (n / 16)) (String (hex_digit (n mod 16)) "")
  else String c "".

Fixpoint escape (s : string) : string :=
  match s with
  | "" => ""
  | String c s' => escape_char c +:+ escape s'
  end.

Definition print_nat (n : N) : string :=
  DecimalString.NilZero.string_of_uint (N.to_uint n).

Definition print_int (z : Z) : string :=
  match z with
  | Zneg p => String "-" (print_nat (Npos p))
  | _ => print_nat (Z.to_N z)
  end.

Definition render (t : token) : string :=
  match t with
  | TLBrace => "{" | TRBrace => "}" | TLBrack => "[" | TRBrack => "]"
  | TComma => ", " | TColon => ": "
  | TNull => "null" | TTrue => "true" | TFalse => "false"
  | TInt z => print_int z
  | TStr s => String dq (escape s +:+ String dq "")
  end.

Fixpoint render_all (ts : list token) : string :=
  match ts with
  | [] => ""
  | t :: ts' => render t +:+ render_all ts'
  end.

(** The tokens of a sequence of items, with a comma before each item but
    the first. *)
Definition sep_items (items : list (list token)) : list token :=
  match items with
  | [] => []
  | x :: xs => x ++ concat (map (fun y => TComma :: y) xs)
  end.

Fixpoint tokens_of (v : json) : list token :=
  match v with
  | JNull => [TNull]
  | JBool true => [TTrue]
  | JBool false => [TFalse]
  | JInt z => [TInt z]
  | JStr s => [TStr s]
  | JArr l => TLBrack :: sep_items (map tokens_of l) ++ [TRBrack]
  | JObj d =>
      TLBrace ::
      sep_items (map (fun kv => TStr (fst kv) :: TColon :: tokens_of (snd kv)) d)
      ++ [TRBrace]
  end.

Definition dumps (v : json) : string := render_all (tokens_of v).

(** ** Lexing *)

Definition is_json_ws (c : ascii) : bool :=
  let n := nat_of_ascii c in
  (n =? 32)%nat || (n =? 9)%nat || (n =? 10)%nat || (n =? 13)%nat.

Definition hex_val (c : ascii) : option nat :=
  let n := nat_of_ascii c in
  if (48 <=? n)%nat && (n <=? 57)%nat then Some (n - 48)%nat
  else if (97 <=? n)%nat && (n <=? 102)%nat then Some (n - 87)%nat
  else if (65 <=? n)%nat && (n <=? 70)%nat then Some (n - 55)%nat
  else None.

Definition push (c : ascii) (r : option (string * string)) : option (string * string) :=
  match r with
  | Some (s, rest) => Some (String c s, rest)
  | None => None
  end.

(** The body of a string literal, after the opening quote: the decoded
    content and what follows the closing quote. *)
Fixpoint lex_string (s : string) : option (string * string) :=
  match s with
  | "" => None
  | String c s' =>
      if Ascii.eqb c dq then Some ("", s')
      else if Ascii.eqb c "\" then
        match s' with
        | "" => None
        | String e s'' =>
            if Ascii.eqb e dq then push dq (lex_string s'')
            else if Ascii.eqb e "\" then push "\" (lex_string s'')
            else if Ascii.eqb e "/" then push "/" (lex_string s'')
            else if Ascii.eqb e "b" then push "008" (lex_string s'')
            else if Ascii.eqb e "f" then push "012" (lex_string s'')
            else if Ascii.eqb e "n" then push "010" (lex_string s'')
            else if Ascii.eqb e "r" then push "013" (lex_string s'')
            else if Ascii.eqb e "t" then push "009" (lex_string s'')
            else if Ascii.eqb e "u" then
              match s'' with
              | String h1 (String h2 (String h3 (String h4 s5))) =>
                  match hex_val h1, hex_val h2, hex_val h3, hex_val h4 with
                  | Some a, Some b, Some c', Some d =>
                      let n := (((a * 16 + b) * 16 + c') * 16 + d)%nat in
                      if (n <? 128)%nat then push (ascii_of_nat n) (lex_string s5)
                      else None
                  | _, _, _, _ => None
                  end
              | _ => None
              end
            else None
        end
      else if (nat_of_ascii c <? 32)%nat then None
      else push c (lex_string s')
  end.

Fixpoint span_digits (s : string) : string * string :=
  match s with
  | "" => ("", "")
  | String c s' =>
      if is_digit c
      then let '(d, r) := span_digits s' in (String c d, r)
      else ("", s)
  end.

Definition starts_fraction (s : string) : bool :=
  match s with
  | String c _ => Ascii.eqb c "." || Ascii.eqb c "e" || Ascii.eqb c "E"
  | "" => false
  end.

(** An unsigned integer literal [0|[1-9][0-9]*] at the head of [s]: the
    digits must be the canonical decimal form of their value. *)
Definition lex_nat (s : string) : option (N * string) :=
  let '(ds, rest) := span_digits s in
  match DecimalString.NilZero.uint_of_string ds with
  | Some u =>
      let n := N.of_uint u in
      if String.eqb (print_nat n) ds && negb (starts_fraction rest)
      then Some (n, rest) else None
  | None => None
  end.

Definition consumed (before after : string) : nat :=
  String.length before - String.length after.

(** The lexer proper.  [skip] counts the characters of the token just
    recognised that are still to be passed over. *)
Fixpoint lex_from (skip : nat) (s : string) : option (list token) :=
  match s with
  | "" => Some []
  | String c s' =>
      match skip with
      | S k => lex_from k s'
      | O =>
          if is_json_ws c then lex_from 0 s'
          else if Ascii.eqb c "{" then cons TLBrace <$> lex_from 0 s'
          else if Ascii.eqb c "}" then cons TRBrace <$> lex_from 0 s'
          else if Ascii.eqb c "[" then cons TLBrack <$> lex_from 0 s'
          else if Ascii.eqb c "]" then cons TRBrack <$> lex_from 0 s'
          else if Ascii.eqb c "," then cons TComma <$> lex_from 0 s'
          else if Ascii.eqb c ":" then cons TColon <$> lex_from 0 s'
          else if Ascii.eqb c dq then
            match lex_string s' with
            | Some (str, rest) => cons (TStr str) <$> lex_from (consumed s' rest) s'
            | None => None
            end
          else if Ascii.eqb c "-" then
            match lex_nat s' with
            | Some (n, rest) =>
                cons (TInt (- Z.of_N n)) <$> lex_from (consumed s' rest) s'
            | None => None
            end
          else if is_digit c then
            match lex_nat s with
            | Some (n, rest) => cons (TInt (Z.of_N n)) <$> lex_from (consumed s' rest) s'
            | None => None
            end
          else if startswith "null" s then cons TNull <$> lex_from 3 s'
          else if startswith "true" s then cons TTrue <$> lex_from 3 s'
          else if startswith "false" s then cons TFalse <$> lex_from 4 s'
          else None
      end
  end.

(** ** Parsing *)

Definition build_object (pairs : list (string * json)) : list (string * json) :=
  List.fold_left (fun d kv => Dict.set (fst kv) (snd kv) d) pairs [].

Fixpoint parse_value (fuel : nat) (ts : list token) : option (json * list token) :=
  match fuel with
  | O => None
  | S f =>
      match ts with
      | TNull :: r => Some (JNull, r)
      | TTrue :: r => Some (JBool true, r)
      | TFalse :: r => Some (JBool false, r)
      | TInt z :: r => Some (JInt z, r)
      | TStr s :: r => Some (JStr s, r)
      | TLBrack :: TRBrack :: r => Some (JArr [], r)
      | TLBrack :: r =>
          match parse_value f r with
          | Some (v, r1) =>
              match parse_elems f r1 with
              | Some (vs, r2) => Some (JArr (v :: vs), r2)
              | None => None
              end
          | None => None
          end
      | TLBrace :: TRBrace :: r => Some (JObj [], r)
      | TLBrace :: TStr k :: TColon :: r =>
          match parse_value f r with
          | Some (v, r1) =>
              match parse_members f r1 with
              | Some (kvs, r2) => Some (JObj (build_object ((k, v) :: kvs)), r2)
              | None => None
              end
          | None => None
          end
      | _ => None
      end
  end
with parse_elems (fuel : nat) (ts : list token) : option (list json * list token) :=
  match fuel with
  | O => None
  | S f =>
      match ts with
      | TRBrack :: r => Some ([], r)
      | TComma :: r =>
          match parse_value f r with
          | Some (v, r1) =>
              match parse_elems f r1 with
              | Some (vs, r2) => Some (v :: vs, r2)
              | None => None
              end
          | None => None
          end
      | _ => None
      end
  end
with parse_members (fuel : nat) (ts : list token)
    : option (list (string * json) * list token) :=
  match fuel with
  | O => None
  | S f =>
      match ts with
      | TRBrace :: r => Some ([], r)
      | TComma :: TStr k :: TColon :: r =>
          match parse_value f r with
          | Some (v, r1) =>
              match parse_members f r1 with
              | Some (kvs, r2) => Some ((k, v) :: kvs, r2)
              | None => None
              end
          | None => None
          end
      | _ => None
      end
  end.

Definition loads (s : string) : option json :=
  match lex_from 0 s with
  | Some ts =>
      match parse_value (S (length ts)) ts with
      | Some (v, []) => Some v
      | _ => None
      end
  | None => None
  end.

(** ** Printing with [indent=2] *)

Fixpoint spaces (n : nat) : string :=
  match n with
  | O => ""
  | S n' => String " " (spaces n')
  end.

Definition join_lines (indent : nat) (items : list string) : string :=
  String.concat (String "," (String nl (spaces indent))) items.

Fixpoint dumps_at (level : nat) (v : json) : string :=
  match v with
  | JArr [] => "[]"
  | JObj [] => "{}"
  | JArr l =>
      "[" +:+ String nl (spaces (2 * S level))
      +:+ join_lines (2 * S level) (map (dumps_at (S level)) l)
      +:+ String nl (spaces (2 * level)) +:+ "]"
  | JObj d =>
      "{" +:+ String nl (spaces (2 * S level))
      +:+ join_lines (2 * S level)
            (map (fun kv => render (TStr (fst kv)) +:+ ": " +:+ dumps_at (S level) (snd kv)) d)
      +:+ String nl (spaces (2 * level)) +:+ "}"
  | _ => render_all (tokens_of v)
  end.

Definition codec : Codec := mkCodec loads dumps (dumps_at 0).

End RefJson.


(* ===================================================================== *)
(** * A reference matcher for the upload-log pattern *)
(* ===================================================================== *)

(** [re.search] for the one pattern the Resolver uses,
    [Upload\s+(.+?)\s+=>\s+cos://[^/]+/(.+)], with the backtracking order of
    the [re] module: the leftmost start, greedy repetitions longest first,
    the lazy one shortest first.  Each piece of the pattern takes the text
    at the current position and the continuation for what follows it. *)
Module RefRe.
Import PyStr.

Definition dot (c : ascii) : bool := negb (Ascii.eqb c nl).
Definition not_slash (c : ascii) : bool := negb (Ascii.eqb c "/").

(** A literal. *)
Definition lit {A} (p : string) (k : string -> option A) (s : string) : option A :=
  if startswith p s then k (drop (String.length p) s) else None.

(** [cls+], greedy. *)
Fixpoint plus {A} (cls : ascii -> bool) (k : string -> option A) (s : string)
    : option A :=
  match s with
  | "" => None
  | String c s' =>
      if cls c then
        match plus cls k s' with
        | Some r => Some r
        | None => k s'
        end
      else None
  end.

(** [(cls+)], greedy, capturing: [seen] holds the characters taken so far,
    last first. *)
Fixpoint plus_group {A} (cls : ascii -> bool) (k : string -> string -> option A)
    (seen : string) (s : string) : option A :=
  match s with
  | "" => None
  | String c s' =>
      if cls c then
        match plus_group cls k (String c seen) s' with
        | Some r => Some r
        | None => k (String.rev (String c seen)) s'
        end
      else None
  end.

(** [(cls+?)], lazy, capturing. *)
Fixpoint plus_lazy_group {A} (cls : ascii -> bool) (k : string -> string -> option A)
    (seen : string) (s : string) : option A :=
  match s with
  | "" => None
  | String c s' =>
      if cls c then
        match k (String.rev (String c seen)) s' with
        | Some r => Some r
        | None => plus_lazy_group cls k (String c seen) s'
        end
      else None
  end.

(** The pattern, anchored at the head of [s]. *)
Definition match_upload (s : string) : option (list string) :=
  lit "Upload"
    (plus is_space
       (plus_lazy_group dot
          (fun local_path =>
             plus is_space
               (lit "=>"
                  (plus is_space
                     (lit "cos://"
                        (plus not_slash
                           (lit "/"
                              (plus_group dot
                                 (fun cos_path _ => Some [local_path; cos_path])
                                 "")))))))
          ""))
    s.

Fixpoint search_upload (s : string) : option (list string) :=
  match match_upload s with
  | Some groups => Some groups
  | None =>
      match s with
      | "" => None
      | String _ s' => search_upload s'
      end
  end.

End RefRe.

(* ===================================================================== *)
(** * Stand-ins for the outside world, used where a run is evaluated *)
(* ===================================================================== *)

Module Fake.
Import PyStr.

(** The signing tool is not installed. *)
Definition tool_absent (args : list string) (timeout : option nat) : run_result :=
  CommandNotFound.

(** The signing tool exits with status 0 and prints nothing. *)
Definition tool_silent (args : list string) (timeout : option nat) : run_result :=
  Completed "".

(** A signing tool that works: it prints a signed link to the object named
    by its last argument. *)
Definition tool_signing (args : list string) (timeout : option nat) : run_result :=
  Completed ("https://signed.example/" +:+ List.last args "" +:+ "?sign=k"
             +:+ String nl "").

(** [re.search], for the pattern of the upload log. *)
Definition re_search (pattern line : string) : option (list string) :=
  if String.eqb pattern Resolver.UPLOAD_PATTERN then RefRe.search_upload line else None.

(** A reader for CSV text without quoted cells: the first line names the
    columns, every other non-empty line is a row. *)
Definition csv_reader (content : string) : list Builder.row :=
  match List.filter (fun l => negb (String.eqb l ""))
          (map strip (file_lines content)) with
  | [] => []
  | header :: rows =>
      map (fun r =>
             List.fold_left (fun d kv => Dict.set (fst kv) (snd kv) d)
               (combine (split "," header) (split "," r)) [])
          rows
  end.

Definition empty_world : World := mkWorld ∅ ∅ [].

End Fake.

(* ===================================================================== *)
(** * Vocabulary of the properties *)
(* ===================================================================== *)

(** The three ways a [subprocess.run(.., check=True, timeout=..)] call fails:
    tool not found, timeout, non-zero exit status. *)
Definition is_failure (r : run_result) : Prop :=
  match r with
  | Completed _ => False
  | TimeoutExpired | CalledProcessError _ | CommandNotFound => True
  end.

(** The command line of a signing request. *)
Definition sign_command (remote_path : string) : list string :=
  ["coscmd"; "signurl"; "-t"; "157680000"; remote_path].

(** A name -> URL mapping as [json.load] returns it. *)
Definition string_items (m : Dict.t string) : list (string * json) :=
  map (fun kv => (fst kv, JStr (snd kv))) m.

(** The documented filename policy of the Manifest Builder, as a function
    of the filename alone: the (model, id) pair a name contributes, or
    [None] when it contributes nothing. *)
Definition filename_policy (filename : string) : option (string * string) :=
  match filename with
  | "" => None
  | String c0 _ =>
      (* numbered videos: digit first and a hyphen somewhere *)
      if PyStr.is_digit c0 && PyStr.contains "-" filename then None
      (* the proposed model: prefix and extension taken off give the id *)
      else if PyStr.startswith Builder.OURS_PREFIX filename then
        Some ("HIFI-Foley",
              PyStr.replace ".mp4" "" (PyStr.replace Builder.OURS_PREFIX "" filename))
      else
        let tokens := PyStr.split "_" (PyStr.replace ".mp4" "" filename) in
        (* no underscore once the extension is removed: skipped *)
        if (length tokens <? 2)%nat then None
        (* the V_AURA baseline: fixed label, last token *)
        else if PyStr.startswith Builder.V_AURA_PREFIX filename then
          Some ("V_AURA", List.last tokens "")
        (* every other name: first token, last token *)
        else Some (List.hd "" tokens, List.last tokens "")
  end.

(** What one file adds to the groups under the policy. *)
Definition policy_step (groups : Dict.t (Dict.t string)) (filename : string)
  : Dict.t (Dict.t string) :=
  match filename_policy filename with
  | Some (model, vid) =>
      Builder.add_video groups vid model ("videos/demo_show/" +:+ filename)
  | None => groups
  end.

Fixpoint count_char (c : ascii) (s : string) : nat :=
  match s with
  | "" => 0%nat
  | String a s' => if Ascii.eqb a c then S (count_char c s') else count_char c s'
  end.

(** The names [Path(VIDEO_DIR).glob("*.mp4")] yields in a world. *)
Definition scanned_files (w : World) : list string :=
  match dirs w !! Builder.VIDEO_DIR with
  | Some names => List.filter (PyStr.endswith ".mp4") names
  | None => []
  end.








(** The world after [msgs] have been logged. *)
Definition logged (w : World) (msgs : list message) : World :=
  mkWorld (files w) (dirs w) (log w ++ msgs).

(** An upload mapping with one video. *)
Definition one_upload : Dict.t string :=
  [("a.mp4", "hunyuanvideo-foley_demo/demo_show/a.mp4")].

(** The command line of the Refresher's start-up check. *)
Definition version_command : list string := ["coscmd"; "--version"].




(** Some entry of a [videos] dict names a file of the mapping. *)
Definition some_path_mapped (url_mapping : Dict.t string)
    (its : list (string * json)) : bool :=
  existsb (fun kv => match snd kv with
                     | JStr p => Dict.mem (PyStr.basename p) url_mapping
                     | _ => false
                     end) its.

Definition demo_manifest : string := "src/assets/demo_videos.jsonl".

(** A manifest line with one video, and a name -> URL mapping for it. *)
Definition video_line (path : string) : string :=
  RefJson.dumps (JObj [("videos", JObj [("mmaudio", JStr path)])]).

Definition cdn_mapping : Dict.t string := [("a.mp4", "https://cdn.example/v/a.mp4")].

(** A manifest with a valid line and a line that is not JSON and carries
    blanks around it. *)
Definition manifest_with_bad_line : World :=
  mkWorld {[ demo_manifest :=
               video_line "videos/a.mp4" +:+ String PyStr.nl ""
               +:+ "  not json  " +:+ String PyStr.nl "" ]}
          ∅ [].

(** The invariant of the values [json.loads] builds: inside every object
    no key occurs twice. *)
Fixpoint json_wf (v : json) : Prop :=
  match v with
  | JArr l =>
      (fix all (l : list json) : Prop :=
         match l with
         | [] => True
         | x :: l' => json_wf x /\ all l'
         end) l
  | JObj d =>
      NoDup (map fst d) /\
      (fix all (d : list (string * json)) : Prop :=
         match d with
         | [] => True
         | kv :: d' => json_wf (snd kv) /\ all d'
         end) d
  | _ => True
  end.

Definition not_newline (c : ascii) : bool :=
  negb (Ascii.eqb c PyStr.nl) && negb (Ascii.eqb c PyStr.cr).

(** A text that is one line as it stands: not empty, no line break inside,
    no whitespace at either end. *)
Definition one_line (s : string) : Prop :=
  s <> "" /\ PyStr.strip s = s /\ PyStr.all_chars not_newline s = true.

(** What the update pass relies on from the [json] library: [loads] builds
    dicts, [dumps] output reads back as the value it was made from, and it
    is one line. *)
Record CodecLaws (codec : Codec) : Prop := mkCodecLaws {
  loads_wf : forall s d, loads codec s = Some d -> json_wf d;
  loads_dumps : forall d, json_wf d -> loads codec (dumps codec d) = Some d;
  dumps_one_line : forall d, json_wf d -> one_line (dumps codec d)
}.

(** No URL of the mapping is renamed by the mapping: when the file name of
    a URL of the mapping is itself a key, it is mapped to that same URL. *)
Definition stable_mapping (m : Dict.t string) : Prop :=
  forall k url url',
    Dict.get k m = Some url ->
    Dict.get (PyStr.basename url) m = Some url' ->
    url' = url.

(** The new value of one entry of a [videos] dict. *)
Definition remap (m : Dict.t string) (v : json) : json :=
  match v with
  | JStr p => match Dict.get (PyStr.basename p) m with
              | Some url => JStr url
              | None => v
              end
  | _ => v
  end.

Definition remap_entry (m : Dict.t string) (kv : string * json) : string * json :=
  (fst kv, remap m (snd kv)).

(** The update loop without its log: the same turns on the same state. *)
Definition update_line_pure (codec : Codec) (url_mapping : Dict.t string)
    (st : list string * nat * nat) (line : string)
    : result (list string * nat * nat) :=
  let '(updated_lines, updates_count, line_num) := st in
  let line := PyStr.strip line in
  if String.eqb line "" then Ok (updated_lines, updates_count, S line_num)
  else
    match loads codec line with
    | Some data =>
        (r <-r Resolver.update_data url_mapping data ;;
         Ok (updated_lines ++ [dumps codec (fst r)],
             if snd r then S updates_count else updates_count,
             S line_num))%res
    | None => Ok (updated_lines ++ [line], updates_count, S line_num)
    end.

Fixpoint update_loop_pure (codec : Codec) (url_mapping : Dict.t string)
    (lines : list string) (st : list string * nat * nat)
    : result (list string * nat * nat) :=
  match lines with
  | [] => Ok st
  | l :: rest =>
      (st' <-r update_line_pure codec url_mapping st l ;;
       update_loop_pure codec url_mapping rest st')%res
  end.

(** A mapping that renames its own URLs: [a.mp4] goes to a link named
    [b.mp4], and [b.mp4] goes elsewhere. *)
Definition chain_mapping : Dict.t string :=
  [("a.mp4", "https://cdn.example/v/b.mp4");
   ("b.mp4", "https://cdn.example/v/c.mp4")].

Definition one_video_manifest : World :=
  mkWorld {[ demo_manifest := video_line "videos/a.mp4" +:+ String PyStr.nl "" ]} ∅ [].

(** The file store after one and after two update passes over a manifest. *)
Definition files_after_once (codec : Codec) (jsonl_file : string)
    (url_mapping : Dict.t string) (w : World) : gmap string string :=
  files (snd (Resolver.update_jsonl_file codec jsonl_file url_mapping w)).

Definition files_after_twice (codec : Codec) (jsonl_file : string)
    (url_mapping : Dict.t string) (w : World) : gmap string string :=
  files (snd (Resolver.update_jsonl_file codec jsonl_file url_mapping
                (snd (Resolver.update_jsonl_file codec jsonl_file url_mapping w)))).

(** A written line on which a further pass changes nothing: it is one
    line, and either it does not parse, or it is the serialisation of a
    record that the update leaves as it is. *)
Definition settled (codec : Codec) (url_mapping : Dict.t string) (out : string) : Prop :=
  one_line out /\
  (loads codec out = None \/
   exists data changed,
     loads codec out = Some data
     /\ Resolver.update_data url_mapping data = Ok (data, changed)
     /\ dumps codec data = out).

(** What may follow an integer literal for the lexer to stop there: the
    end of the text, or a character that is neither a digit nor the start
    of a fraction or an exponent. *)
Definition ends_number (rest : string) : bool :=
  match rest with
  | "" => true
  | String c _ => negb (PyStr.is_digit c) && negb (RefJson.starts_fraction rest)
  end.

Definition is_int_token (t : RefJson.token) : bool :=
  match t with
  | RefJson.TInt _ => true
  | _ => false
  end.

(** No integer token is directly followed by another integer token. *)
Fixpoint separated (ts : list RefJson.token) : Prop :=
  match ts with
  | [] => True
  | t :: ts' =>
      match ts' with
      | [] => True
      | t' :: _ => is_int_token t && is_int_token t' = false
      end /\ separated ts'
  end.

(** Parsing the tokens of a value gives the value back and stops there. *)
Definition parses (v : json) : Prop :=
  json_wf v ->
  forall fuel rest, (length (RefJson.tokens_of v) <= fuel)%nat ->
    RefJson.parse_value fuel (RefJson.tokens_of v ++ rest) = Some (v, rest).

(** Tokens a serialised value can end with. *)
Definition closes_value (t : RefJson.token) : Prop :=
  match t with
  | RefJson.TLBrace | RefJson.TLBrack | RefJson.TComma | RefJson.TColon => False
  | _ => True
  end.

(** Tokens a serialised value can start with. *)
Definition opens_value (t : RefJson.token) : Prop :=
  match t with
  | RefJson.TRBrace | RefJson.TRBrack | RefJson.TComma | RefJson.TColon => False
  | _ => True
  end.

(** A fresh signed link for the one video, and the stored name -> URL
    mapping file it is derived from. *)
Definition signed_mapping : Dict.t string :=
  [("a.mp4", "https://signed.example/hunyuanvideo-foley_demo/demo_show/a.mp4?sign=k")].

Definition stored_mapping : Dict.t string :=
  [("a.mp4", Resolver.build_cos_public_url "hunyuanvideo-foley_demo/demo_show/a.mp4");
   ("b.mp4", "https://elsewhere.example/b.mp4")].

Definition stored_mapping_text : string :=
  dumps_indent RefJson.codec (Resolver.mapping_json stored_mapping).

Definition refresher_world : World :=
  mkWorld {[ Refresher.URL_MAPPING_FILE := stored_mapping_text ]} ∅ [].

(** An upload log with one upload event and one line that is none. *)
Definition upload_world : World :=
  mkWorld {[ Resolver.UPLOAD_LOG_FILE :=
               "Upload /local/a.mp4 => cos://bucket/hunyuanvideo-foley_demo/x/a.mp4"
               +:+ String PyStr.nl ""
               +:+ "3 files uploaded" +:+ String PyStr.nl "" ]}
          ∅ [].

(** ** Vocabulary of the further properties *)

(** The ids whose sort key is [k]. *)
Definition has_key (k : option Z) (x : string) : bool :=
  bool_decide (Builder.sort_key x = k).

(** The key a model label is stored under in an entry. *)
Definition mapped_name (model_name : string) : string :=
  Dict.get_default model_name (PyStr.lower model_name) Builder.model_mapping.



(** The groups hold what the files seen so far contribute: the ids are
    unique, every id has at least one model and its labels are unique,
    every stored path comes from a seen file that the filename policy
    places there, and every seen file that the policy places is there. *)
Definition groups_of (seen : list string) (groups : Dict.t (Dict.t string)) : Prop :=
  Dict.wf groups
  /\ (forall vid models, Dict.get vid groups = Some models ->
        models <> [] /\ Dict.wf models)
  /\ (forall vid models model path,
        Dict.get vid groups = Some models -> Dict.get model models = Some path ->
        exists f, In f seen /\ filename_policy f = Some (model, vid)
                  /\ path = "videos/demo_show/" +:+ f)
  /\ (forall f model vid, In f seen -> filename_policy f = Some (model, vid) ->
        exists models path,
          Dict.get vid groups = Some models /\ Dict.get model models = Some path).

(** A world for the Manifest Builder with two models for video 5, one for
    video 12 and a numbered video, and a caption file that holds its header
    only. *)
Definition comparison_world : World :=
  mkWorld {[ Builder.CSV_PATH := "video,SoundCaption" ]}
          {[ Builder.VIDEO_DIR :=
               ["MMAudio_5.mp4"; "Ours__128d_200k__5.mp4"; "V_AURA_x_12.mp4"; "1-1.mp4"] ]}
          [].

Definition comparison_entries : list Builder.entry :=
  [ Builder.mkEntry 1 "5" ""
      [("mmaudio", "videos/demo_show/MMAudio_5.mp4");
       ("hifi-foley", "videos/demo_show/Ours__128d_200k__5.mp4")];
    Builder.mkEntry 2 "12" "" [("v-aura", "videos/demo_show/V_AURA_x_12.mp4")] ].

(** What a line of the upload log contributes: the file name of the local
    path and the remote path, when the line matches the pattern. *)
Definition upload_of (re_search : string -> string -> option (list string))
    (line : string) : option (string * string) :=
  match re_search Resolver.UPLOAD_PATTERN line with
  | Some groups => Some (PyStr.basename (nth 0 groups ""), nth 1 groups "")
  | None => None
  end.

(** The line does not upload a file called [name]. *)
Definition uploads_other (re_search : string -> string -> option (list string))
    (name : string) (line : string) : Prop :=
  forall path, upload_of re_search line <> Some (name, path).

(** An upload log in which two local directories hold a file of the same
    name. *)
Definition colliding_log : string :=
  "Upload /one/a.mp4 => cos://bucket/hunyuanvideo-foley_demo/one/a.mp4"
  +:+ String PyStr.nl ""
  +:+ "Upload /two/a.mp4 => cos://bucket/hunyuanvideo-foley_demo/two/a.mp4"
  +:+ String PyStr.nl "".

Definition colliding_world : World :=
  mkWorld {[ Resolver.UPLOAD_LOG_FILE := colliding_log ]} ∅ [].

(** What the Resolver stores for one upload: nothing for a name that does
    not end in [.mp4], nothing when the URL it obtained is empty. *)
Definition resolved (run : list string -> option nat -> run_result)
    (kv : string * string) : option (string * string) :=
  if PyStr.endswith ".mp4" (fst kv) then
    match Resolver.get_cos_signed_url run (snd kv) with
    | Some (String c s) => Some (fst kv, String c s)
    | _ => None
    end
  else None.

(** The warning the Resolver logs for an upload it obtained no URL for. *)
Definition unresolved (run : list string -> option nat -> run_result)
    (kv : string * string) : option message :=
  if PyStr.endswith ".mp4" (fst kv)
     && negb (Resolver.truthy (Resolver.get_cos_signed_url run (snd kv)))
  then Some (WarnUrlFailed (fst kv))
  else None.

(** What the Refresher stores for one COS path: the cleaned answer of a
    signing request that completed, unless it is empty. *)
Definition signed (run : list string -> option nat -> run_result)
    (kv : string * string) : option (string * string) :=
  match run (sign_command (snd kv)) (Some 60%nat) with
  | Completed stdout =>
      match Resolver.clean_signed_output stdout with
      | String c s => Some (fst kv, String c s)
      | "" => None
      end
  | _ => None
  end.

(** What the Refresher logs for one COS path. *)
Definition skipped (run : list string -> option nat -> run_result)
    (kv : string * string) : list message :=
  match run (sign_command (snd kv)) (Some 60%nat) with
  | Completed stdout =>
      match Resolver.clean_signed_output stdout with
      | String _ _ => []
      | "" => [WarnSkipFile (fst kv)]
      end
  | TimeoutExpired => [ErrSignTimeout (snd kv); WarnSkipFile (fst kv)]
  | CalledProcessError _ => [ErrSignFailed (snd kv); WarnSkipFile (fst kv)]
  | CommandNotFound => [ErrSignToolNotFound; WarnSkipFile (fst kv)]
  end.

Definition is_video (kv : string * string) : bool := PyStr.endswith ".mp4" (fst kv).

Definition public_entry (kv : string * string) : string * string :=
  (fst kv, Resolver.build_cos_public_url (snd kv)).

(** An upload mapping with two videos and a file that is none. *)
Definition three_uploads : Dict.t string :=
  [("a.mp4", "hunyuanvideo-foley_demo/demo_show/a.mp4");
   ("notes.txt", "hunyuanvideo-foley_demo/notes.txt");
   ("b.mp4", "hunyuanvideo-foley_demo/demo_show/b.mp4")].

(** A record with two fields and one video. *)
Definition demo_record : list (string * json) :=
  [("videos", JObj [("mmaudio", JStr "videos/a.mp4")]); ("prompt", JStr "rain")].


(** The path of the copy [create_backup] keeps of a file. *)
Definition backup_of (path : string) : string := path +:+ ".backup".

(** A world for the Resolver: an upload log with one upload and a manifest
    that names the uploaded file. *)
Definition resolver_world : World :=
  mkWorld {[ Resolver.UPLOAD_LOG_FILE :=
               "Upload /local/a.mp4 => cos://bucket/hunyuanvideo-foley_demo/x/a.mp4"
               +:+ String PyStr.nl "";
             demo_manifest := PyStr.write_lines [video_line "videos/a.mp4"] ]}
          ∅ [].


(** An entry of the Manifest Builder after an update pass with [m]: every
    path whose file name is a key of [m] is replaced by the mapped URL. *)
Definition retarget_path (m : Dict.t string) (kv : string * string) : string * string :=
  (fst kv, default (snd kv) (Dict.get (PyStr.basename (snd kv)) m)).

Definition retarget (m : Dict.t string) (e : Builder.entry) : Builder.entry :=
  Builder.mkEntry (Builder.sequence_id e) (Builder.entry_video_id e) (Builder.prompt e)
    (map (retarget_path m) (Builder.videos e)).

(** Some path of the entry has its file name among the keys of [m]. *)
Definition retargeted (m : Dict.t string) (e : Builder.entry) : bool :=
  existsb (fun kv => Dict.mem (PyStr.basename (snd kv)) m) (Builder.videos e).

Definition comparison_mapping : Dict.t string :=
  [("MMAudio_5.mp4", "https://cdn.example/v/MMAudio_5.mp4")].

(** The signing tool answers the start-up check and lets every other call
    run out of time. *)
Definition tool_checks_only (args : list string) (timeout : option nat) : run_result :=
  match args with
  | ["coscmd"; "--version"] => Completed "coscmd 1.8"
  | _ => TimeoutExpired
  end.

(** The paths a run of the Resolver may write: the manifests, their
    backups and the mapping file. *)
Definition resolver_writes : list string :=
  Resolver.JSONL_FILES ++ map backup_of Resolver.JSONL_FILES ++ [Resolver.MAPPING_FILE].

(** The paths a run of the Refresher may write: the manifests, the backups
    of their [.signed] companions and the signed mapping file. *)
Definition refresher_writes : list string :=
  Resolver.JSONL_FILES
  ++ map (fun g => backup_of (g +:+ ".signed")) Resolver.JSONL_FILES
  ++ [Refresher.SIGNED_URL_MAPPING_FILE].





(* ===================================================================== *)
(** * Properties *)
(* ===================================================================== *)

(** ** The embedding on the documented examples *)

Example filename_policy_table :
  map filename_policy
    [ "1-1.mp4"; "Ours__128d_200k__5.mp4"; "V_AURA_x_12.mp4"; "MMAudio_5.mp4";
      "Frieren_run_2_10.mp4"; "plain.mp4"; "7_foo.mp4" ]
  = [ None; Some ("HIFI-Foley", "5"); Some ("V_AURA", "12"); Some ("MMAudio", "5");
      Some ("Frieren", "10"); None; Some ("7", "foo") ].
Proof. reflexivity. Qed.

Example grouped_by_id :
  List.fold_left policy_step ["MMAudio_5.mp4"; "Ours__128d_200k__5.mp4"] []
  = [ ("5", [ ("MMAudio", "videos/demo_show/MMAudio_5.mp4");
              ("HIFI-Foley", "videos/demo_show/Ours__128d_200k__5.mp4") ]) ].
Proof. reflexivity. Qed.

Example model_keys :
  Builder.map_models [("V_AURA", "p"); ("Foo", "q")] = [("v-aura", "p"); ("foo", "q")].
Proof. reflexivity. Qed.

Example sorted_ids_numeric :
  Builder.sorted_ids ["10"; "2"; "1"; "b"; "a"] = ["1"; "2"; "10"; "b"; "a"].
Proof. reflexivity. Qed.

Example upload_log_parsed :
  fst (Resolver.parse_upload_log Fake.re_search Resolver.UPLOAD_LOG_FILE upload_world)
  = Ok [("a.mp4", "hunyuanvideo-foley_demo/x/a.mp4")].
Proof. vm_compute. reflexivity. Qed.

Example upload_resolved_without_tool :
  fst (bind (Resolver.parse_upload_log Fake.re_search Resolver.UPLOAD_LOG_FILE)
         (Resolver.generate_video_url_mapping Fake.tool_absent) upload_world)
  = Ok [("a.mp4",
         "https://texttoaudio-train-1258344703.cos.ap-shanghai.myqcloud.com/hunyuanvideo-foley_demo/x/a.mp4")].
Proof. vm_compute. reflexivity. Qed.

(* ===================================================================== *)
(** * Facts about strings *)
(* ===================================================================== *)

Section StringFacts.
Import PyStr.

Lemma sapp_nil_l (s : string) : "" +:+ s = s.
Proof. reflexivity. Qed.

Lemma sapp_cons (c : ascii) (a b : string) : String c a +:+ b = String c (a +:+ b).
Proof. reflexivity. Qed.

Lemma sapp_nil_r (s : string) : s +:+ "" = s.
Proof. induction s as [|c s IH]; [reflexivity | now rewrite sapp_cons, IH]. Qed.

Lemma sapp_assoc (a b c : string) : (a +:+ b) +:+ c = a +:+ (b +:+ c).
Proof. induction a as [|x a IH]; [reflexivity | now rewrite !sapp_cons, IH]. Qed.

Lemma slength_app (a b : string) :
  String.length (a +:+ b) = (String.length a + String.length b)%nat.
Proof. induction a as [|x a IH]; [reflexivity | rewrite sapp_cons; simpl; now rewrite IH]. Qed.

Lemma startswith_app (p r : string) : startswith p (p +:+ r) = true.
Proof.
  induction p as [|c p IH]; [reflexivity |].
  rewrite sapp_cons; simpl. now rewrite Ascii.eqb_refl, IH.
Qed.

Lemma startswith_inv (p s : string) :
  startswith p s = true -> exists r, s = p +:+ r.
Proof.
  revert s; induction p as [|c p IH]; intros s H.
  - exists s; reflexivity.
  - destruct s as [|d s]; simpl in H; [discriminate |].
    apply andb_true_iff in H as [Hc Hp].
    apply Ascii.eqb_eq in Hc; subst d.
    destruct (IH _ Hp) as [r ->]. exists r; reflexivity.
Qed.

Lemma drop_app (p r : string) : drop (String.length p) (p +:+ r) = r.
Proof. induction p as [|c p IH]; [now destruct r | rewrite sapp_cons; exact IH]. Qed.

End StringFacts.

Section SearchFacts.
Import PyStr.

Lemma contains_after_first (sep s : string) :
  contains sep s = true -> exists rest, after_first sep s = Some rest.
Proof.
  induction s as [|c s IH]; simpl; intros H.
  - rewrite orb_false_r in H. rewrite H. eauto.
  - destruct (startswith sep (String c s)); [eauto |].
    simpl in H. auto.
Qed.

Lemma after_first_contains (sep s rest : string) :
  after_first sep s = Some rest -> contains sep s = true.
Proof.
  induction s as [|c s IH]; simpl.
  - destruct (startswith sep ""); [reflexivity | discriminate].
  - destruct (startswith sep (String c s)); [reflexivity |].
    simpl. auto.
Qed.

(** [after_first] cuts at the first occurrence of the separator. *)
Lemma after_first_spec (sep s rest : string) :
  after_first sep s = Some rest ->
  exists pre, s = pre +:+ sep +:+ rest /\
    forall pre' rest', s = pre' +:+ sep +:+ rest' ->
      (String.length pre <= String.length pre')%nat.
Proof.
  revert rest. induction s as [|c s IH]; intros rest; simpl.
  - destruct (startswith sep "") eqn:E; [|discriminate].
    intros [= <-]. exists "". split; [| intros; simpl; lia].
    apply startswith_inv in E as [r Hr]. rewrite sapp_nil_l.
    rewrite Hr at 2. now rewrite drop_app.
  - destruct (startswith sep (String c s)) eqn:E.
    + intros [= <-]. exists "". split; [| intros; simpl; lia].
      apply startswith_inv in E as [r Hr]. rewrite sapp_nil_l.
      rewrite Hr at 2. now rewrite drop_app.
    + intros H. destruct (IH _ H) as (pre & -> & Hmin).
      exists (String c pre). split; [reflexivity |].
      intros [|d pre'] rest' Heq.
      * rewrite sapp_nil_l in Heq. rewrite Heq, startswith_app in E. discriminate.
      * rewrite sapp_cons in Heq. injection Heq as -> Heq.
        simpl. apply Hmin in Heq. lia.
Qed.

End SearchFacts.

(* ===================================================================== *)
(** * The Resolver's ordered fallback (C7) *)
(* ===================================================================== *)

(** When the signing call succeeds, the answer is the cleaned first line of
    the tool's output; the public URL is not used. *)
Lemma resolver_signed_url_first
    (run : list string -> option nat -> run_result) (path stdout : string) :
  run (sign_command path) (Some 60%nat) = Completed stdout ->
  Resolver.get_cos_signed_url run path = Some (Resolver.clean_signed_output stdout).
Proof.
  unfold Resolver.get_cos_signed_url, sign_command, Resolver.SIGN_URL_TIMEOUT.
  now intros ->.
Qed.



(* ===================================================================== *)
(** * The Refresher's path re-extraction (C9) *)
(* ===================================================================== *)

Section ReExtraction.
Import PyStr.

(** A URL with the marker: the remote path is the marker's directory name
    followed by what comes after the first occurrence of the marker. *)
Lemma extract_cos_path_marker (url : string) :
  contains Refresher.MARKER url = true ->
  exists pre rest,
    url = pre +:+ Refresher.MARKER +:+ rest
    /\ (forall pre' rest', url = pre' +:+ Refresher.MARKER +:+ rest' ->
          (String.length pre <= String.length pre')%nat)
    /\ Refresher.extract_cos_path url = Some (Refresher.MARKER_DIR +:+ rest).
Proof.
  intros H. unfold Refresher.extract_cos_path. rewrite H.
  destruct (contains_after_first _ _ H) as [rest Hr]. rewrite Hr.
  destruct (after_first_spec _ _ _ Hr) as (pre & Hpre & Hmin).
  exists pre, rest. auto.
Qed.

Lemma extract_cos_path_no_marker (url : string) :
  contains Refresher.MARKER url = false -> Refresher.extract_cos_path url = None.
Proof. intros H. unfold Refresher.extract_cos_path. now rewrite H. Qed.

(** Extraction undoes [build_cos_public_url] on a path under the marker's
    directory, whatever follows that directory. *)
Lemma extract_cos_path_public_url (rest : string) :
  Refresher.extract_cos_path
    (Resolver.build_cos_public_url (Refresher.MARKER_DIR +:+ rest))
  = Some (Refresher.MARKER_DIR +:+ rest).
Proof. reflexivity. Qed.

Lemma dict_get_set {V} (k k' : string) (v : V) (d : Dict.t V) :
  Dict.get k' (Dict.set k v d) = if String.eqb k' k then Some v else Dict.get k' d.
Proof.
  induction d as [|[k0 v0] d IH]; simpl.
  - reflexivity.
  - destruct (String.eqb_spec k k0) as [->|Hk]; simpl.
    + destruct (String.eqb_spec k' k0); reflexivity.
    + rewrite IH. destruct (String.eqb_spec k' k0) as [->|]; [| reflexivity].
      destruct (String.eqb_spec k0 k); [congruence | reflexivity].
Qed.

Lemma dict_get_not_key {V} (k : string) (d : Dict.t V) :
  k ∉ Dict.keys d -> Dict.get k d = None.
Proof.
  induction d as [|[k0 v0] d IH]; simpl; [reflexivity |].
  intros [Hne Hnotin]%not_elem_of_cons.
  destruct (String.eqb_spec k k0) as [->|]; [congruence | auto].
Qed.

(** The loop over a string-valued mapping never raises; it keeps what it
    had and adds the paths of the entries that carry the marker. *)
Lemma extract_loop_strings (m : Dict.t string) (acc : Dict.t string) :
  Dict.wf m ->
  exists r, Refresher.extract_loop (string_items m) acc = Ok r
    /\ forall k, Dict.get k r =
         match Dict.get k m with
         | Some url =>
             match Refresher.extract_cos_path url with
             | Some p => Some p
             | None => Dict.get k acc
             end
         | None => Dict.get k acc
         end.
Proof.
  unfold Dict.wf. revert acc.
  induction m as [|[k0 u0] m IH]; intros acc Hwf;
    cbn [string_items map fst snd Refresher.extract_loop Refresher.extract_step
         rbind Dict.get].
  - eauto.
  - change (Dict.keys ((k0, u0) :: m)) with (k0 :: Dict.keys m) in Hwf.
    apply NoDup_cons in Hwf as [Hnotin Hwf].
    fold (string_items m).
    destruct (Refresher.extract_cos_path u0) as [p|] eqn:E; cbn [rbind].
    + destruct (IH (Dict.set k0 p acc) Hwf) as (r & -> & Hr).
      exists r. split; [reflexivity |]. intros k. rewrite Hr.
      rewrite dict_get_set.
      destruct (String.eqb_spec k k0) as [->|].
      * rewrite (dict_get_not_key _ _ Hnotin), E. reflexivity.
      * reflexivity.
    + destruct (IH acc Hwf) as (r & -> & Hr).
      exists r. split; [reflexivity |]. intros k. rewrite Hr.
      destruct (String.eqb_spec k k0) as [->|]; [| reflexivity].
      now rewrite (dict_get_not_key _ _ Hnotin), E.
Qed.

End ReExtraction.

(** C9.  For a stored name -> URL mapping read by the Refresher, the
    result maps each name to the path extracted from its URL, and holds no
    entry for a name whose URL yields none; the world is left as it was
    (nothing is logged, nothing raised).  A URL that contains the marker
    [/hunyuanvideo-foley_demo/] yields the marker's directory name followed
    by everything after the first occurrence of the marker; a URL without
    the marker yields nothing.  In particular the public URL built by the
    Resolver from a path under the marker's directory gives that path
    back. *)
Theorem refresher_path_reextraction
    (codec : Codec) (w : World) (content : string) (m : Dict.t string) :
  files w !! Refresher.URL_MAPPING_FILE = Some content ->
  loads codec content = Some (JObj (string_items m)) ->
  Dict.wf m ->
  exists cos_paths,
    Refresher.extract_cos_paths_from_mapping codec w = (Ok cos_paths, w)
    /\ (forall name,
          Dict.get name cos_paths
          = match Dict.get name m with
            | Some url => Refresher.extract_cos_path url
            | None => None
            end)
    /\ (forall url, PyStr.contains Refresher.MARKER url = true ->
          exists pre rest,
            url = pre +:+ Refresher.MARKER +:+ rest
            /\ (forall pre' rest', url = pre' +:+ Refresher.MARKER +:+ rest' ->
                  (String.length pre <= String.length pre')%nat)
            /\ Refresher.extract_cos_path url = Some (Refresher.MARKER_DIR +:+ rest))
    /\ (forall url, PyStr.contains Refresher.MARKER url = false ->
          Refresher.extract_cos_path url = None)
    /\ (forall rest,
          Refresher.extract_cos_path
            (Resolver.build_cos_public_url (Refresher.MARKER_DIR +:+ rest))
          = Some (Refresher.MARKER_DIR +:+ rest)).
Proof.
  intros Hfile Hloads Hwf.
  destruct (extract_loop_strings m [] Hwf) as (r & Hloop & Hr).
  exists r. split; [| split; [| split; [| split]]].
  - unfold Refresher.extract_cos_paths_from_mapping, bind, path_exists, read_file,
      lift, emit, ret.
    rewrite bool_decide_eq_true_2 by eauto. cbn [negb].
    rewrite Hfile, Hloads. cbn [Resolver.items]. now rewrite Hloop.
  - intros name. rewrite Hr. destruct (Dict.get name m) as [url|]; [| reflexivity].
    now destruct (Refresher.extract_cos_path url).
  - exact extract_cos_path_marker.
  - exact extract_cos_path_no_marker.
  - exact extract_cos_path_public_url.
Qed.

(* ===================================================================== *)
(** * The Manifest Builder's filename policy (C5) *)
(* ===================================================================== *)

Section FilenameFacts.
Import PyStr.

Lemma contains_char (c : ascii) (s : string) :
  contains (String c "") s = negb (count_char c s =? 0)%nat.
Proof.
  induction s as [|a s IH]; simpl; [reflexivity |].
  rewrite IH. rewrite (Ascii.eqb_sym c a).
  destruct (Ascii.eqb a c); simpl; [reflexivity |].
  now destruct s.
Qed.

Lemma split_length (sep : ascii) (s : string) :
  length (split sep s) = S (count_char sep s).
Proof.
  induction s as [|a s IH]; simpl; [reflexivity |].
  destruct (Ascii.eqb a sep); simpl; [now rewrite IH |].
  destruct (split sep s); simpl in *; [discriminate | exact IH].
Qed.

Lemma drop_step (j : nat) (old : string) :
  (j < String.length old)%nat ->
  exists x, drop j old = String x (drop (S j) old)
            /\ forall c, count_char c old = 0%nat -> Ascii.eqb x c = false.
Proof.
  revert j; induction old as [|a old IH]; intros j Hj; simpl in Hj; [lia |].
  destruct j as [|j].
  - exists a. split; [now destruct old |].
    intros c Hc. simpl in Hc. now destruct (Ascii.eqb a c).
  - destruct (IH j ltac:(lia)) as (x & Hx & Hcx).
    exists x. split; [exact Hx |].
    intros c Hc. apply Hcx. simpl in Hc. now destruct (Ascii.eqb a c).
Qed.

(** Deleting the occurrences of [old] never touches a character that does
    not occur in [old]. *)
Lemma replace_from_count (c : ascii) (old : string) :
  old <> "" -> count_char c old = 0%nat ->
  forall s k, (k <= String.length old)%nat ->
    startswith (drop (String.length old - k) old) s = true ->
    count_char c (replace_from old "" k s) = count_char c s.
Proof.
  intros Hne Hc. induction s as [|a s IH]; intros k Hk Hpre; [reflexivity |].
  destruct k as [|k].
  - cbn [replace_from].
    destruct (startswith old (String a s)) eqn:E.
    + rewrite sapp_nil_l.
      destruct old as [|b old']; [congruence |].
      simpl in E. apply andb_true_iff in E as [Hb E].
      apply Ascii.eqb_eq in Hb; subst b.
      rewrite IH.
      * simpl in Hc |- *. now destruct (Ascii.eqb a c).
      * simpl; lia.
      * simpl String.length.
        replace (S (String.length old') - (S (String.length old') - 1))%nat
          with 1%nat by lia.
        exact E.
    + simpl. rewrite IH; [reflexivity | lia |].
      rewrite Nat.sub_0_r.
      replace (drop (String.length old) old) with "";
        [reflexivity |].
      clear. induction old; simpl; auto.
  - cbn [replace_from].
    destruct (drop_step (String.length old - S k) old ltac:(lia)) as (x & Hx & Hcx).
    rewrite Hx in Hpre. cbn [startswith] in Hpre.
    apply andb_true_iff in Hpre as [Hxa Hpre].
    apply Ascii.eqb_eq in Hxa; subst x.
    replace (S (String.length old - S k)) with (String.length old - k)%nat in Hpre by lia.
    rewrite IH by (lia || assumption).
    simpl. now rewrite (Hcx c Hc).
Qed.

Lemma replace_count (c : ascii) (old s : string) :
  old <> "" -> count_char c old = 0%nat ->
  count_char c (replace old "" s) = count_char c s.
Proof.
  intros Hne Hc. unfold replace. apply replace_from_count; auto; [lia |].
  rewrite Nat.sub_0_r.
  replace (drop (String.length old) old) with ""; [reflexivity |].
  clear. induction old; simpl; auto.
Qed.

(** A name with an underscore still has one once [.mp4] is removed, so
    splitting it gives at least two tokens; a name without one gives a
    single token. *)
Lemma tokens_length (filename : string) :
  (2 <=? length (split "_" (replace ".mp4" "" filename)))%nat = contains "_" filename.
Proof.
  rewrite split_length, replace_count by (discriminate || reflexivity).
  rewrite contains_char. now destruct (count_char "_" filename).
Qed.

Lemma startswith_contains (p s : string) :
  startswith p s = true -> contains p s = true.
Proof. intros H. destruct s; simpl in *; now rewrite H. Qed.

Lemma contains_suffix (sub : string) (c : ascii) (s : string) :
  contains sub s = true -> contains sub (String c s) = true.
Proof. intros H. cbn [contains]. rewrite H. apply orb_true_r. Qed.

Lemma ours_prefix_has_underscore (filename : string) :
  startswith Builder.OURS_PREFIX filename = true -> contains "_" filename = true.
Proof.
  intros H. apply startswith_inv in H as [r ->].
  unfold Builder.OURS_PREFIX. rewrite !sapp_cons.
  do 4 apply contains_suffix. reflexivity.
Qed.

(** One turn of the loop does what the policy says, whatever the local
    variables held before: the branch that would read stale values of
    [model_name] and [video_id] is never taken. *)
Lemma extract_step_policy (st : Builder.locals) (filename : string) :
  filename <> "" ->
  exists st', Builder.extract_step st filename = Ok st'
    /\ Builder.video_groups st' = policy_step (Builder.video_groups st) filename.
Proof.
  intros Hne. destruct filename as [|c0 rest]; [congruence |].
  unfold policy_step, filename_policy, Builder.extract_step.
  set (filename := String c0 rest).
  destruct (is_digit c0 && contains "-" filename) eqn:Hskip; [eauto |].
  destruct (startswith Builder.OURS_PREFIX filename) eqn:Hours.
  - rewrite (ours_prefix_has_underscore _ Hours).
    cbn [rbind Builder.read_local Builder.video_id Builder.model_name
         Builder.video_groups]. eauto.
  - rewrite Nat.ltb_antisym, tokens_length.
    destruct (contains "_" filename) eqn:Hus; cbn [negb]; [| eauto].
    destruct (startswith Builder.V_AURA_PREFIX filename);
      cbn [rbind Builder.read_local Builder.video_id Builder.model_name
           Builder.video_groups]; eauto.
Qed.

Lemma extract_loop_policy (video_files : list string) (st : Builder.locals) :
  Forall (fun f => f <> "") video_files ->
  exists st', Builder.extract_loop video_files st = Ok st'
    /\ Builder.video_groups st' =
       List.fold_left policy_step video_files (Builder.video_groups st).
Proof.
  revert st. induction video_files as [|f fs IH]; intros st Hall; simpl; [eauto |].
  apply Forall_cons in Hall as [Hf Hall].
  destruct (extract_step_policy st f Hf) as (st1 & -> & H1). simpl.
  destruct (IH st1 Hall) as (st2 & -> & H2).
  exists st2. split; [reflexivity |]. now rewrite H2, H1.
Qed.

Lemma endswith_nonempty (suf s : string) :
  suf <> "" -> endswith suf s = true -> s <> "".
Proof. intros Hs H ->. simpl in H. destruct suf; [congruence | discriminate]. Qed.

End FilenameFacts.

Section ReplaceFacts.
Import PyStr.






End ReplaceFacts.

Lemma extract_video_ids_and_models_run (w : World) :
  Builder.extract_video_ids_and_models w
  = (Ok (List.fold_left policy_step (scanned_files w) []), w).
Proof.
  unfold Builder.extract_video_ids_and_models, bind, glob_mp4, lift, ret.
  fold (scanned_files w).
  destruct (extract_loop_policy (scanned_files w) (Builder.mkLocals [] None None))
    as (st & -> & Hst).
  - unfold scanned_files. destruct (dirs w !! Builder.VIDEO_DIR); [| constructor].
    apply List.Forall_forall. intros f Hf. apply List.filter_In in Hf as [_ Hf].
    now apply (endswith_nonempty ".mp4").
  - now rewrite Hst.
Qed.


(* ===================================================================== *)
(** * Running the monad *)
(* ===================================================================== *)

Lemma bind_ok {A B} (m : M A) (k : A -> M B) (w w' : World) (b : B) :
  bind m k w = (Ok b, w') ->
  exists a w1, m w = (Ok a, w1) /\ k a w1 = (Ok b, w').
Proof.
  unfold bind. destruct (m w) as [[a|e] w1]; [eauto | discriminate].
Qed.

Lemma bind_run_ok {A B} (m : M A) (k : A -> M B) (w w1 : World) (a : A) :
  m w = (Ok a, w1) -> bind m k w = k a w1.
Proof. unfold bind. now intros ->. Qed.


(* ===================================================================== *)
(** * The order of the Manifest Builder's output (C6) *)
(* ===================================================================== *)

Section SortFacts.
Import Builder.




Lemma insert_sorted_perm (x : string) (l : list string) :
  Permutation (insert_sorted x l) (x :: l).
Proof.
  induction l as [|y l IH]; simpl; [reflexivity |].
  destruct (key_lt (sort_key y) (sort_key x)); [| reflexivity].
  rewrite IH. apply perm_swap.
Qed.



Lemma sorted_ids_perm (ids : list string) : Permutation (sorted_ids ids) ids.
Proof.
  induction ids as [|x ids IH]; simpl; [reflexivity |].
  now rewrite insert_sorted_perm, IH.
Qed.



(** The loop keeps the order of the ids it is given and numbers the
    entries from [idx + 1] on. *)
Lemma build_entries_spec (csv_data : list row) (groups : Dict.t (Dict.t string))
    (ids : list string) :
  forall idx w w' entries,
    build_entries csv_data groups idx ids w = (Ok entries, w') ->
    map entry_video_id entries = ids
    /\ forall i e, entries !! i = Some e -> sequence_id e = (idx + i + 1)%nat.
Proof.
  induction ids as [|vid ids IH]; intros idx w w' entries H.
  - injection H as <- _. split; [reflexivity | intros i e Hi; destruct i; discriminate].
  - cbn [build_entries] in H.
    apply bind_ok in H as (p & w1 & _ & H).
    apply bind_ok in H as (es & w2 & Hes & H).
    injection H as <- _.
    destruct (IH _ _ _ _ Hes) as [Hids Hseq].
    split; [simpl; now rewrite Hids |].
    intros [|i] e Hi; simpl in Hi.
    + injection Hi as <-. simpl. lia.
    + rewrite (Hseq _ _ Hi). lia.
Qed.

End SortFacts.



(* ===================================================================== *)
(** * Caption lookup (C4) *)
(* ===================================================================== *)

Section CaptionFacts.
Import Builder.



End CaptionFacts.




(* ===================================================================== *)
(** * The Resolver's URL mapping (C10) *)
(* ===================================================================== *)

Section MappingFacts.
Import PyStr.

Lemma dict_set_fresh {V} (k : string) (v : V) (d : Dict.t V) :
  k ∉ Dict.keys d -> Dict.set k v d = d ++ [(k, v)].
Proof.
  induction d as [|[k0 v0] d IH]; simpl; [reflexivity |].
  intros [Hne Hnotin]%not_elem_of_cons.
  destruct (String.eqb_spec k k0); [congruence |]. now rewrite IH.
Qed.

Lemma dict_keys_app {V} (a b : Dict.t V) :
  Dict.keys (a ++ b) = Dict.keys a ++ Dict.keys b.
Proof. unfold Dict.keys. apply map_app. Qed.

Variable run : list string -> option nat -> run_result.



End MappingFacts.




(* ===================================================================== *)
(** * Missing inputs (C3) *)
(* ===================================================================== *)


Lemma path_exists_absent (path : string) (w : World) :
  files w !! path = None -> path_exists path w = (Ok false, w).
Proof.
  intros H. unfold path_exists. rewrite H.
  rewrite bool_decide_eq_false_2; [reflexivity |]. now intros [x Hx].
Qed.

Lemma path_exists_present (path content : string) (w : World) :
  files w !! path = Some content -> path_exists path w = (Ok true, w).
Proof.
  intros H. unfold path_exists. rewrite H.
  rewrite bool_decide_eq_true_2; [reflexivity | eauto].
Qed.



(* ===================================================================== *)
(** * The update pass over a manifest (C8) *)
(* ===================================================================== *)

Section UpdatePass.
Import PyStr.
Variable codec : Codec.
Variable url_mapping : Dict.t string.

Lemma update_videos_flag (its : list (string * json)) :
  forall cur updated cur' updated',
    Resolver.update_videos url_mapping its cur updated = Ok (cur', updated') ->
    updated' = updated || some_path_mapped url_mapping its.
Proof.
  induction its as [|[method v] its IH]; intros cur updated cur' updated' H.
  - injection H as _ <-. simpl. now rewrite orb_false_r.
  - cbn [Resolver.update_videos] in H.
    destruct v; try discriminate. cbn [Resolver.basename_of rbind] in H.
    unfold some_path_mapped. cbn [existsb snd]. unfold Dict.mem.
    destruct (Dict.get (basename s) url_mapping).
    + apply IH in H. rewrite H. simpl. now rewrite orb_true_r.
    + apply IH in H. rewrite H. reflexivity.
Qed.




End UpdatePass.




(* ===================================================================== *)
(** * Applying a mapping twice (C2) *)
(* ===================================================================== *)

(** C2, on the code: with a mapping that renames its own URLs the second
    pass replaces what the first pass wrote, so two passes do not leave the
    file as one pass does. *)
Lemma second_pass_changes_file :
  files_after_once RefJson.codec demo_manifest chain_mapping one_video_manifest
  = {[ demo_manifest := PyStr.write_lines [video_line "https://cdn.example/v/b.mp4"] ]}
  /\ files_after_twice RefJson.codec demo_manifest chain_mapping one_video_manifest
     = {[ demo_manifest := PyStr.write_lines [video_line "https://cdn.example/v/c.mp4"] ]}.
Proof. split; vm_compute; reflexivity. Qed.

Section LineFacts.
Import PyStr.

Lemma all_chars_app (p : ascii -> bool) (a b : string) :
  all_chars p (a +:+ b) = all_chars p a && all_chars p b.
Proof.
  induction a as [|c a IH]; [reflexivity |].
  rewrite sapp_cons. simpl. now rewrite IH, andb_assoc.
Qed.

Lemma not_newline_inv (c : ascii) :
  not_newline c = true -> Ascii.eqb c nl = false /\ Ascii.eqb c cr = false.
Proof.
  unfold not_newline. intros H. apply andb_true_iff in H as [H1 H2].
  now destruct (Ascii.eqb c nl), (Ascii.eqb c cr).
Qed.

Lemma universal_newlines_id (s : string) :
  all_chars not_newline s = true -> universal_newlines s = s.
Proof.
  induction s as [|c s IH]; [reflexivity |].
  simpl. intros H. apply andb_true_iff in H as [Hc Hs].
  apply not_newline_inv in Hc as [_ Hcr]. rewrite Hcr. now rewrite IH.
Qed.

Lemma write_lines_cons (l : string) (outs : list string) :
  write_lines (l :: outs) = l +:+ String nl (write_lines outs).
Proof.
  unfold write_lines. destruct outs as [|l2 outs]; cbn [map String.concat].
  - reflexivity.
  - now rewrite sapp_nil_l, sapp_assoc, sapp_cons, sapp_nil_l.
Qed.

Lemma universal_newlines_line (l rest : string) :
  all_chars not_newline l = true ->
  universal_newlines (l +:+ String nl rest) = l +:+ String nl (universal_newlines rest).
Proof.
  induction l as [|c l IH]; intros Hl.
  - rewrite !sapp_nil_l. reflexivity.
  - rewrite !sapp_cons. cbn [universal_newlines].
    simpl in Hl. apply andb_true_iff in Hl as [Hc Hl].
    apply not_newline_inv in Hc as [_ Hcr]. rewrite Hcr. now rewrite (IH Hl).
Qed.

(** Reading back what [write_lines] wrote gives the lines again, each with
    its line feed, as long as no line holds a line break. *)
Lemma universal_newlines_write_lines (outs : list string) :
  Forall (fun l => all_chars not_newline l = true) outs ->
  universal_newlines (write_lines outs) = write_lines outs.
Proof.
  induction 1 as [|l outs Hl _ IH]; [reflexivity |].
  now rewrite write_lines_cons, universal_newlines_line, IH.
Qed.

Lemma iter_lines_line (l rest : string) :
  all_chars not_newline l = true ->
  iter_lines (l +:+ String nl rest) = (l +:+ String nl "") :: iter_lines rest.
Proof.
  induction l as [|c l IH]; intros Hl.
  - rewrite !sapp_nil_l. cbn [iter_lines]. now rewrite Ascii.eqb_refl.
  - rewrite !sapp_cons. cbn [iter_lines].
    simpl in Hl. apply andb_true_iff in Hl as [Hc Hl].
    apply not_newline_inv in Hc as [Hnl _]. rewrite Hnl. now rewrite (IH Hl).
Qed.

Lemma file_lines_write_lines (outs : list string) :
  Forall (fun l => all_chars not_newline l = true) outs ->
  file_lines (write_lines outs) = map (fun l => l +:+ String nl "") outs.
Proof.
  intros Hall. unfold file_lines.
  rewrite universal_newlines_write_lines by exact Hall.
  induction Hall as [|l outs Hl _ IH]; [reflexivity |].
  rewrite write_lines_cons, iter_lines_line by exact Hl.
  cbn [map]. now rewrite IH.
Qed.

Lemma lstrip_idem (s : string) : lstrip (lstrip s) = lstrip s.
Proof.
  induction s as [|c s IH]; [reflexivity |].
  simpl. destruct (is_space c) eqn:E; [exact IH |]. simpl. now rewrite E.
Qed.

Lemma rstrip_cons (c : ascii) (s : string) :
  rstrip (String c s) = match rstrip s with
                        | "" => if is_space c then "" else String c ""
                        | r => String c r
                        end.
Proof. reflexivity. Qed.

Lemma rstrip_idem (s : string) : rstrip (rstrip s) = rstrip s.
Proof.
  induction s as [|c s IH]; [reflexivity |].
  rewrite rstrip_cons. destruct (rstrip s) as [|d r] eqn:E.
  - destruct (is_space c) eqn:Ec; [reflexivity |]. simpl. now rewrite Ec.
  - rewrite rstrip_cons, IH. reflexivity.
Qed.

Lemma rstrip_lstrip (s : string) : rstrip (lstrip s) = lstrip (rstrip s).
Proof.
  induction s as [|c s IH]; [reflexivity |].
  cbn [lstrip]. destruct (is_space c) eqn:Ec.
  - rewrite IH, rstrip_cons. destruct (rstrip s) as [|d r] eqn:E.
    + now rewrite Ec.
    + cbn [lstrip]. now rewrite Ec.
  - rewrite rstrip_cons. destruct (rstrip s) as [|d r] eqn:E.
    + rewrite Ec. cbn [lstrip]. now rewrite Ec.
    + cbn [lstrip]. now rewrite Ec.
Qed.

Lemma strip_idem (s : string) : strip (strip s) = strip s.
Proof.
  unfold strip. now rewrite rstrip_lstrip, rstrip_idem, lstrip_idem.
Qed.

Lemma rstrip_app_space (s : string) (c : ascii) :
  is_space c = true -> rstrip (s +:+ String c "") = rstrip s.
Proof.
  intros Hc. induction s as [|a s IH].
  - rewrite sapp_nil_l. simpl. now rewrite Hc.
  - rewrite sapp_cons, !rstrip_cons. now rewrite IH.
Qed.

Lemma strip_line_feed (s : string) : strip (s +:+ String nl "") = strip s.
Proof. unfold strip. now rewrite rstrip_app_space. Qed.

Lemma all_chars_lstrip (p : ascii -> bool) (s : string) :
  all_chars p s = true -> all_chars p (lstrip s) = true.
Proof.
  induction s as [|c s IH]; [reflexivity |].
  simpl. intros H. apply andb_true_iff in H as [Hc Hs].
  destruct (is_space c); [auto |]. simpl. now rewrite Hc, Hs.
Qed.

(** The lines of a text read with universal newlines hold no line break
    once their trailing whitespace is removed. *)
Lemma iter_lines_rstrip (t : string) :
  all_chars (fun c => negb (Ascii.eqb c cr)) t = true ->
  Forall (fun l => all_chars not_newline (rstrip l) = true) (iter_lines t).
Proof.
  induction t as [|c t IH]; [constructor |].
  simpl. intros H. apply andb_true_iff in H as [Hc Ht].
  specialize (IH Ht).
  destruct (Ascii.eqb c nl) eqn:Hnl.
  - constructor; [reflexivity | exact IH].
  - assert (Hnn : not_newline c = true) by (unfold not_newline; now rewrite Hnl, Hc).
    destruct (iter_lines t) as [|l ls].
    + constructor; [| constructor]. simpl.
      destruct (is_space c); [reflexivity |]. simpl. now rewrite Hnn.
    + apply Forall_cons in IH as [Hl Hls]. constructor; [| exact Hls].
      rewrite rstrip_cons. destruct (rstrip l) as [|d r].
      * destruct (is_space c); [reflexivity |]. simpl. now rewrite Hnn.
      * cbn [all_chars] in *. now rewrite Hnn, Hl.
Qed.

Lemma universal_newlines_no_cr (s : string) :
  all_chars (fun c => negb (Ascii.eqb c cr)) (universal_newlines s) = true.
Proof.
  assert (H : forall n s, (String.length s <= n)%nat ->
            all_chars (fun c => negb (Ascii.eqb c cr)) (universal_newlines s) = true).
  { clear s. induction n as [|n IH]; intros [|c s] Hlen; try reflexivity.
    - simpl in Hlen. lia.
    - simpl in Hlen. cbn [universal_newlines].
      destruct (Ascii.eqb c cr) eqn:Hc.
      + destruct s as [|d s]; [reflexivity |].
        destruct (Ascii.eqb d nl).
        * cbn [all_chars]. rewrite IH by (simpl in Hlen; lia). reflexivity.
        * cbn [all_chars]. rewrite IH by lia. reflexivity.
      + cbn [all_chars]. rewrite Hc, IH by lia. reflexivity. }
  apply (H (String.length s)). lia.
Qed.

Lemma file_lines_strip (content : string) :
  Forall (fun l => all_chars not_newline (strip l) = true) (file_lines content).
Proof.
  unfold file_lines, strip.
  eapply List.Forall_impl; [| apply iter_lines_rstrip, universal_newlines_no_cr].
  intros l Hl. now apply all_chars_lstrip.
Qed.

Lemma strip_one_line (l : string) :
  all_chars not_newline (strip l) = true -> strip l <> "" -> one_line (strip l).
Proof. intros H Hne. split; [exact Hne |]. split; [apply strip_idem | exact H]. Qed.

End LineFacts.

Section VideosFacts.
Import PyStr.
Variable m : Dict.t string.

Lemma dict_set_middle {V} (k : string) (v v' : V) (done rest : Dict.t V) :
  k ∉ Dict.keys done ->
  Dict.set k v' (done ++ (k, v) :: rest) = done ++ (k, v') :: rest.
Proof.
  induction done as [|[k0 v0] done IH]; intros Hk.
  - simpl. now rewrite String.eqb_refl.
  - apply not_elem_of_cons in Hk as [Hne Hk]. simpl in Hne.
    cbn [app Dict.set]. destruct (String.eqb_spec k k0); [congruence |].
    now rewrite (IH Hk).
Qed.

(** With distinct keys the loop over the items rewrites each value in its
    place. *)
Lemma update_videos_map (its : list (string * json)) :
  forall done b cur' b',
    NoDup (map fst (done ++ its)) ->
    Resolver.update_videos m its (done ++ its) b = Ok (cur', b') ->
    cur' = done ++ map (remap_entry m) its.
Proof.
  induction its as [|[k v] its IH]; intros done b cur' b' Hnd H.
  - injection H as <- _. reflexivity.
  - cbn [Resolver.update_videos] in H.
    destruct v; try discriminate. cbn [Resolver.basename_of rbind] in H.
    assert (Hk : k ∉ Dict.keys done).
    { rewrite map_app in Hnd. apply NoDup_app in Hnd as (_ & Hdisj & _).
      intros Hin. apply (Hdisj _ Hin). left. }
    destruct (Dict.get (basename s) m) as [url|] eqn:E.
    + rewrite dict_set_middle in H by exact Hk.
      replace (done ++ (k, JStr url) :: its) with ((done ++ [(k, JStr url)]) ++ its) in H
        by (now rewrite <- app_assoc).
      apply IH in H.
      * rewrite H, <- app_assoc. cbn [app map]. unfold remap_entry at 2.
        cbn [fst snd remap]. now rewrite E.
      * rewrite !map_app in *. rewrite <- app_assoc. exact Hnd.
    + replace (done ++ (k, JStr s) :: its) with ((done ++ [(k, JStr s)]) ++ its) in H
        by (now rewrite <- app_assoc).
      apply IH in H.
      * rewrite H, <- app_assoc. cbn [app map]. unfold remap_entry at 2.
        cbn [fst snd remap]. now rewrite E.
      * rewrite !map_app in *. rewrite <- app_assoc. exact Hnd.
Qed.

(** On string values throughout, the loop succeeds. *)
Lemma update_videos_strings (its : list (string * json)) :
  Forall (fun kv => exists p, snd kv = JStr p) its ->
  forall cur b, exists cur' b', Resolver.update_videos m its cur b = Ok (cur', b').
Proof.
  induction 1 as [|[k v] its [p Hp] _ IH]; intros cur b; [simpl; eauto |].
  simpl in Hp; subst v. cbn [Resolver.update_videos Resolver.basename_of rbind].
  destruct (Dict.get (basename p) m); apply IH.
Qed.

Lemma update_videos_values (its : list (string * json)) :
  forall cur b r,
    Resolver.update_videos m its cur b = Ok r ->
    Forall (fun kv => exists p, snd kv = JStr p) its.
Proof.
  induction its as [|[k v] its IH]; intros cur b r H; [constructor |].
  cbn [Resolver.update_videos] in H.
  destruct v; try discriminate. cbn [Resolver.basename_of rbind] in H.
  constructor; [simpl; eauto |].
  destruct (Dict.get (basename s) m); eapply IH; exact H.
Qed.

Hypothesis Hstable : stable_mapping m.

Lemma remap_idem (v : json) : remap m (remap m v) = remap m v.
Proof.
  destruct v; try reflexivity. simpl.
  destruct (Dict.get (basename s) m) as [url|] eqn:E; simpl.
  - destruct (Dict.get (basename url) m) as [url'|] eqn:E'; [| reflexivity].
    now rewrite (Hstable _ _ _ E E').
  - now rewrite E.
Qed.

Lemma remap_entries_idem (its : list (string * json)) :
  map (remap_entry m) (map (remap_entry m) its) = map (remap_entry m) its.
Proof.
  rewrite map_map. apply map_ext. intros [k v]. unfold remap_entry. simpl.
  now rewrite remap_idem.
Qed.

End VideosFacts.

Section WfFacts.

Lemma json_wf_obj (d : list (string * json)) :
  json_wf (JObj d) <-> NoDup (map fst d) /\ Forall (fun kv => json_wf (snd kv)) d.
Proof.
  cbn [json_wf]. split; intros [Hnd Hall]; (split; [exact Hnd |]).
  - induction d as [|kv d IH]; [constructor |].
    destruct Hall as [H1 H2]. constructor; [exact H1 |].
    apply IH; [| exact H2]. cbn [map] in Hnd. now apply NoDup_cons in Hnd as [_ Hnd].
  - clear Hnd. induction Hall as [|kv d H1 _ IH]; [exact I | split; assumption].
Qed.

Lemma json_wf_arr (l : list json) : json_wf (JArr l) <-> Forall json_wf l.
Proof.
  cbn [json_wf]. split.
  - induction l as [|x l IH]; [constructor |]. intros [H1 H2]. constructor; auto.
  - induction 1 as [|x l H1 _ IH]; [exact I | split; assumption].
Qed.

Lemma dict_get_in {V} (k : string) (v : V) (d : Dict.t V) :
  Dict.get k d = Some v -> In (k, v) d.
Proof.
  induction d as [|[k0 v0] d IH]; [discriminate |].
  simpl. destruct (String.eqb_spec k k0) as [->|]; [intros [= ->]; now left | auto].
Qed.

Lemma dict_set_keys {V} (k : string) (v v' : V) (d : Dict.t V) :
  Dict.get k d = Some v -> map fst (Dict.set k v' d) = map fst d.
Proof.
  induction d as [|[k0 v0] d IH]; [discriminate |].
  simpl. destruct (String.eqb_spec k k0) as [->|]; [reflexivity |].
  intros H. simpl. now rewrite (IH H).
Qed.

Lemma dict_set_Forall {V} (P : string * V -> Prop) (k : string) (v : V) (d : Dict.t V) :
  P (k, v) -> Forall P d -> Forall P (Dict.set k v d).
Proof.
  intros Hv. induction 1 as [|[k0 v0] d H0 Hd IH]; simpl.
  - repeat constructor. exact Hv.
  - destruct (String.eqb k k0); constructor; assumption.
Qed.

Lemma dict_set_set {V} (k : string) (v v' : V) (d : Dict.t V) :
  Dict.set k v (Dict.set k v' d) = Dict.set k v d.
Proof.
  induction d as [|[k0 v0] d IH]; simpl.
  - now rewrite String.eqb_refl.
  - destruct (String.eqb k k0) eqn:E; simpl.
    + now rewrite String.eqb_refl.
    + now rewrite E, IH.
Qed.

Variable m : Dict.t string.
Hypothesis Hstable : stable_mapping m.

(** A record that went through the update once is left as it is by the
    update. *)
Lemma update_data_settles (d d' : json) (b : bool) :
  json_wf d ->
  Resolver.update_data m d = Ok (d', b) ->
  json_wf d' /\ exists b', Resolver.update_data m d' = Ok (d', b').
Proof.
  intros Hwf H. unfold Resolver.update_data in H.
  destruct d as [| |z|s|l|kv]; cbn [Resolver.contains_videos rbind] in H;
    try discriminate.
  - destruct (PyStr.contains "videos" s) eqn:E;
      cbn [Resolver.getitem_videos rbind] in H; [discriminate |].
    injection H as <- <-. split; [exact Hwf |].
    exists false. unfold Resolver.update_data. cbn [Resolver.contains_videos rbind].
    now rewrite E.
  - destruct (existsb _ l) eqn:E; cbn [Resolver.getitem_videos rbind] in H;
      [discriminate |].
    injection H as <- <-. split; [exact Hwf |].
    exists false. unfold Resolver.update_data. cbn [Resolver.contains_videos rbind].
    now rewrite E.
  - unfold Dict.mem, Resolver.getitem_videos in H.
    destruct (Dict.get "videos" kv) as [vs|] eqn:Hget; cbn [rbind] in H.
    + destruct vs as [| | | | |its]; cbn [Resolver.items rbind] in H; try discriminate.
      destruct (Resolver.update_videos m its its false) as [[cur' b1]|] eqn:Hloop;
        cbn [rbind fst snd] in H; [| discriminate].
      injection H as <- <-.
      apply json_wf_obj in Hwf as [Hnd Hvals].
      assert (Hits : json_wf (JObj its)).
      { rewrite List.Forall_forall in Hvals.
        apply (Hvals ("videos", JObj its)). now apply dict_get_in. }
      apply json_wf_obj in Hits as [Hnd_its _].
      pose proof (update_videos_values m _ _ _ _ Hloop) as Hstr.
      pose proof (update_videos_map m its [] false cur' b1 Hnd_its Hloop) as Hcur.
      cbn [app] in Hcur. subst cur'.
      assert (Hstr' : Forall (fun kv => exists p, snd kv = JStr p)
                        (map (remap_entry m) its)).
      { apply List.Forall_forall. intros kv' Hin. apply List.in_map_iff in Hin
          as ([k v] & <- & Hin).
        rewrite List.Forall_forall in Hstr. destruct (Hstr _ Hin) as [p Hp].
        simpl in Hp; subst v. unfold remap_entry. simpl.
        destruct (Dict.get (PyStr.basename p) m); eauto. }
      assert (Hnd' : NoDup (map fst (map (remap_entry m) its))).
      { rewrite map_map. exact Hnd_its. }
      split.
      * apply json_wf_obj. split.
        -- now rewrite (dict_set_keys _ _ _ _ Hget).
        -- apply dict_set_Forall; [| exact Hvals].
           apply json_wf_obj. split; [exact Hnd' |].
           eapply List.Forall_impl; [| exact Hstr'].
           intros kv' [p ->]. exact I.
      * unfold Resolver.update_data. cbn [Resolver.contains_videos rbind].
        unfold Dict.mem, Resolver.getitem_videos.
        rewrite dict_get_set, String.eqb_refl. cbn [rbind Resolver.items].
        destruct (update_videos_strings m _ Hstr' (map (remap_entry m) its) false)
          as (cur2 & b2 & Hloop2).
        rewrite Hloop2. cbn [rbind fst snd].
        pose proof (update_videos_map m _ [] false cur2 b2 Hnd' Hloop2) as Hcur2.
        cbn [app] in Hcur2. rewrite (remap_entries_idem m Hstable) in Hcur2.
        subst cur2. exists b2. now rewrite dict_set_set.
    + injection H as <- <-. split; [exact Hwf |].
      exists false. unfold Resolver.update_data. cbn [Resolver.contains_videos rbind].
      unfold Dict.mem. now rewrite Hget.
Qed.

End WfFacts.

Section TwoPasses.
Import PyStr.
Variable codec : Codec.
Variable m : Dict.t string.

Lemma logged_logged (w : World) (a b : list message) :
  logged (logged w a) b = logged w (a ++ b).
Proof. unfold logged. simpl. now rewrite app_assoc. Qed.

Lemma logged_nil (w : World) : logged w [] = w.
Proof. destruct w. unfold logged. simpl. now rewrite app_nil_r. Qed.

Lemma update_line_run (st : list string * nat * nat) (line : string) (w : World) :
  exists msgs,
    Resolver.update_line codec m st line w
    = (update_line_pure codec m st line, logged w msgs).
Proof.
  destruct st as [[outs cnt] ln]. unfold Resolver.update_line, update_line_pure.
  destruct (String.eqb (strip line) "").
  - exists []. now rewrite logged_nil.
  - destruct (loads codec (strip line)) as [data|].
    + exists []. rewrite logged_nil. unfold bind, lift, ret.
      destruct (Resolver.update_data m data) as [r|e]; reflexivity.
    + exists [ErrJsonLine ln]. reflexivity.
Qed.

(** The loop of the update pass is the pure loop, plus what it logs. *)
Lemma update_loop_run (lines : list string) :
  forall st w, exists msgs,
    for_each lines (Resolver.update_line codec m) st w
    = (update_loop_pure codec m lines st, logged w msgs).
Proof.
  induction lines as [|line lines IH]; intros st w.
  - exists []. now rewrite logged_nil.
  - cbn [for_each update_loop_pure]. unfold bind at 1.
    destruct (update_line_run st line w) as [msgs ->].
    destruct (update_line_pure codec m st line) as [st'|e]; cbn [rbind].
    + destruct (IH st' (logged w msgs)) as [msgs' ->].
      exists (msgs ++ msgs'). now rewrite logged_logged.
    + eauto.
Qed.

(** The file store after one pass. *)
Lemma files_after_update (jsonl_file : string) (w : World) :
  files (snd (Resolver.update_jsonl_file codec jsonl_file m w))
  = match files w !! jsonl_file with
    | None => files w
    | Some content =>
        match update_loop_pure codec m (file_lines content) ([], 0%nat, 1%nat) with
        | Ok (outs, _, _) => <[jsonl_file := write_lines outs]> (files w)
        | Raise _ => files w
        end
    end.
Proof.
  unfold Resolver.update_jsonl_file.
  destruct (files w !! jsonl_file) as [content|] eqn:Hfile.
  - rewrite (bind_run_ok _ _ _ _ _ (path_exists_present _ _ _ Hfile)). cbn [negb].
    unfold bind at 1. unfold read_file. rewrite Hfile.
    unfold bind at 1.
    destruct (update_loop_run (file_lines content) ([], 0%nat, 1%nat) w) as [msgs ->].
    destruct (update_loop_pure codec m (file_lines content) ([], 0%nat, 1%nat))
      as [[[outs cnt] ln]|e]; reflexivity.
  - rewrite (bind_run_ok _ _ _ _ _ (path_exists_absent _ _ Hfile)). reflexivity.
Qed.

Hypothesis Hlaws : CodecLaws codec.
Hypothesis Hstable : stable_mapping m.

(** Every line the first pass writes is settled. *)
Lemma first_pass_settled (lines : list string) :
  Forall (fun l => all_chars not_newline (strip l) = true) lines ->
  forall acc c n outs c' n',
    update_loop_pure codec m lines (acc, c, n) = Ok (outs, c', n') ->
    exists new, outs = acc ++ new /\ Forall (settled codec m) new.
Proof.
  induction 1 as [|line lines Hline _ IH]; intros acc c n outs c' n' H.
  - injection H as <- _ _. exists []. split; [now rewrite app_nil_r | constructor].
  - cbn [update_loop_pure] in H. unfold update_line_pure in H.
    destruct (String.eqb_spec (strip line) "") as [Hblank|Hblank]; cbn [rbind] in H.
    + now apply IH in H.
    + destruct (loads codec (strip line)) as [data|] eqn:Hload.
      * destruct (Resolver.update_data m data) as [[data' b]|e] eqn:Hup;
          cbn [rbind fst snd] in H; [| discriminate].
        apply IH in H as (new & -> & Hnew).
        pose proof (loads_wf codec Hlaws _ _ Hload) as Hwf.
        destruct (update_data_settles m Hstable _ _ _ Hwf Hup) as (Hwf' & b' & Hup').
        exists (dumps codec data' :: new). split; [now rewrite <- app_assoc |].
        constructor; [| exact Hnew]. split.
        -- now apply (dumps_one_line codec Hlaws).
        -- right. exists data', b'.
           split; [now apply (loads_dumps codec Hlaws) | auto].
      * cbn [rbind] in H. apply IH in H as (new & -> & Hnew).
        exists (strip line :: new). split; [now rewrite <- app_assoc |].
        constructor; [| exact Hnew]. split; [now apply strip_one_line | now left].
Qed.

(** A pass over settled lines writes the same lines. *)
Lemma settled_loop (new : list string) :
  Forall (settled codec m) new ->
  forall acc c n, exists c' n',
    update_loop_pure codec m (map (fun l => l +:+ String nl "") new) (acc, c, n)
    = Ok (acc ++ new, c', n').
Proof.
  induction 1 as [|out new [(Hne & Hstrip & _) Hout] _ IH]; intros acc c n.
  - exists c, n. simpl. now rewrite app_nil_r.
  - cbn [map update_loop_pure]. unfold update_line_pure.
    rewrite strip_line_feed, Hstrip.
    destruct (String.eqb_spec out "") as [|_]; [contradiction |].
    destruct Hout as [Hnone | (data & b & Hload & Hup & Hdump)].
    + rewrite Hnone. cbn [rbind].
      destruct (IH (acc ++ [out]) c (S n)) as (c' & n' & ->).
      exists c', n'. now rewrite <- app_assoc.
    + rewrite Hload, Hup. cbn [rbind fst snd]. rewrite Hdump.
      destruct (IH (acc ++ [out]) (if b then S c else c) (S n)) as (c' & n' & ->).
      exists c', n'. now rewrite <- app_assoc.
Qed.

Lemma two_passes_files (jsonl_file : string) (w : World) :
  files_after_twice codec jsonl_file m w = files_after_once codec jsonl_file m w.
Proof.
  unfold files_after_twice, files_after_once.
  rewrite (files_after_update jsonl_file
             (snd (Resolver.update_jsonl_file codec jsonl_file m w))).
  rewrite (files_after_update jsonl_file w).
  destruct (files w !! jsonl_file) as [content|] eqn:Hfile.
  - destruct (update_loop_pure codec m (file_lines content) ([], 0%nat, 1%nat))
      as [[[outs cnt] ln]|e] eqn:Hloop.
    + rewrite lookup_insert_eq.
      destruct (first_pass_settled _ (file_lines_strip content) _ _ _ _ _ _ Hloop)
        as (new & Hnew & Hsettled).
      cbn [app] in Hnew. subst new.
      rewrite file_lines_write_lines.
      * destruct (settled_loop outs Hsettled [] 0%nat 1%nat) as (c' & n' & ->).
        cbn [app]. apply insert_insert_eq.
      * eapply List.Forall_impl; [| exact Hsettled].
        intros out [(_ & _ & H) _]. exact H.
    + now rewrite Hfile, Hloop.
  - now rewrite Hfile.
Qed.

End TwoPasses.

(** C2, amended.  With a JSON library that reads back what it writes, and
    a mapping that does not rename its own URLs (whenever the file name of
    one of its URLs is itself a key, that key is mapped to the same URL),
    applying [update_jsonl_file] twice leaves the files exactly as applying
    it once does. *)
Theorem manifest_rewrite_idempotent
    (codec : Codec) (url_mapping : Dict.t string) (jsonl_file : string) (w : World) :
  CodecLaws codec ->
  stable_mapping url_mapping ->
  files_after_twice codec jsonl_file url_mapping w
  = files_after_once codec jsonl_file url_mapping w.
Proof. intros Hlaws Hstable. now apply two_passes_files. Qed.

(* ===================================================================== *)
(** * The reference codec obeys the codec laws *)
(* ===================================================================== *)

Section RefJsonLexer.
Import PyStr RefJson.

Ltac each_char c := destruct c as [[] [] [] [] [] [] [] []].

Lemma lex_string_escape_char (c : ascii) (rest : string) :
  lex_string (escape_char c +:+ rest) = push c (lex_string rest).
Proof. each_char c; reflexivity. Qed.

Lemma lex_string_escape (s rest : string) :
  lex_string (escape s +:+ String dq rest) = Some (s, rest).
Proof.
  induction s as [|c s IH].
  - reflexivity.
  - cbn [escape]. rewrite sapp_assoc, lex_string_escape_char, IH. reflexivity.
Qed.

Lemma escape_char_clean (c : ascii) : all_chars not_newline (escape_char c) = true.
Proof. each_char c; reflexivity. Qed.

Lemma escape_clean (s : string) : all_chars not_newline (escape s) = true.
Proof.
  induction s as [|c s IH]; [reflexivity |].
  cbn [escape]. now rewrite all_chars_app, escape_char_clean, IH.
Qed.

Lemma lex_from_skip (p rest : string) :
  lex_from (String.length p) (p +:+ rest) = lex_from 0 rest.
Proof.
  induction p as [|c p IH]; [reflexivity |].
  rewrite sapp_cons. cbn [String.length lex_from]. exact IH.
Qed.

Lemma consumed_app (p rest : string) : consumed (p +:+ rest) rest = String.length p.
Proof. unfold consumed. rewrite slength_app. lia. Qed.

(** Decimal digits. *)
Lemma string_of_uint_digits (u : Decimal.uint) :
  all_chars is_digit (NilEmpty.string_of_uint u) = true.
Proof. induction u; simpl; auto. Qed.

Lemma print_nat_digits (n : N) : all_chars is_digit (print_nat n) = true.
Proof.
  unfold print_nat, NilZero.string_of_uint.
  destruct (N.to_uint n); try reflexivity; apply string_of_uint_digits.
Qed.

Lemma print_nat_uint (n : N) :
  NilZero.uint_of_string (print_nat n) = Some (N.to_uint n).
Proof.
  unfold print_nat. apply NilZero.usu.
  destruct n as [|p]; [discriminate |].
  apply DecimalPos.Unsigned.to_uint_nonnil.
Qed.

Lemma print_nat_nonempty (n : N) : print_nat n <> "".
Proof.
  intros H. pose proof (print_nat_uint n) as Hu. rewrite H in Hu. discriminate.
Qed.

Lemma span_digits_app (ds rest : string) :
  all_chars is_digit ds = true ->
  match rest with String c _ => is_digit c = false | "" => True end ->
  span_digits (ds +:+ rest) = (ds, rest).
Proof.
  intros Hds Hrest. induction ds as [|c ds IH].
  - rewrite sapp_nil_l. destruct rest as [|c r]; [reflexivity |].
    simpl. now rewrite Hrest.
  - rewrite sapp_cons. simpl in Hds |- *.
    apply andb_true_iff in Hds as [Hc Hds]. rewrite Hc, (IH Hds). reflexivity.
Qed.

Lemma lex_nat_print (n : N) (rest : string) :
  ends_number rest = true -> lex_nat (print_nat n +:+ rest) = Some (n, rest).
Proof.
  intros Hrest. unfold lex_nat.
  rewrite span_digits_app.
  - rewrite print_nat_uint, DecimalN.Unsigned.of_to, String.eqb_refl.
    destruct rest as [|c r]; [reflexivity |].
    unfold ends_number in Hrest. apply andb_true_iff in Hrest as [_ Hf].
    now rewrite Hf.
  - apply print_nat_digits.
  - destruct rest as [|c r]; [exact I |].
    unfold ends_number in Hrest. apply andb_true_iff in Hrest as [Hd _].
    now destruct (is_digit c).
Qed.

Lemma lex_digit_start (c : ascii) (s' : string) :
  is_digit c = true ->
  lex_from 0 (String c s')
  = match lex_nat (String c s') with
    | Some (n, rest) => cons (TInt (Z.of_N n)) <$> lex_from (consumed s' rest) s'
    | None => None
    end.
Proof. intros H. each_char c; try discriminate H; reflexivity. Qed.

Lemma lex_int (z : Z) (rest : string) :
  ends_number rest = true ->
  lex_from 0 (print_int z +:+ rest) = cons (TInt z) <$> lex_from 0 rest.
Proof.
  intros Hrest.
  assert (Hnat : forall n, lex_from 0 (print_nat n +:+ rest)
                           = cons (TInt (Z.of_N n)) <$> lex_from 0 rest).
  { intros n. pose proof (print_nat_digits n) as Hd.
    pose proof (lex_nat_print n rest Hrest) as Hlex.
    destruct (print_nat n) as [|c ds] eqn:E; [now apply print_nat_nonempty in E |].
    rewrite sapp_cons in *. simpl in Hd. apply andb_true_iff in Hd as [Hc _].
    rewrite (lex_digit_start c _ Hc), Hlex, consumed_app, lex_from_skip.
    reflexivity. }
  destruct z as [|p|p].
  - apply (Hnat 0%N).
  - apply (Hnat (Npos p)).
  - unfold print_int. rewrite sapp_cons. cbn [lex_from].
    change (is_json_ws "-") with false. cbv iota.
    change (Ascii.eqb "-" "{") with false. change (Ascii.eqb "-" "}") with false.
    change (Ascii.eqb "-" "[") with false. change (Ascii.eqb "-" "]") with false.
    change (Ascii.eqb "-" ",") with false. change (Ascii.eqb "-" ":") with false.
    change (Ascii.eqb "-" dq) with false. change (Ascii.eqb "-" "-") with true.
    cbv iota.
    rewrite (lex_nat_print (Npos p) rest Hrest), consumed_app, lex_from_skip.
    reflexivity.
Qed.

(** One token, then the rest. *)
Lemma lex_token (t : token) (rest : string) :
  (is_int_token t = true -> ends_number rest = true) ->
  lex_from 0 (render t +:+ rest) = cons t <$> lex_from 0 rest.
Proof.
  intros Hint. destruct t; try reflexivity.
  - apply lex_int. now apply Hint.
  - cbn [render]. rewrite sapp_cons, sapp_assoc, sapp_cons, sapp_nil_l.
    cbn [lex_from]. change (is_json_ws dq) with false. cbv iota.
    change (Ascii.eqb dq "{") with false. change (Ascii.eqb dq "}") with false.
    change (Ascii.eqb dq "[") with false. change (Ascii.eqb dq "]") with false.
    change (Ascii.eqb dq ",") with false. change (Ascii.eqb dq ":") with false.
    change (Ascii.eqb dq dq) with true. cbv iota.
    rewrite lex_string_escape.
    change (escape s +:+ String dq rest) with (escape s +:+ (String dq "" +:+ rest)).
    rewrite <- sapp_assoc, consumed_app, lex_from_skip. reflexivity.
Qed.

End RefJsonLexer.

Section JsonInduction.

Variable P : json -> Prop.
Hypothesis Hnull : P JNull.
Hypothesis Hbool : forall b, P (JBool b).
Hypothesis Hint : forall z, P (JInt z).
Hypothesis Hstr : forall s, P (JStr s).
Hypothesis Harr : forall l, Forall P l -> P (JArr l).
Hypothesis Hobj : forall d, Forall (fun kv => P (snd kv)) d -> P (JObj d).

Lemma json_ind_nested (v : json) : P v.
Proof.
  revert v. fix IH 1. intros [| b | z | s | l | d].
  - exact Hnull.
  - apply Hbool.
  - apply Hint.
  - apply Hstr.
  - apply Harr. induction l as [|x l IHl]; constructor; [apply IH | exact IHl].
  - apply Hobj. induction d as [|kv d IHd]; constructor; [apply IH | exact IHd].
Qed.

End JsonInduction.

Section RefJsonTokens.
Import PyStr RefJson.

Lemma ends_number_render (t : token) (rest : string) :
  is_int_token t = false -> ends_number (render t +:+ rest) = true.
Proof. destruct t; try reflexivity. discriminate. Qed.

Lemma lex_render_all (ts : list token) :
  separated ts -> lex_from 0 (render_all ts) = Some ts.
Proof.
  induction ts as [|t ts IH]; [reflexivity |].
  intros [Hadj Hsep]. cbn [render_all].
  rewrite lex_token.
  - now rewrite (IH Hsep).
  - intros Ht. destruct ts as [|t' ts']; [reflexivity |].
    cbn [render_all]. apply ends_number_render.
    rewrite Ht in Hadj. exact Hadj.
Qed.

Lemma separated_cons (t : token) (ts : list token) :
  is_int_token t = false -> separated ts -> separated (t :: ts).
Proof.
  intros Ht Hs. split; [| exact Hs]. destruct ts; [exact I | now rewrite Ht].
Qed.

(** Two separated runs joined at a token that is not an integer. *)
Lemma separated_app (a : list token) (t : token) (b : list token) :
  separated a -> is_int_token t = false -> separated (t :: b) ->
  separated (a ++ t :: b).
Proof.
  intros Ha Ht Hb. induction a as [|x a IH]; [exact Hb |].
  destruct Ha as [Hadj Ha]. cbn [app]. split; [| now apply IH].
  destruct a as [|y a']; cbn [app].
  - rewrite Ht. apply andb_false_r.
  - exact Hadj.
Qed.

Lemma separated_items (items : list (list token)) (closing : token) :
  Forall separated items -> is_int_token closing = false ->
  separated (concat (map (fun y => TComma :: y) items) ++ [closing]).
Proof.
  intros Hall Hc. induction Hall as [|x items Hx _ IH].
  - simpl. split; exact I.
  - cbn [map concat]. rewrite <- app_assoc. cbn [app].
    apply separated_cons; [reflexivity |].
    destruct (concat (map (fun y => TComma :: y) items) ++ [closing]) as [|t b] eqn:E.
    + destruct (concat (map (fun y => TComma :: y) items)); discriminate.
    + apply separated_app; [exact Hx | | exact IH].
      destruct items as [|y items']; simpl in E; injection E as <- _;
        [exact Hc | reflexivity].
Qed.

Lemma separated_sep_items (items : list (list token)) (closing : token) :
  Forall separated items -> is_int_token closing = false ->
  separated (sep_items items ++ [closing]).
Proof.
  intros Hall Hc. destruct Hall as [|x items Hx Hall].
  - simpl. split; exact I.
  - cbn [sep_items]. rewrite <- app_assoc.
    pose proof (separated_items items closing Hall Hc) as Hrest.
    destruct (concat (map (fun y => TComma :: y) items) ++ [closing]) as [|t b] eqn:E.
    + destruct (concat (map (fun y => TComma :: y) items)); discriminate.
    + apply separated_app; [exact Hx | | exact Hrest].
      destruct items as [|y items']; simpl in E; injection E as <- _;
        [exact Hc | reflexivity].
Qed.

Lemma separated_tokens_of (v : json) : separated (tokens_of v).
Proof.
  induction v as [|b|z|s|l IH|d IH] using json_ind_nested.
  - simpl; auto.
  - destruct b; simpl; auto.
  - simpl; auto.
  - simpl; auto.
  - cbn [tokens_of]. apply separated_cons; [reflexivity |].
    apply separated_sep_items; [| reflexivity].
    apply List.Forall_map. exact IH.
  - cbn [tokens_of]. apply separated_cons; [reflexivity |].
    apply separated_sep_items; [| reflexivity].
    apply List.Forall_map. eapply List.Forall_impl; [| exact IH].
    intros kv Hkv. apply separated_cons; [reflexivity |].
    apply separated_cons; [reflexivity | exact Hkv].
Qed.

Lemma lex_dumps (v : json) : lex_from 0 (dumps v) = Some (tokens_of v).
Proof. apply lex_render_all, separated_tokens_of. Qed.

End RefJsonTokens.

Section RefJsonParser.
Import PyStr RefJson.

Lemma tokens_of_head (v : json) :
  exists t ts, tokens_of v = t :: ts /\ t <> TRBrack.
Proof.
  destruct v as [|[]|z|s|l|d]; cbn [tokens_of]; eexists _, _; split;
    try reflexivity; discriminate.
Qed.

Lemma parse_array_step (f : nat) (t : token) (r : list token) :
  t <> TRBrack ->
  parse_value (S f) (TLBrack :: t :: r)
  = match parse_value f (t :: r) with
    | Some (v, r1) =>
        match parse_elems f r1 with
        | Some (vs, r2) => Some (JArr (v :: vs), r2)
        | None => None
        end
    | None => None
    end.
Proof. intros Ht. destruct t; try reflexivity. contradiction. Qed.

Lemma parse_elems_items (xs : list json) :
  Forall parses xs -> Forall json_wf xs ->
  forall f rest,
    (length (concat (map (fun y => TComma :: y) (map tokens_of xs))) < f)%nat ->
    parse_elems f (concat (map (fun y => TComma :: y) (map tokens_of xs))
                   ++ TRBrack :: rest)
    = Some (xs, rest).
Proof.
  induction 1 as [|x xs Hx _ IH]; intros Hwf f rest Hf.
  - destruct f as [|f]; [simpl in Hf; lia | reflexivity].
  - apply Forall_cons in Hwf as [Hwfx Hwf].
    cbn [map concat] in *. rewrite length_app in Hf. cbn [length] in Hf.
    destruct f as [|f]; [lia |].
    rewrite <- app_assoc. cbn [app parse_elems].
    rewrite (Hx Hwfx) by lia. rewrite (IH Hwf) by lia. reflexivity.
Qed.

Lemma parse_members_items (d : list (string * json)) :
  Forall (fun kv => parses (snd kv)) d ->
  Forall (fun kv => json_wf (snd kv)) d ->
  forall f rest,
    (length (concat (map (fun y => TComma :: y)
                       (map (fun kv => TStr (fst kv) :: TColon :: tokens_of (snd kv)) d)))
     < f)%nat ->
    parse_members f
      (concat (map (fun y => TComma :: y)
                 (map (fun kv => TStr (fst kv) :: TColon :: tokens_of (snd kv)) d))
       ++ TRBrace :: rest)
    = Some (d, rest).
Proof.
  induction 1 as [|[k v] d Hv _ IH]; intros Hwf f rest Hf.
  - destruct f as [|f]; [simpl in Hf; lia | reflexivity].
  - apply Forall_cons in Hwf as [Hwfv Hwf]. cbn [fst snd] in *.
    cbn [map concat fst snd] in *. rewrite length_app in Hf. cbn [length] in Hf.
    destruct f as [|f]; [lia |].
    rewrite <- app_assoc. cbn [app parse_members].
    rewrite (Hv Hwfv) by lia. rewrite (IH Hwf) by lia. reflexivity.
Qed.

Lemma build_object_acc (l acc : list (string * json)) :
  NoDup (map fst acc ++ map fst l) ->
  List.fold_left (fun d kv => Dict.set (fst kv) (snd kv) d) l acc = acc ++ l.
Proof.
  revert acc. induction l as [|[k v] l IH]; intros acc Hnd.
  - now rewrite app_nil_r.
  - cbn [List.fold_left fst snd].
    rewrite dict_set_fresh.
    + rewrite IH; [now rewrite <- app_assoc |].
      rewrite map_app. cbn [map fst]. rewrite <- app_assoc. exact Hnd.
    + intros Hin. apply NoDup_app in Hnd as (_ & Hdisj & _).
      apply (Hdisj _ Hin). left.
Qed.

Lemma build_object_nodup (l : list (string * json)) :
  NoDup (map fst l) -> build_object l = l.
Proof. intros H. unfold build_object. now rewrite build_object_acc. Qed.

Lemma parse_tokens_of (v : json) : parses v.
Proof.
  induction v as [|b|z|s|l IH|d IH] using json_ind_nested; intros Hwf fuel rest Hfuel.
  - destruct fuel; [simpl in Hfuel; lia | reflexivity].
  - destruct fuel; [destruct b; simpl in Hfuel; lia | destruct b; reflexivity].
  - destruct fuel; [simpl in Hfuel; lia | reflexivity].
  - destruct fuel; [simpl in Hfuel; lia | reflexivity].
  - apply json_wf_arr in Hwf.
    destruct IH as [|x xs Hx Hxs].
    + destruct fuel; [simpl in Hfuel; lia | reflexivity].
    + apply Forall_cons in Hwf as [Hwfx Hwf].
      cbn [tokens_of map sep_items] in *.
      cbn [length] in Hfuel. rewrite !length_app in Hfuel. cbn [length] in Hfuel.
      destruct fuel as [|f]; [lia |].
      cbn [app]. rewrite <- !app_assoc. cbn [app].
      destruct (tokens_of_head x) as (t & tx & Htx & Ht).
      rewrite Htx. cbn [app]. rewrite (parse_array_step f t _ Ht).
      change (t :: tx ++ ?r) with ((t :: tx) ++ r). rewrite <- Htx.
      rewrite (Hx Hwfx) by lia.
      rewrite (parse_elems_items xs Hxs Hwf) by lia. reflexivity.
  - apply json_wf_obj in Hwf as [Hnd Hwf].
    destruct IH as [|[k v] d Hv Hd].
    + destruct fuel; [simpl in Hfuel; lia | reflexivity].
    + apply Forall_cons in Hwf as [Hwfv Hwf]. cbn [fst snd] in *.
      cbn [tokens_of map sep_items fst snd] in *.
      cbn [length] in Hfuel. rewrite !length_app in Hfuel. cbn [length] in Hfuel.
      destruct fuel as [|f]; [lia |].
      cbn [app]. rewrite <- !app_assoc. cbn [app parse_value].
      rewrite (Hv Hwfv) by lia.
      rewrite (parse_members_items d Hd Hwf) by lia.
      now rewrite build_object_nodup.
Qed.

Lemma ref_loads_dumps (v : json) : json_wf v -> loads (dumps v) = Some v.
Proof.
  intros Hwf. unfold loads. rewrite lex_dumps.
  rewrite <- (app_nil_r (tokens_of v)) at 2.
  rewrite (parse_tokens_of v Hwf) by lia. reflexivity.
Qed.

End RefJsonParser.

Section RefJsonWf.
Import PyStr RefJson.

Lemma dict_set_key_in {V} (x k : string) (v : V) (d : Dict.t V) :
  x ∈ map fst (Dict.set k v d) -> x = k \/ x ∈ map fst d.
Proof.
  induction d as [|[k0 v0] d IH]; simpl.
  - intros H%list_elem_of_singleton. now left.
  - destruct (String.eqb_spec k k0) as [->|Hne]; simpl.
    + intros H. now right.
    + intros [->|H]%elem_of_cons; [right; left |].
      destruct (IH H) as [->|Hin]; [now left | right; now right].
Qed.

Lemma dict_set_nodup {V} (k : string) (v : V) (d : Dict.t V) :
  NoDup (map fst d) -> NoDup (map fst (Dict.set k v d)).
Proof.
  induction d as [|[k0 v0] d IH]; simpl.
  - intros _. apply NoDup_singleton.
  - intros [Hnotin Hnd]%NoDup_cons.
    destruct (String.eqb_spec k k0) as [->|Hne]; simpl.
    + now apply NoDup_cons.
    + apply NoDup_cons. split; [| now apply IH].
      intros [->|Hin]%dict_set_key_in; [congruence | contradiction].
Qed.

Lemma build_object_wf (l : list (string * json)) :
  Forall (fun kv => json_wf (snd kv)) l -> json_wf (JObj (build_object l)).
Proof.
  intros Hl. apply json_wf_obj. unfold build_object.
  assert (H : forall acc,
            NoDup (map fst acc) /\ Forall (fun kv => json_wf (snd kv)) acc ->
            NoDup (map fst (List.fold_left
                              (fun d kv => Dict.set (fst kv) (snd kv) d) l acc))
            /\ Forall (fun kv => json_wf (snd kv))
                 (List.fold_left (fun d kv => Dict.set (fst kv) (snd kv) d) l acc)).
  { induction Hl as [|[k v] l Hv _ IH]; intros acc [Hnd Hall]; [auto |].
    cbn [List.fold_left fst snd]. apply IH. split.
    - now apply dict_set_nodup.
    - now apply dict_set_Forall. }
  apply H. split; constructor.
Qed.

Ltac break_match H :=
  repeat match type of H with
         | match ?x with _ => _ end = Some _ => destruct x eqn:?; try discriminate H
         end.

Lemma parse_wf (f : nat) :
  (forall ts v r, parse_value f ts = Some (v, r) -> json_wf v)
  /\ (forall ts vs r, parse_elems f ts = Some (vs, r) -> Forall json_wf vs)
  /\ (forall ts kvs r, parse_members f ts = Some (kvs, r) ->
        Forall (fun kv => json_wf (snd kv)) kvs).
Proof.
  induction f as [|f (IHv & IHe & IHm)]; [repeat split; discriminate |].
  split; [| split].
  - intros ts v r H. cbn [parse_value] in H. break_match H;
      injection H as <- <-;
      first [ exact I
            | apply json_wf_obj; split; constructor
            | apply json_wf_arr; constructor; eauto
            | apply build_object_wf; constructor; [simpl |]; eauto ].
  - intros ts vs r H. cbn [parse_elems] in H. break_match H;
      injection H as <- <-; constructor; eauto.
  - intros ts kvs r H. cbn [parse_members] in H. break_match H;
      injection H as <- <-; constructor; [simpl |]; eauto.
Qed.

Lemma ref_loads_wf (s : string) (v : json) : loads s = Some v -> json_wf v.
Proof.
  unfold loads. intros H.
  destruct (lex_from 0 s) as [ts|]; [| discriminate].
  destruct (parse_value (S (length ts)) ts) as [[v' r]|] eqn:E; [| discriminate].
  destruct r; [| discriminate]. injection H as <-.
  eapply (proj1 (parse_wf _)); exact E.
Qed.

End RefJsonWf.

Section RefJsonOneLine.
Import PyStr RefJson.

Ltac each_char c := destruct c as [[] [] [] [] [] [] [] []].

Lemma digit_not_newline (c : ascii) : is_digit c = true -> not_newline c = true.
Proof. each_char c; intros H; try discriminate H; reflexivity. Qed.

Lemma digit_not_space (c : ascii) : is_digit c = true -> is_space c = false.
Proof. each_char c; intros H; try discriminate H; reflexivity. Qed.

Lemma all_chars_impl (p q : ascii -> bool) (s : string) :
  (forall c, p c = true -> q c = true) -> all_chars p s = true -> all_chars q s = true.
Proof.
  intros Hpq. induction s as [|c s IH]; [reflexivity |].
  simpl. intros H. apply andb_true_iff in H as [Hc Hs]. now rewrite (Hpq c Hc), IH.
Qed.

Lemma print_int_clean (z : Z) : all_chars not_newline (print_int z) = true.
Proof.
  assert (H : forall n, all_chars not_newline (print_nat n) = true).
  { intros n. apply (all_chars_impl is_digit); [apply digit_not_newline |].
    apply print_nat_digits. }
  destruct z; simpl; auto.
Qed.

Lemma render_clean (t : token) : all_chars not_newline (render t) = true.
Proof.
  destruct t; try reflexivity.
  - apply print_int_clean.
  - cbn [render all_chars]. rewrite all_chars_app, escape_clean. reflexivity.
Qed.

Lemma render_all_clean (ts : list token) : all_chars not_newline (render_all ts) = true.
Proof.
  induction ts as [|t ts IH]; [reflexivity |].
  cbn [render_all]. now rewrite all_chars_app, render_clean, IH.
Qed.

Lemma render_all_app (a b : list token) :
  render_all (a ++ b) = render_all a +:+ render_all b.
Proof.
  induction a as [|t a IH]; [reflexivity |].
  cbn [app render_all]. now rewrite IH, sapp_assoc.
Qed.

(** A non-empty string has a last character. *)
Lemma string_last (p : ascii -> bool) (s : string) :
  s <> "" -> all_chars p s = true ->
  exists body c, s = body +:+ String c "" /\ p c = true.
Proof.
  induction s as [|a s IH]; [congruence |]. intros _ H.
  simpl in H. apply andb_true_iff in H as [Ha Hs].
  destruct s as [|b s'].
  - exists "", a. split; [reflexivity | exact Ha].
  - destruct (IH ltac:(discriminate) Hs) as (body & c & -> & Hc).
    exists (String a body), c. split; [reflexivity | exact Hc].
Qed.

Lemma render_opens (t : token) :
  opens_value t -> exists c rest, render t = String c rest /\ is_space c = false.
Proof.
  destruct t; simpl; try contradiction; intros _;
    try (eexists _, _; split; reflexivity).
  destruct z as [|p|p].
  - eexists _, _; split; reflexivity.
  - pose proof (print_nat_digits (Npos p)) as Hd.
    cbn [print_int Z.to_N].
    destruct (print_nat (Npos p)) as [|c ds] eqn:E; [now apply print_nat_nonempty in E |].
    simpl in Hd. apply andb_true_iff in Hd as [Hc _].
    exists c, ds. split; [reflexivity | now apply digit_not_space].
  - eexists _, _; split; reflexivity.
Qed.

Lemma render_closes (t : token) :
  closes_value t -> exists body c, render t = body +:+ String c "" /\ is_space c = false.
Proof.
  destruct t; simpl; try contradiction; intros _.
  - exists "", "}"%char. split; reflexivity.
  - exists "", "]"%char. split; reflexivity.
  - exists "nul", "l"%char. split; reflexivity.
  - exists "tru", "e"%char. split; reflexivity.
  - exists "fals", "e"%char. split; reflexivity.
  - assert (H : forall n, exists body c,
                print_nat n = body +:+ String c "" /\ is_space c = false).
    { intros n.
      destruct (string_last is_digit (print_nat n) (print_nat_nonempty n)
                  (print_nat_digits n)) as (body & c & Hb & Hc).
      exists body, c. split; [exact Hb | now apply digit_not_space]. }
    destruct z as [|p|p]; cbn [print_int Z.to_N].
    + apply (H 0%N).
    + apply (H (Npos p)).
    + destruct (H (Npos p)) as (body & c & -> & Hc).
      exists (String "-" body), c. split; [reflexivity | exact Hc].
  - exists (String dq (escape s)), dq. split; [| reflexivity].
    now rewrite sapp_cons.
Qed.

Lemma tokens_of_opens (v : json) :
  exists t ts, tokens_of v = t :: ts /\ opens_value t.
Proof.
  destruct v as [|[]|z|s|l|d]; cbn [tokens_of]; eexists _, _; split;
    try reflexivity; exact I.
Qed.

Lemma tokens_of_closes (v : json) :
  exists ts t, tokens_of v = ts ++ [t] /\ closes_value t.
Proof.
  destruct v as [|[]|z|s|l|d]; cbn [tokens_of].
  - exists [], TNull. split; [reflexivity | exact I].
  - exists [], TTrue. split; [reflexivity | exact I].
  - exists [], TFalse. split; [reflexivity | exact I].
  - exists [], (TInt z). split; [reflexivity | exact I].
  - exists [], (TStr s). split; [reflexivity | exact I].
  - exists (TLBrack :: sep_items (map tokens_of l)), TRBrack.
    split; [reflexivity | exact I].
  - eexists (TLBrace :: _), TRBrace. split; [reflexivity | exact I].
Qed.

Lemma rstrip_keep (body : string) (c : ascii) :
  is_space c = false -> rstrip (body +:+ String c "") = body +:+ String c "".
Proof.
  intros Hc. induction body as [|a body IH].
  - rewrite sapp_nil_l. simpl. now rewrite Hc.
  - rewrite sapp_cons, rstrip_cons, IH.
    destruct (body +:+ String c "") eqn:E; [| reflexivity].
    apply (f_equal String.length) in E. rewrite slength_app in E. simpl in E. lia.
Qed.

Lemma ref_dumps_one_line (v : json) : one_line (dumps v).
Proof.
  unfold dumps.
  destruct (tokens_of_opens v) as (t & ts & Ht & Hopen).
  destruct (tokens_of_closes v) as (ts' & t' & Ht' & Hclose).
  destruct (render_opens t Hopen) as (c & rest & Hc & Hspace).
  destruct (render_closes t' Hclose) as (body & c' & Hc' & Hspace').
  assert (Hfirst : render_all (tokens_of v) = String c (rest +:+ render_all ts)).
  { rewrite Ht. cbn [render_all]. now rewrite Hc, sapp_cons. }
  assert (Hlast : render_all (tokens_of v)
                  = (render_all ts' +:+ body) +:+ String c' "").
  { rewrite Ht', render_all_app. cbn [render_all].
    now rewrite sapp_nil_r, Hc', sapp_assoc. }
  split; [| split].
  - rewrite Hfirst. discriminate.
  - unfold strip. rewrite Hlast, rstrip_keep by exact Hspace'.
    rewrite <- Hlast, Hfirst. simpl. now rewrite Hspace.
  - apply render_all_clean.
Qed.

End RefJsonOneLine.

(** The reference codec obeys the laws of the interface. *)
Lemma ref_codec_laws : CodecLaws RefJson.codec.
Proof.
  split.
  - exact ref_loads_wf.
  - exact ref_loads_dumps.
  - intros d _. apply ref_dumps_one_line.
Qed.

Lemma cdn_mapping_stable : stable_mapping cdn_mapping.
Proof.
  intros k url url' H1 H2. unfold cdn_mapping in H1. simpl in H1.
  destruct (String.eqb k "a.mp4"); [| discriminate].
  injection H1 as <-. vm_compute in H2. now injection H2.
Qed.

Lemma manifest_rewrite_idempotent_witness :
  files_after_twice RefJson.codec demo_manifest cdn_mapping manifest_with_bad_line
  = files_after_once RefJson.codec demo_manifest cdn_mapping manifest_with_bad_line.
Proof.
  exact (manifest_rewrite_idempotent RefJson.codec cdn_mapping demo_manifest
           manifest_with_bad_line ref_codec_laws cdn_mapping_stable).
Defined.

Lemma refresher_path_reextraction_witness :
  exists cos_paths,
    Refresher.extract_cos_paths_from_mapping RefJson.codec refresher_world
    = (Ok cos_paths, refresher_world)
    /\ Dict.get "a.mp4" cos_paths = Some "hunyuanvideo-foley_demo/demo_show/a.mp4"
    /\ Dict.get "b.mp4" cos_paths = None.
Proof.
  destruct (refresher_path_reextraction RefJson.codec refresher_world
              stored_mapping_text stored_mapping)
    as (cos_paths & Hrun & Hget & _).
  - vm_compute. reflexivity.
  - vm_compute. reflexivity.
  - unfold Dict.wf. apply (bool_decide_unpack _). vm_compute. exact I.
  - exists cos_paths. split; [exact Hrun |].
    split; rewrite Hget; reflexivity.
Defined.

(* ===================================================================== *)
(** * Backups before a rewrite (C1) *)
(* ===================================================================== *)

(** [create_backup] copies an existing file to the path with [.backup]
    appended, and does nothing for a path that does not exist. *)
Lemma create_backup_present (file_path content : string) (w : World) :
  files w !! file_path = Some content ->
  Resolver.create_backup file_path w
  = (Ok (file_path +:+ ".backup"),
     mkWorld (<[file_path +:+ ".backup" := content]> (files w)) (dirs w) (log w)).
Proof.
  intros H. unfold Resolver.create_backup.
  rewrite (bind_run_ok _ _ _ _ _ (path_exists_present _ _ _ H)).
  unfold bind, read_file, write_file, ret. now rewrite H.
Qed.

Lemma create_backup_absent (file_path : string) (w : World) :
  files w !! file_path = None ->
  Resolver.create_backup file_path w = (Ok (file_path +:+ ".backup"), w).
Proof.
  intros H. unfold Resolver.create_backup.
  rewrite (bind_run_ok _ _ _ _ _ (path_exists_absent _ _ H)).
  reflexivity.
Qed.


Section RefresherBackup.
Variable codec : Codec.
Variable signed_urls : Dict.t string.

(** The update pass touches no path but the manifest's, and creates no
    file. *)
Lemma update_jsonl_file_other (jsonl_file other : string) (w : World) :
  other <> jsonl_file ->
  files (snd (Resolver.update_jsonl_file codec jsonl_file signed_urls w)) !! other
  = files w !! other.
Proof.
  intros Hne. rewrite files_after_update.
  destruct (files w !! jsonl_file); [| reflexivity].
  destruct (update_loop_pure _ _ _ _) as [[[outs cnt] ln]|e]; [| reflexivity].
  now rewrite lookup_insert_ne.
Qed.

Lemma update_jsonl_file_dom (jsonl_file : string) (w : World) :
  dom (files (snd (Resolver.update_jsonl_file codec jsonl_file signed_urls w)))
  = dom (files w).
Proof.
  rewrite files_after_update.
  destruct (files w !! jsonl_file) as [content|] eqn:Hfile; [| reflexivity].
  destruct (update_loop_pure _ _ _ _) as [[[outs cnt] ln]|e]; [| reflexivity].
  rewrite dom_insert_L. apply elem_of_dom_2 in Hfile.
  apply set_eq. intros x. rewrite elem_of_union, elem_of_singleton.
  split; [intros [->|]; assumption | now right].
Qed.

(** One turn of the Refresher's loop over the manifests, in a world without
    [<manifest>.signed]: the backup step copies nothing. *)
Lemma refresher_turn (jsonl_file : string) (w : World) :
  files w !! (jsonl_file +:+ ".signed") = None ->
  snd (bind (path_exists jsonl_file)
         (fun ex => if ex
                    then bind (Resolver.create_backup (jsonl_file +:+ ".signed"))
                           (fun _ => bind (Resolver.update_jsonl_file codec jsonl_file
                                             signed_urls)
                                       (fun _ => ret tt))
                    else ret tt) w)
  = if bool_decide (is_Some (files w !! jsonl_file))
    then snd (Resolver.update_jsonl_file codec jsonl_file signed_urls w)
    else w.
Proof.
  intros Hsigned. unfold bind at 1. unfold path_exists.
  destruct (bool_decide (is_Some (files w !! jsonl_file))); [| reflexivity].
  rewrite (bind_run_ok _ _ _ _ _ (create_backup_absent _ _ Hsigned)).
  unfold bind, ret.
  now destruct (Resolver.update_jsonl_file codec jsonl_file signed_urls w) as [[n|e] w'].
Qed.

Lemma for_each_invariant {A S} (P : World -> Prop) (l : list A)
    (body : S -> A -> M S) :
  (forall s x w, In x l -> P w -> P (snd (body s x w))) ->
  forall s w, P w -> P (snd (for_each l body s w)).
Proof.
  induction l as [|x l IH]; intros Hstep s w Hw; [exact Hw |].
  cbn [for_each]. unfold bind.
  pose proof (Hstep s x w (or_introl eq_refl) Hw) as Hx.
  destruct (body s x w) as [[s'|e] w']; [| exact Hx].
  apply IH; [| exact Hx]. intros s0 y w0 Hy. apply Hstep. now right.
Qed.

(** In a world where no [<manifest>.signed] exists, the Refresher's update
    of the manifests creates no file at all: whatever it rewrites, no copy
    of the earlier content is kept anywhere. *)
Lemma refresher_creates_no_file (w : World) :
  (forall g, In g Resolver.JSONL_FILES -> files w !! (g +:+ ".signed") = None) ->
  dom (files (snd (Refresher.update_jsonl_files_with_signed_urls codec signed_urls w)))
  = dom (files w).
Proof.
  intros Hsigned. unfold Refresher.update_jsonl_files_with_signed_urls.
  set (P := fun w' : World =>
              dom (files w') = dom (files w)
              /\ forall g, In g Resolver.JSONL_FILES ->
                   files w' !! (g +:+ ".signed") = None).
  assert (HP : P (snd (for_each Resolver.JSONL_FILES
                         (fun (_ : unit) jsonl_file =>
                            bind (path_exists jsonl_file)
                              (fun ex =>
                                 if ex
                                 then bind (Resolver.create_backup
                                              (jsonl_file +:+ ".signed"))
                                        (fun _ =>
                                           bind (Resolver.update_jsonl_file codec
                                                   jsonl_file signed_urls)
                                             (fun _ => ret tt))
                                 else ret tt))
                         tt w))).
  { apply for_each_invariant; [| split; [reflexivity | exact Hsigned]].
    intros [] f w' Hf [Hdom Habs].
    rewrite (refresher_turn f w' (Habs f Hf)).
    destruct (bool_decide (is_Some (files w' !! f))); [| split; assumption].
    split.
    - now rewrite update_jsonl_file_dom.
    - intros g Hg. rewrite update_jsonl_file_other; [now apply Habs |].
      simpl in Hf, Hg.
      destruct Hf as [<-|[<-|[<-|[]]]]; destruct Hg as [<-|[<-|[<-|[]]]];
        discriminate. }
  unfold bind at 1.
  destruct (for_each _ _ _ _) as [[[]|e] w']; apply HP.
Qed.

End RefresherBackup.

(** C1, the code at the failing input.  The manifest exists and is
    rewritten by [update_jsonl_files_with_signed_urls], yet afterwards the
    rewritten manifest is the only file: the Refresher asked
    [create_backup] to copy [<manifest>.signed], which does not exist, so no
    copy of the manifest's earlier content was made (in general, see
    [refresher_creates_no_file]).  The Resolver's own sequence,
    [create_backup] on the manifest and then the update, leaves that
    content in [<manifest>.backup]. *)
Theorem refresher_writes_no_backup :
  Refresher.update_jsonl_files_with_signed_urls RefJson.codec signed_mapping
    one_video_manifest
  = (Ok tt,
     mkWorld {[ demo_manifest :=
                  PyStr.write_lines
                    [video_line
                       "https://signed.example/hunyuanvideo-foley_demo/demo_show/a.mp4?sign=k"] ]}
             ∅ [])
  /\ files one_video_manifest !! demo_manifest
     = Some (PyStr.write_lines [video_line "videos/a.mp4"])
  /\ files
       (snd (bind (Resolver.create_backup demo_manifest)
               (fun _ => Resolver.update_jsonl_file RefJson.codec demo_manifest
                           signed_mapping)
               one_video_manifest))
     = {[ demo_manifest :=
            PyStr.write_lines
              [video_line
                 "https://signed.example/hunyuanvideo-foley_demo/demo_show/a.mp4?sign=k"];
          demo_manifest +:+ ".backup" := PyStr.write_lines [video_line "videos/a.mp4"] ]}.
Proof. repeat split; vm_compute; reflexivity. Qed.

(* ===================================================================== *)
(** * The Manifest Builder: ordering of ties, captions, model keys *)
(* ===================================================================== *)

Section SortStability.
Import Builder.

Lemma key_lt_irrefl (a : option Z) : key_lt a a = false.
Proof. destruct a; simpl; [apply Z.ltb_irrefl | reflexivity]. Qed.

Lemma insert_sorted_filter (k : option Z) (x : string) (l : list string) :
  List.filter (has_key k) (insert_sorted x l) = List.filter (has_key k) (x :: l).
Proof.
  induction l as [|y l IH]; [reflexivity |].
  cbn [insert_sorted].
  destruct (key_lt (sort_key y) (sort_key x)) eqn:Hlt; [| reflexivity].
  cbn [List.filter] in *. rewrite IH.
  destruct (has_key k x) eqn:Hx; [| reflexivity].
  destruct (has_key k y) eqn:Hy; [| reflexivity].
  unfold has_key in Hx, Hy.
  apply bool_decide_eq_true in Hx. apply bool_decide_eq_true in Hy.
  rewrite Hx, Hy, key_lt_irrefl in Hlt. discriminate.
Qed.

Lemma sorted_ids_filter (k : option Z) (ids : list string) :
  List.filter (has_key k) (sorted_ids ids) = List.filter (has_key k) ids.
Proof.
  induction ids as [|x ids IH]; [reflexivity |].
  change (sorted_ids (x :: ids)) with (insert_sorted x (sorted_ids ids)).
  rewrite insert_sorted_filter. cbn [List.filter]. now rewrite IH.
Qed.

End SortStability.

(** X1. The sort of the video ids is stable: ids with the same sort key
    leave the sort in the order they entered it.  In particular the ids
    that are not all digits, which share the key infinity, keep their
    grouping order. *)
Theorem sorted_ids_stable (ids : list string) :
  (forall k, List.filter (has_key k) (Builder.sorted_ids ids)
             = List.filter (has_key k) ids)
  /\ List.filter (fun x => negb (PyStr.isdigit x)) (Builder.sorted_ids ids)
     = List.filter (fun x => negb (PyStr.isdigit x)) ids.
Proof.
  split; [intros k; apply sorted_ids_filter |].
  assert (Hext : forall l, List.filter (fun x => negb (PyStr.isdigit x)) l
                           = List.filter (has_key None) l).
  { intros l. apply List.filter_ext. intros x. unfold has_key, Builder.sort_key.
    destruct (PyStr.isdigit x); cbn [negb]; symmetry.
    - apply bool_decide_eq_false_2. discriminate.
    - now apply bool_decide_eq_true_2. }
  rewrite !Hext. apply sorted_ids_filter.
Qed.

Section CaptionBounds.
Import Builder.

Lemma skipn_exact {A} (pre rest : list A) (n : nat) :
  length pre = n -> List.skipn n (pre ++ rest) = rest.
Proof.
  intros <-. induction pre as [|x pre IH]; [reflexivity | exact IH].
Qed.

End CaptionBounds.

(** X2. The caption lookup starts at row index 64: the rows 0..63 of the
    CSV data never influence the result, and CSV data of at most 64 rows
    gives the empty caption and the warning for every id, whatever the id
    is. *)
Theorem caption_lookup_skips_leading_rows
    (pre pre' rest : list Builder.row) (video_id : string) (w : World) :
  length pre = 64%nat -> length pre' = 64%nat ->
  Builder.get_prompt_from_csv (pre ++ rest) video_id w
  = Builder.get_prompt_from_csv (pre' ++ rest) video_id w
  /\ (forall csv_data, (length csv_data <= 64)%nat ->
        Builder.get_prompt_from_csv csv_data video_id w
        = (Ok "", logged w [WarnNoCaption video_id])).
Proof.
  intros Hpre Hpre'. split.
  - unfold Builder.get_prompt_from_csv, Builder.CSV_START.
    now rewrite !skipn_exact.
  - intros csv_data Hlen.
    unfold Builder.get_prompt_from_csv, Builder.CSV_START.
    rewrite List.skipn_all2 by exact Hlen. reflexivity.
Qed.

Lemma caption_lookup_skips_leading_rows_witness :
  Builder.get_prompt_from_csv
    (List.repeat [("video", "v/5.mp4"); ("SoundCaption", "rain")] 64
     ++ [[("video", "v/5.mp4"); ("SoundCaption", "dog barking")]])
    "5" Fake.empty_world
  = Builder.get_prompt_from_csv
      (List.repeat [("video", "v/not-a-number.mp4")] 64
       ++ [[("video", "v/5.mp4"); ("SoundCaption", "dog barking")]])
      "5" Fake.empty_world
  /\ Builder.get_prompt_from_csv
       (List.repeat [("video", "v/5.mp4"); ("SoundCaption", "rain")] 64)
       "not-a-number" Fake.empty_world
     = (Ok "", logged Fake.empty_world [WarnNoCaption "not-a-number"]).
Proof.
  split.
  - apply (caption_lookup_skips_leading_rows
             (List.repeat [("video", "v/5.mp4"); ("SoundCaption", "rain")] 64)
             (List.repeat [("video", "v/not-a-number.mp4")] 64)
             [[("video", "v/5.mp4"); ("SoundCaption", "dog barking")]]
             "5" Fake.empty_world); reflexivity.
  - apply (caption_lookup_skips_leading_rows
             (List.repeat [] 64) (List.repeat [] 64) [] "not-a-number"
             Fake.empty_world); [reflexivity | reflexivity | simpl; lia].
Defined.

(* ===================================================================== *)
(** * The answer of the signing tool *)
(* ===================================================================== *)

Section SignedOutput.
Import PyStr.






End SignedOutput.



(* ===================================================================== *)
(** * The Manifest Builder: model keys and groups *)
(* ===================================================================== *)

Section ModelKeys.
Import Builder.

Lemma map_models_fold (models : Dict.t string) :
  map_models models
  = List.fold_left (fun d kv => Dict.set (mapped_name (fst kv)) (snd kv) d) models [].
Proof.
  unfold map_models. generalize ([] : Dict.t string).
  induction models as [|[m p] models IH]; intros acc; [reflexivity |].
  cbn [List.fold_left]. apply IH.
Qed.

Lemma fold_set_nodup (l acc : Dict.t string) :
  Dict.wf acc ->
  Dict.wf (List.fold_left (fun d kv => Dict.set (mapped_name (fst kv)) (snd kv) d) l acc).
Proof.
  revert acc. induction l as [|kv l IH]; intros acc Hacc; [exact Hacc |].
  cbn [List.fold_left]. apply IH. now apply dict_set_nodup.
Qed.



Lemma fold_set_in (key path : string) (l acc : Dict.t string) :
  Dict.get key (List.fold_left (fun d kv => Dict.set (mapped_name (fst kv)) (snd kv) d)
                  l acc) = Some path ->
  (exists model, In (model, path) l /\ mapped_name model = key)
  \/ Dict.get key acc = Some path.
Proof.
  revert acc. induction l as [|[m p] l IH]; intros acc H; [now right |].
  cbn [List.fold_left] in H. apply IH in H as [(model & Hin & Hk) | H].
  - left. exists model. split; [now right | exact Hk].
  - rewrite dict_get_set in H. cbn [fst snd] in H.
    destruct (String.eqb_spec key (mapped_name m)) as [-> |].
    + injection H as <-. left. exists m. split; [now left | reflexivity].
    + now right.
Qed.

Lemma dict_set_nonempty {V} (k : string) (v : V) (d : Dict.t V) : Dict.set k v d <> [].
Proof. destruct d as [|[k0 v0] d]; simpl; [| destruct (String.eqb k k0)]; discriminate. Qed.

Lemma fold_set_nonempty (l acc : Dict.t string) :
  acc <> [] ->
  List.fold_left (fun d kv => Dict.set (mapped_name (fst kv)) (snd kv) d) l acc <> [].
Proof.
  revert acc. induction l as [|kv l IH]; intros acc Hacc; [exact Hacc |].
  cbn [List.fold_left]. apply IH, dict_set_nonempty.
Qed.

Lemma map_models_nonempty (models : Dict.t string) :
  models <> [] -> map_models models <> [].
Proof.
  rewrite map_models_fold. destruct models as [|kv l]; [congruence |].
  intros _. cbn [List.fold_left]. apply fold_set_nonempty, dict_set_nonempty.
Qed.

End ModelKeys.



Section Grouping.
Import Builder.

Lemma add_video_get (groups : Dict.t (Dict.t string)) (vid model path vid' : string) :
  Dict.get vid' (add_video groups vid model path)
  = if String.eqb vid' vid
    then Some (Dict.set model path
                 match Dict.get vid groups with
                 | Some models => models
                 | None => []
                 end)
    else Dict.get vid' groups.
Proof.
  unfold add_video, Dict.mem, Dict.get_default, Dict.t in *.
  destruct (Dict.get vid groups) as [models|] eqn:Hg.
  - rewrite dict_get_set, ?Hg. reflexivity.
  - rewrite !dict_get_set, String.eqb_refl, ?Hg.
    destruct (String.eqb vid' vid); reflexivity.
Qed.

Lemma add_video_wf (groups : Dict.t (Dict.t string)) (vid model path : string) :
  Dict.wf groups -> Dict.wf (add_video groups vid model path).
Proof.
  intros Hwf. unfold add_video.
  destruct (Dict.mem vid groups); repeat apply dict_set_nodup; exact Hwf.
Qed.

Lemma groups_of_step (seen : list string) (groups : Dict.t (Dict.t string))
    (filename : string) :
  groups_of seen groups -> groups_of (seen ++ [filename]) (policy_step groups filename).
Proof.
  intros (Hwf & Hmodels & Hfrom & Hto). unfold policy_step.
  destruct (filename_policy filename) as [[model vid]|] eqn:Hpol.
  - split; [now apply add_video_wf |]. split; [| split].
    + intros vid' models. rewrite add_video_get.
      destruct (String.eqb_spec vid' vid) as [-> | Hne].
      * intros [= <-]. split; [apply dict_set_nonempty |].
        apply dict_set_nodup.
        destruct (Dict.get vid groups) as [ms|] eqn:Hg; [| constructor].
        now apply (Hmodels _ _ Hg).
      * apply Hmodels.
    + intros vid' models model' path'. rewrite add_video_get.
      destruct (String.eqb_spec vid' vid) as [-> | Hne].
      * intros [= <-]. rewrite dict_get_set.
        destruct (String.eqb_spec model' model) as [-> | Hm].
        -- intros [= <-]. exists filename.
           split; [apply in_or_app; right; now left | now split].
        -- destruct (Dict.get vid groups) as [ms|] eqn:Hg; [| discriminate].
           intros Hget. destruct (Hfrom _ _ _ _ Hg Hget) as (f & Hin & Hf).
           exists f. split; [apply in_or_app; now left | exact Hf].
      * intros Hg Hget. destruct (Hfrom _ _ _ _ Hg Hget) as (f & Hin & Hf).
        exists f. split; [apply in_or_app; now left | exact Hf].
    + intros f model' vid' Hin Hf.
      assert (Hcase : (model', vid') = (model, vid) \/
                      (In f seen /\ (model', vid') <> (model, vid))).
      { apply in_app_or in Hin as [Hin | [<- | []]].
        - destruct (String.eqb_spec model' model) as [-> |];
            [destruct (String.eqb_spec vid' vid) as [-> |] |];
            [now left | right; split; [exact Hin | congruence] ..].
        - left. congruence. }
      destruct Hcase as [[= -> ->] | [Hin' Hne]].
      * eexists _, _. rewrite add_video_get, String.eqb_refl.
        split; [reflexivity |]. now rewrite dict_get_set, String.eqb_refl.
      * destruct (Hto _ _ _ Hin' Hf) as (ms & p & Hg & Hget).
        rewrite add_video_get.
        destruct (String.eqb_spec vid' vid) as [-> | Hv].
        -- eexists _, p. split; [reflexivity |].
           rewrite Hg, dict_get_set.
           destruct (String.eqb_spec model' model) as [-> |]; [congruence | exact Hget].
        -- now exists ms, p.
  - split; [exact Hwf |]. split; [exact Hmodels |]. split.
    + intros vid models model path Hg Hget.
      destruct (Hfrom _ _ _ _ Hg Hget) as (f & Hin & Hf).
      exists f. split; [apply in_or_app; now left | exact Hf].
    + intros f model vid Hin Hf.
      apply in_app_or in Hin as [Hin | [<- | []]]; [apply (Hto _ _ _ Hin Hf) | congruence].
Qed.

Lemma groups_of_fold (video_files seen : list string) (groups : Dict.t (Dict.t string)) :
  groups_of seen groups ->
  groups_of (seen ++ video_files) (List.fold_left policy_step video_files groups).
Proof.
  revert seen groups. induction video_files as [|f fs IH]; intros seen groups H.
  - now rewrite app_nil_r.
  - cbn [List.fold_left].
    replace (seen ++ f :: fs) with ((seen ++ [f]) ++ fs) by now rewrite <- app_assoc.
    apply IH, groups_of_step, H.
Qed.

Lemma groups_of_scan (video_files : list string) :
  groups_of video_files (List.fold_left policy_step video_files []).
Proof.
  apply (groups_of_fold video_files []).
  split; [constructor |]. split; [discriminate |]. split; [discriminate |].
  intros f model vid [].
Qed.

End Grouping.

(** X5. The groups the Manifest Builder extracts from the video directory:
    the call always returns and leaves the world as it is; every id occurs
    once; the group of an id is not empty and holds every label once; a
    path stored for (id, label) is [videos/demo_show/] followed by the name
    of a scanned file the filename policy places at (label, id); and every
    scanned file the policy places has its id and label in the groups.  So
    files of different models that share an id end up in one group. *)
Theorem extracted_groups (w : World) :
  exists groups,
    Builder.extract_video_ids_and_models w = (Ok groups, w)
    /\ Dict.wf groups
    /\ (forall vid models, Dict.get vid groups = Some models ->
          models <> [] /\ Dict.wf models)
    /\ (forall vid models model path,
          Dict.get vid groups = Some models -> Dict.get model models = Some path ->
          exists f, In f (scanned_files w) /\ filename_policy f = Some (model, vid)
                    /\ path = "videos/demo_show/" +:+ f)
    /\ (forall f model vid,
          In f (scanned_files w) -> filename_policy f = Some (model, vid) ->
          exists models path,
            Dict.get vid groups = Some models /\ Dict.get model models = Some path).
Proof.
  exists (List.fold_left policy_step (scanned_files w) []).
  split; [apply extract_video_ids_and_models_run |].
  exact (groups_of_scan (scanned_files w)).
Qed.

Lemma extracted_groups_witness :
  exists groups,
    Builder.extract_video_ids_and_models comparison_world = (Ok groups, comparison_world)
    /\ exists models path,
         Dict.get "5" groups = Some models /\ Dict.get "HIFI-Foley" models = Some path.
Proof.
  destruct (extracted_groups comparison_world) as (groups & Hrun & _ & _ & _ & Hto).
  exists groups. split; [exact Hrun |].
  apply (Hto "Ours__128d_200k__5.mp4" "HIFI-Foley" "5").
  - vm_compute. tauto.
  - reflexivity.
Defined.

Section Entries.
Import Builder.

Lemma generate_model_comparison_jsonl_run
    (codec : Codec) (reader : string -> list row) (w w' : World) (entries : list entry) :
  generate_model_comparison_jsonl codec reader w = (Ok entries, w') ->
  exists csv_data w2,
    build_entries csv_data (List.fold_left policy_step (scanned_files w) []) 0
      (sorted_ids (Dict.keys (List.fold_left policy_step (scanned_files w) []))) w
    = (Ok entries, w2)
    /\ w' = mkWorld (<[OUTPUT_PATH :=
                         PyStr.write_lines (map (fun e => dumps codec (entry_json e)) entries)]>
                       (files w2))
                    (dirs w2) (log w2).
Proof.
  intros H. unfold generate_model_comparison_jsonl in H.
  apply bind_ok in H as (csv_data & w1 & Hcsv & H).
  assert (w1 = w) as ->.
  { unfold read_csv_data in Hcsv.
    apply bind_ok in Hcsv as (c & w2 & Hread & Hret).
    unfold read_file in Hread. destruct (files w !! CSV_PATH); [| discriminate].
    injection Hread as _ <-. now injection Hret as _ <-. }
  rewrite (bind_run_ok _ _ _ _ _ (extract_video_ids_and_models_run w)) in H.
  cbv zeta in H.
  apply bind_ok in H as (es & w2 & Hes & H).
  apply bind_ok in H as ([] & w3 & Hwrite & H).
  injection H as <- <-.
  exists csv_data, w2. split; [exact Hes |].
  unfold write_file in Hwrite. now injection Hwrite as <-.
Qed.

Lemma build_entries_videos (csv_data : list row) (groups : Dict.t (Dict.t string))
    (ids : list string) :
  forall idx w w' entries,
    build_entries csv_data groups idx ids w = (Ok entries, w') ->
    Forall (fun e => videos e = map_models (Dict.get_default (entry_video_id e) [] groups))
      entries.
Proof.
  induction ids as [|vid ids IH]; intros idx w w' entries H.
  - injection H as <- _. constructor.
  - cbn [build_entries] in H.
    apply bind_ok in H as (p & w1 & _ & H).
    apply bind_ok in H as (es & w2 & Hes & H).
    injection H as <- _.
    constructor; [reflexivity | exact (IH _ _ _ _ Hes)].
Qed.

Lemma dict_in_get {V} (k : string) (v : V) (d : Dict.t V) :
  Dict.wf d -> In (k, v) d -> Dict.get k d = Some v.
Proof.
  induction d as [|[k0 v0] d IH]; intros Hwf Hin; [destruct Hin |].
  change (Dict.keys ((k0, v0) :: d)) with (k0 :: Dict.keys d) in Hwf.
  unfold Dict.wf in Hwf. change (Dict.keys ((k0, v0) :: d)) with (k0 :: Dict.keys d) in Hwf.
  apply NoDup_cons in Hwf as [Hk0 Hwf].
  simpl. destruct Hin as [[= -> ->] | Hin].
  - now rewrite String.eqb_refl.
  - destruct (String.eqb_spec k k0) as [-> |]; [| now apply IH].
    exfalso. apply Hk0. apply list_elem_of_In.
    change (In k0 (map fst d)). now apply (in_map fst _ (k0, v)).
Qed.

Lemma dict_get_key {V} (k : string) (v : V) (d : Dict.t V) :
  Dict.get k d = Some v -> In k (Dict.keys d).
Proof. intros H. apply dict_get_in in H. now apply (in_map fst _ (k, v)). Qed.

Lemma fold_set_some (key : string) (l acc : Dict.t string) :
  is_Some (Dict.get key acc) \/ Exists (fun kv => mapped_name (fst kv) = key) l ->
  is_Some (Dict.get key
             (List.fold_left (fun d kv => Dict.set (mapped_name (fst kv)) (snd kv) d)
                l acc)).
Proof.
  revert acc. induction l as [|kv l IH]; intros acc H.
  - destruct H as [H | H]; [exact H | inversion H].
  - cbn [List.fold_left]. apply IH.
    rewrite dict_get_set.
    destruct (String.eqb_spec key (mapped_name (fst kv))) as [-> | Hne]; [left; eauto |].
    destruct H as [H | H]; [now left |].
    apply Exists_cons in H as [H | H]; [now symmetry in H | now right].
Qed.

End Entries.

(** X6. The entries the Manifest Builder returns, when it completes: no id
    occurs in two entries; the [videos] of an entry are not empty and their
    keys are unique; every path of an entry is [videos/demo_show/] followed
    by the name of a scanned file that the filename policy places at the
    entry's id, under the mapped name of its label; and every scanned file
    the policy places at (label, id) has the mapped label as a key of the
    entry of that id. *)
Theorem builder_entries_videos
    (codec : Codec) (reader : string -> list Builder.row)
    (w w' : World) (entries : list Builder.entry) :
  Builder.generate_model_comparison_jsonl codec reader w = (Ok entries, w') ->
  NoDup (map Builder.entry_video_id entries)
  /\ (forall e, In e entries ->
        Builder.videos e <> [] /\ Dict.wf (Builder.videos e)
        /\ forall key path, Dict.get key (Builder.videos e) = Some path ->
             exists f model,
               In f (scanned_files w)
               /\ filename_policy f = Some (model, Builder.entry_video_id e)
               /\ mapped_name model = key
               /\ path = "videos/demo_show/" +:+ f)
  /\ (forall f model vid,
        In f (scanned_files w) -> filename_policy f = Some (model, vid) ->
        exists e, In e entries /\ Builder.entry_video_id e = vid
                  /\ Dict.mem (mapped_name model) (Builder.videos e) = true).
Proof.
  intros H. apply generate_model_comparison_jsonl_run in H as (csv & w2 & Hes & _).
  destruct (build_entries_spec _ _ _ _ _ _ _ Hes) as [Hids _].
  pose proof (build_entries_videos _ _ _ _ _ _ _ Hes) as Hvideos.
  rewrite List.Forall_forall in Hvideos.
  destruct (groups_of_scan (scanned_files w)) as (Hwf & Hmodels & Hfrom & Hto).
  set (groups := List.fold_left policy_step (scanned_files w) []) in *.
  assert (Hperm : Permutation (map Builder.entry_video_id entries) (Dict.keys groups)).
  { rewrite Hids. apply sorted_ids_perm. }
  assert (Hgroup : forall e, In e entries ->
            exists models, Dict.get (Builder.entry_video_id e) groups = Some models
                           /\ Builder.videos e = Builder.map_models models).
  { intros e He. rewrite (Hvideos e He).
    destruct (Dict.get (Builder.entry_video_id e) groups) as [models|] eqn:Hg.
    { exists models. split; [reflexivity |].
      unfold Dict.get_default, Dict.t in *. now rewrite Hg. }
    exfalso. assert (Hin : In (Builder.entry_video_id e) (Dict.keys groups)).
    { apply (Permutation_in _ Hperm). now apply in_map. }
    apply in_map_iff in Hin as ([k v] & Hk & Hin). simpl in Hk. subst k.
    apply (dict_in_get _ _ _ Hwf) in Hin. congruence. }
  split; [| split].
  - rewrite Hperm. exact Hwf.
  - intros e He. destruct (Hgroup e He) as (models & Hg & ->).
    destruct (Hmodels _ _ Hg) as [Hne Hwfm].
    split; [now apply map_models_nonempty |].
    rewrite map_models_fold.
    split; [apply fold_set_nodup; constructor |].
    intros key path Hget. apply fold_set_in in Hget as [(model & Hin & Hk) | Hget].
    + apply (dict_in_get _ _ _ Hwfm) in Hin.
      destruct (Hfrom _ _ _ _ Hg Hin) as (f & Hf & Hpol & Hpath).
      now exists f, model.
    + discriminate.
  - intros f model vid Hf Hpol.
    destruct (Hto _ _ _ Hf Hpol) as (models & path & Hg & Hget).
    assert (Hin : In vid (map Builder.entry_video_id entries)).
    { apply (Permutation_in _ (Permutation_sym Hperm)). exact (dict_get_key _ _ _ Hg). }
    apply in_map_iff in Hin as (e & Hid & He).
    exists e. split; [exact He |]. split; [exact Hid |].
    destruct (Hgroup e He) as (models' & Hg' & ->).
    rewrite Hid, Hg in Hg'. injection Hg' as <-.
    rewrite map_models_fold. unfold Dict.mem.
    destruct (fold_set_some (mapped_name model) models []) as [p ->]; [| reflexivity].
    right. apply List.Exists_exists. exists (model, path).
    split; [now apply dict_get_in | reflexivity].
Qed.

Lemma builder_entries_videos_witness :
  NoDup (map Builder.entry_video_id comparison_entries)
  /\ exists e, In e comparison_entries /\ Builder.entry_video_id e = "5"
               /\ Dict.mem (mapped_name "HIFI-Foley") (Builder.videos e) = true.
Proof.
  assert (H : Builder.generate_model_comparison_jsonl RefJson.codec Fake.csv_reader
                comparison_world
              = (Ok comparison_entries,
                 snd (Builder.generate_model_comparison_jsonl RefJson.codec
                        Fake.csv_reader comparison_world))).
  { vm_compute. reflexivity. }
  split.
  - exact (proj1 (builder_entries_videos _ _ _ _ _ H)).
  - apply (proj2 (proj2 (builder_entries_videos _ _ _ _ _ H)) "Ours__128d_200k__5.mp4").
    + vm_compute. tauto.
    + reflexivity.
Defined.

(* ===================================================================== *)
(** * The Resolver: the upload log *)
(* ===================================================================== *)

Section UploadLog.
Variable re_search : string -> string -> option (list string).

Lemma parse_upload_log_run (log_file content : string) (w : World) :
  files w !! log_file = Some content ->
  Resolver.parse_upload_log re_search log_file w
  = (Ok (List.fold_left
           (fun file_mapping line =>
              match upload_of re_search line with
              | Some (name, path) => Dict.set name path file_mapping
              | None => file_mapping
              end)
           (PyStr.file_lines content) []), w).
Proof.
  intros Hfile. unfold Resolver.parse_upload_log.
  rewrite (bind_run_ok _ _ _ _ _ (path_exists_present _ _ _ Hfile)). cbn [negb].
  unfold bind, read_file, ret. rewrite Hfile. f_equal. f_equal.
  generalize ([] : Dict.t string).
  induction (PyStr.file_lines content) as [|line lines IH]; intros acc; [reflexivity |].
  cbn [List.fold_left]. rewrite IH. f_equal.
  unfold upload_of. destruct (re_search _ line); reflexivity.
Qed.

Lemma upload_fold_wf (lines : list string) (acc : Dict.t string) :
  Dict.wf acc ->
  Dict.wf (List.fold_left
             (fun file_mapping line =>
                match upload_of re_search line with
                | Some (name, path) => Dict.set name path file_mapping
                | None => file_mapping
                end) lines acc).
Proof.
  revert acc. induction lines as [|line lines IH]; intros acc Hacc; [exact Hacc |].
  cbn [List.fold_left]. apply IH.
  destruct (upload_of re_search line) as [[name path]|]; [| exact Hacc].
  now apply dict_set_nodup.
Qed.

Lemma upload_fold_other (name : string) (lines : list string) (acc : Dict.t string) :
  Forall (uploads_other re_search name) lines ->
  Dict.get name (List.fold_left
                   (fun file_mapping line =>
                      match upload_of re_search line with
                      | Some (name, path) => Dict.set name path file_mapping
                      | None => file_mapping
                      end) lines acc)
  = Dict.get name acc.
Proof.
  revert acc. induction lines as [|line lines IH]; intros acc Hl; [reflexivity |].
  apply Forall_cons in Hl as [Hline Hl].
  cbn [List.fold_left]. rewrite (IH _ Hl).
  unfold uploads_other in Hline.
  destruct (upload_of re_search line) as [[n p]|]; [| reflexivity].
  rewrite dict_get_set.
  destruct (String.eqb_spec name n) as [-> |]; [| reflexivity].
  now destruct (Hline p).
Qed.

End UploadLog.

(** X7. The mapping read from an existing upload log: the call returns and
    leaves the world as it is; no file name occurs twice; a file name is
    mapped to the remote path of the last line that uploads a file of that
    name, whatever its directory, so of two uploads with the same file name
    the later one wins; a file name no line uploads is absent. *)
Theorem parse_upload_log_last_wins
    (re_search : string -> string -> option (list string))
    (log_file content : string) (w : World) :
  files w !! log_file = Some content ->
  exists file_mapping,
    Resolver.parse_upload_log re_search log_file w = (Ok file_mapping, w)
    /\ Dict.wf file_mapping
    /\ (forall pre line post name path,
          PyStr.file_lines content = pre ++ line :: post ->
          upload_of re_search line = Some (name, path) ->
          Forall (uploads_other re_search name) post ->
          Dict.get name file_mapping = Some path)
    /\ (forall name,
          Forall (uploads_other re_search name) (PyStr.file_lines content) ->
          Dict.get name file_mapping = None).
Proof.
  intros Hfile. eexists. split; [apply (parse_upload_log_run _ _ _ _ Hfile) |].
  split; [apply upload_fold_wf; constructor |]. split.
  - intros pre line post name path -> Hline Hpost.
    rewrite List.fold_left_app. cbn [List.fold_left]. rewrite Hline.
    rewrite (upload_fold_other _ _ _ _ Hpost), dict_get_set, String.eqb_refl.
    reflexivity.
  - intros name Hall. now rewrite (upload_fold_other _ _ _ _ Hall).
Qed.

Lemma parse_upload_log_last_wins_witness :
  exists file_mapping,
    Resolver.parse_upload_log Fake.re_search Resolver.UPLOAD_LOG_FILE colliding_world
    = (Ok file_mapping, colliding_world)
    /\ Dict.get "a.mp4" file_mapping = Some "hunyuanvideo-foley_demo/two/a.mp4".
Proof.
  destruct (parse_upload_log_last_wins Fake.re_search Resolver.UPLOAD_LOG_FILE
              colliding_log colliding_world)
    as (file_mapping & Hrun & _ & Hlast & _); [reflexivity |].
  exists file_mapping. split; [exact Hrun |].
  apply (Hlast
           ["Upload /one/a.mp4 => cos://bucket/hunyuanvideo-foley_demo/one/a.mp4"
            +:+ String PyStr.nl ""]
           ("Upload /two/a.mp4 => cos://bucket/hunyuanvideo-foley_demo/two/a.mp4"
            +:+ String PyStr.nl "")
           []).
  - vm_compute. reflexivity.
  - vm_compute. reflexivity.
  - constructor.
Defined.

(* ===================================================================== *)
(** * The URL mappings of the Resolver and of the Refresher *)
(* ===================================================================== *)

Section UrlLoops.
Import PyStr.
Variable run : list string -> option nat -> run_result.

Lemma nodup_app_cons (a : list string) (x : string) (b : list string) :
  NoDup (a ++ x :: b) -> (x ∉ a) /\ NoDup ((a ++ [x]) ++ b) /\ NoDup (a ++ b).
Proof.
  intros H. split; [| split].
  - intros Hin. apply NoDup_app in H as (_ & Hdisj & _). apply (Hdisj _ Hin). left.
  - now rewrite <- app_assoc.
  - apply NoDup_app in H as (H1 & H2 & H3). apply NoDup_cons in H3 as [_ H3].
    apply NoDup_app. split; [exact H1 |]. split; [| exact H3].
    intros y Hy Hy'. apply (H2 y Hy). now right.
Qed.

Lemma resolver_loop (file_mapping acc : Dict.t string) (w : World) :
  NoDup (Dict.keys acc ++ Dict.keys file_mapping) ->
  for_each file_mapping
    (fun url_mapping '(filename, cos_path) =>
       if endswith ".mp4" filename then
         let signed_url := Resolver.get_cos_signed_url run cos_path in
         if Resolver.truthy signed_url
         then ret (Dict.set filename (default "" signed_url) url_mapping)
         else (emit (WarnUrlFailed filename) ;;; ret url_mapping)%M
       else ret url_mapping)
    acc w
  = (Ok (acc ++ omap (resolved run) file_mapping),
     logged w (omap (unresolved run) file_mapping)).
Proof.
  revert acc w. induction file_mapping as [|[name path] fm IH]; intros acc w Hnd.
  - cbn. now rewrite app_nil_r, logged_nil.
  - change (Dict.keys ((name, path) :: fm)) with (name :: Dict.keys fm) in Hnd.
    apply nodup_app_cons in Hnd as (Hname & Hnd1 & Hnd0).
    cbn [for_each omap list_omap]. unfold bind at 1.
    unfold resolved at 1, unresolved at 1. cbn [fst snd].
    fold (omap (resolved run) fm). fold (omap (unresolved run) fm).
    destruct (endswith ".mp4" name) eqn:Hmp4; cbn [andb].
    + destruct (Resolver.get_cos_signed_url run path) as [[|c s]|] eqn:Hurl;
        cbn [Resolver.truthy negb default].
      * unfold bind at 1, emit at 1, ret at 1.
        rewrite IH by exact Hnd0.
        change (mkWorld (files w) (dirs w) (log w ++ [WarnUrlFailed name]))
          with (logged w [WarnUrlFailed name]).
        now rewrite logged_logged.
      * unfold ret at 1. rewrite dict_set_fresh by exact Hname.
        rewrite IH.
        -- now rewrite <- app_assoc.
        -- now rewrite dict_keys_app.
      * unfold bind at 1, emit at 1, ret at 1.
        rewrite IH by exact Hnd0.
        change (mkWorld (files w) (dirs w) (log w ++ [WarnUrlFailed name]))
          with (logged w [WarnUrlFailed name]).
        now rewrite logged_logged.
    + unfold ret at 1. now rewrite IH by exact Hnd0.
Qed.

Lemma refresher_loop (cos_paths acc : Dict.t string) (w : World) :
  NoDup (Dict.keys acc ++ Dict.keys cos_paths) ->
  for_each cos_paths
    (fun signed_urls '(filename, cos_path) =>
       (signed_url <- Refresher.get_cos_signed_url run cos_path ;;
        if Resolver.truthy signed_url
        then ret (Dict.set filename (default "" signed_url) signed_urls)
        else emit (WarnSkipFile filename) ;;; ret signed_urls)%M)
    acc w
  = (Ok (acc ++ omap (signed run) cos_paths),
     logged w (concat (map (skipped run) cos_paths))).
Proof.
  revert acc w. induction cos_paths as [|[name path] cp IH]; intros acc w Hnd.
  - cbn. now rewrite app_nil_r, logged_nil.
  - change (Dict.keys ((name, path) :: cp)) with (name :: Dict.keys cp) in Hnd.
    apply nodup_app_cons in Hnd as (Hname & Hnd1 & Hnd0).
    cbn [for_each omap list_omap map concat]. unfold bind at 1.
    unfold signed at 1, skipped at 1. cbn [fst snd].
    fold (omap (signed run) cp).
    unfold Refresher.get_cos_signed_url at 1.
    unfold sign_command, Refresher.SIGN_URL_TIMEOUT.
    destruct (run _ _) as [stdout | | stderr |].
    + unfold ret at 1, bind at 1. cbv beta iota.
      destruct (Resolver.clean_signed_output stdout) as [|c s];
        cbn [Resolver.truthy default].
      * unfold bind at 1, emit at 1, ret at 1. cbv beta iota.
        rewrite IH by exact Hnd0.
        unfold logged. cbn [files dirs log]. now rewrite <- !app_assoc.
      * unfold ret at 1. cbv beta iota. rewrite dict_set_fresh by exact Hname.
        rewrite IH.
        -- now rewrite <- app_assoc.
        -- now rewrite dict_keys_app.
    + unfold bind at 1, bind at 1, emit at 1, ret at 1. cbv beta iota.
      cbn [Resolver.truthy].
      unfold bind at 1, emit at 1, ret at 1. cbv beta iota.
      rewrite IH by exact Hnd0.
      unfold logged. cbn [files dirs log]. now rewrite <- !app_assoc.
    + unfold bind at 1, bind at 1, emit at 1, ret at 1. cbv beta iota.
      cbn [Resolver.truthy].
      unfold bind at 1, emit at 1, ret at 1. cbv beta iota.
      rewrite IH by exact Hnd0.
      unfold logged. cbn [files dirs log]. now rewrite <- !app_assoc.
    + unfold bind at 1, bind at 1, emit at 1, ret at 1. cbv beta iota.
      cbn [Resolver.truthy].
      unfold bind at 1, emit at 1, ret at 1. cbv beta iota.
      rewrite IH by exact Hnd0.
      unfold logged. cbn [files dirs log]. now rewrite <- !app_assoc.
Qed.

Lemma resolved_failure (kv : string * string) :
  is_failure (run (sign_command (snd kv)) (Some 60%nat)) ->
  resolved run kv = if is_video kv then Some (public_entry kv) else None.
Proof.
  intros Hfail. unfold resolved, is_video, Resolver.get_cos_signed_url, sign_command in *.
  unfold Resolver.SIGN_URL_TIMEOUT.
  destruct (endswith ".mp4" (fst kv)); [| reflexivity].
  destruct (run _ _); [destruct Hfail | reflexivity ..].
Qed.

Lemma unresolved_failure (kv : string * string) :
  is_failure (run (sign_command (snd kv)) (Some 60%nat)) -> unresolved run kv = None.
Proof.
  intros Hfail. unfold unresolved, Resolver.get_cos_signed_url, sign_command in *.
  unfold Resolver.SIGN_URL_TIMEOUT.
  destruct (endswith ".mp4" (fst kv)); [| reflexivity].
  destruct (run _ _); [destruct Hfail | reflexivity ..].
Qed.

Lemma omap_failures (file_mapping : Dict.t string) :
  Forall (fun kv => is_failure (run (sign_command (snd kv)) (Some 60%nat))) file_mapping ->
  omap (resolved run) file_mapping = map public_entry (List.filter is_video file_mapping)
  /\ omap (unresolved run) file_mapping = [].
Proof.
  induction 1 as [|kv fm Hkv _ [IH1 IH2]]; [split; reflexivity |].
  cbn [omap list_omap List.filter].
  fold (omap (resolved run) fm). fold (omap (unresolved run) fm).
  rewrite (resolved_failure _ Hkv), (unresolved_failure _ Hkv), IH1, IH2.
  destruct (is_video kv); split; reflexivity.
Qed.

Lemma signed_failures (cos_paths : Dict.t string) :
  Forall (fun kv => is_failure (run (sign_command (snd kv)) (Some 60%nat))) cos_paths ->
  omap (signed run) cos_paths = [].
Proof.
  induction 1 as [|kv cp Hkv _ IH]; [reflexivity |].
  cbn [omap list_omap]. fold (omap (signed run) cp). rewrite IH.
  unfold signed. destruct (run _ _); [destruct Hkv | reflexivity ..].
Qed.

End UrlLoops.

(** X8. The name -> URL mapping of the Resolver, for an upload mapping
    without repeated names: the call returns and touches no file; the
    result lists, in the order of the upload mapping, every name that ends
    in [.mp4] and for which a non-empty URL was obtained, with that URL; one
    warning is logged for each [.mp4] name whose URL was empty.  When every
    signing request fails, the result is every [.mp4] name with the public
    URL of its path, and nothing is logged. *)
Theorem resolver_mapping_values
    (run : list string -> option nat -> run_result)
    (file_mapping : Dict.t string) (w : World) :
  Dict.wf file_mapping ->
  Resolver.generate_video_url_mapping run file_mapping w
  = (Ok (omap (resolved run) file_mapping),
     logged w (omap (unresolved run) file_mapping))
  /\ (Forall (fun kv => is_failure (run (sign_command (snd kv)) (Some 60%nat)))
        file_mapping ->
      Resolver.generate_video_url_mapping run file_mapping w
      = (Ok (map public_entry (List.filter is_video file_mapping)), w)).
Proof.
  intros Hwf.
  assert (Hrun : Resolver.generate_video_url_mapping run file_mapping w
                 = (Ok (omap (resolved run) file_mapping),
                    logged w (omap (unresolved run) file_mapping))).
  { exact (resolver_loop run file_mapping [] w Hwf). }
  split; [exact Hrun |].
  intros Hfail. rewrite Hrun.
  destruct (omap_failures run _ Hfail) as [-> ->]. now rewrite logged_nil.
Qed.

Lemma resolver_mapping_values_witness :
  Resolver.generate_video_url_mapping Fake.tool_absent three_uploads Fake.empty_world
  = (Ok [("a.mp4", Resolver.build_cos_public_url "hunyuanvideo-foley_demo/demo_show/a.mp4");
         ("b.mp4", Resolver.build_cos_public_url "hunyuanvideo-foley_demo/demo_show/b.mp4")],
     Fake.empty_world).
Proof.
  apply (proj2 (resolver_mapping_values Fake.tool_absent three_uploads Fake.empty_world
                  ltac:(apply (bool_decide_unpack _); vm_compute; exact I))).
  repeat constructor.
Defined.

(** X9. The name -> URL mapping of the Refresher, for COS paths without
    repeated names: the call returns and touches no file; the result
    lists, in order, every name whose signing request completed with a
    non-empty answer, with the cleaned answer; for every other name the
    error of its request, if any, and a skip warning are logged.  There is
    no public-URL fallback: when every signing request fails the result is
    empty. *)
Theorem refresher_signs_or_skips
    (run : list string -> option nat -> run_result)
    (cos_paths : Dict.t string) (w : World) :
  Dict.wf cos_paths ->
  Refresher.generate_signed_urls run cos_paths w
  = (Ok (omap (signed run) cos_paths),
     logged w (concat (map (skipped run) cos_paths)))
  /\ (Forall (fun kv => is_failure (run (sign_command (snd kv)) (Some 60%nat)))
        cos_paths ->
      fst (Refresher.generate_signed_urls run cos_paths w) = Ok []).
Proof.
  intros Hwf.
  assert (Hrun : Refresher.generate_signed_urls run cos_paths w
                 = (Ok (omap (signed run) cos_paths),
                    logged w (concat (map (skipped run) cos_paths)))).
  { exact (refresher_loop run cos_paths [] w Hwf). }
  split; [exact Hrun |].
  intros Hfail. rewrite Hrun. cbn [fst]. now rewrite (signed_failures run _ Hfail).
Qed.

Lemma refresher_signs_or_skips_witness :
  Refresher.generate_signed_urls Fake.tool_absent one_upload Fake.empty_world
  = (Ok [], logged Fake.empty_world [ErrSignToolNotFound; WarnSkipFile "a.mp4"])
  /\ fst (Refresher.generate_signed_urls Fake.tool_signing one_upload Fake.empty_world)
     = Ok [("a.mp4",
            "https://signed.example/hunyuanvideo-foley_demo/demo_show/a.mp4?sign=k")].
Proof.
  split.
  - apply (proj1 (refresher_signs_or_skips Fake.tool_absent one_upload Fake.empty_world
                    ltac:(apply (bool_decide_unpack _); vm_compute; exact I))).
  - rewrite (proj1 (refresher_signs_or_skips Fake.tool_signing one_upload
                      Fake.empty_world
                      ltac:(apply (bool_decide_unpack _); vm_compute; exact I))).
    reflexivity.
Defined.

Section RoundTrip.
Import PyStr.



End RoundTrip.



(* ===================================================================== *)
(** * The update pass: what it leaves alone *)
(* ===================================================================== *)

Section RecordFrame.
Variable m : Dict.t string.

Lemma dict_set_same {V} (k : string) (v : V) (d : Dict.t V) :
  Dict.get k d = Some v -> Dict.set k v d = d.
Proof.
  induction d as [|[k0 v0] d IH]; simpl; [discriminate |].
  destruct (String.eqb_spec k k0) as [-> |].
  - now intros [= ->].
  - intros H. now rewrite IH.
Qed.

Lemma remap_unmapped (its : list (string * json)) :
  Forall (fun kv => exists p, snd kv = JStr p) its ->
  some_path_mapped m its = false ->
  map (remap_entry m) its = its.
Proof.
  induction 1 as [|[k v] its [p Hp] _ IH]; [reflexivity |].
  cbn [snd] in Hp. subst v. unfold some_path_mapped in *.
  cbn [existsb snd map]. intros [Hk Hrest]%orb_false_elim.
  rewrite (IH Hrest). unfold remap_entry, remap. cbn [fst snd].
  unfold Dict.mem in Hk. now destruct (Dict.get (PyStr.basename p) m).
Qed.

Lemma update_data_object (kv : list (string * json)) (d' : json) (b : bool) :
  json_wf (JObj kv) ->
  Resolver.update_data m (JObj kv) = Ok (d', b) ->
  match Dict.get "videos" kv with
  | None => d' = JObj kv /\ b = false
  | Some v =>
      exists its, v = JObj its
        /\ d' = JObj (Dict.set "videos" (JObj (map (remap_entry m) its)) kv)
        /\ b = some_path_mapped m its
        /\ Forall (fun kv => exists p, snd kv = JStr p) its
  end.
Proof.
  intros Hwf H. unfold Resolver.update_data in H.
  cbn [Resolver.contains_videos Resolver.getitem_videos rbind] in H.
  unfold Dict.mem in H.
  destruct (Dict.get "videos" kv) as [v|] eqn:Hv; cbn [rbind] in H.
  - destruct v as [| | | |l|its]; try discriminate. cbn [Resolver.items rbind] in H.
    destruct (Resolver.update_videos m its its false) as [[cur flag]|e] eqn:Hup;
      [| discriminate].
    cbn [rbind fst snd] in H. injection H as <- <-.
    exists its. split; [reflexivity |].
    assert (Hnd : NoDup (map fst its)).
    { apply json_wf_obj in Hwf as [_ Hall]. rewrite List.Forall_forall in Hall.
      apply dict_get_in in Hv. apply Hall in Hv. cbn [snd] in Hv.
      now apply json_wf_obj in Hv as [Hv _]. }
    rewrite (update_videos_map m its [] false cur flag Hnd Hup).
    rewrite (update_videos_flag m its its false cur flag Hup).
    split; [reflexivity |]. split; [reflexivity |].
    exact (update_videos_values m its its false _ Hup).
  - now injection H as <- <-.
Qed.


End RecordFrame.

(** X11. What the update does to one parsed record: a record that is a
    JSON object keeps its keys and their order and every field other than
    [videos]; the [videos] object has each path whose file name is a key of
    the mapping replaced by the mapped URL and every other path kept; a
    record none of whose paths is mapped is returned as it was, as is a
    record that is not an object. *)
Theorem update_data_touches_only_videos
    (url_mapping : Dict.t string) (data data' : json) (changed : bool) :
  json_wf data ->
  Resolver.update_data url_mapping data = Ok (data', changed) ->
  (changed = false -> data' = data)
  /\ (forall kv, data = JObj kv ->
        exists kv', data' = JObj kv'
          /\ map fst kv' = map fst kv
          /\ (forall k, k <> "videos" -> Dict.get k kv' = Dict.get k kv)
          /\ (forall its, Dict.get "videos" kv = Some (JObj its) ->
                Dict.get "videos" kv' = Some (JObj (map (remap_entry url_mapping) its))))
  /\ ((forall kv, data <> JObj kv) -> data' = data /\ changed = false).
Proof.
  intros Hwf H.
  destruct data as [| | |s|l|kv]; try discriminate.
  - (* a string *)
    unfold Resolver.update_data in H. cbn [Resolver.contains_videos rbind] in H.
    destruct (PyStr.contains "videos" s); [discriminate |]. injection H as <- <-.
    split; [reflexivity |]. split; [discriminate | now split].
  - (* a list *)
    unfold Resolver.update_data in H. cbn [Resolver.contains_videos rbind] in H.
    destruct (existsb _ l); [discriminate |]. injection H as <- <-.
    split; [reflexivity |]. split; [discriminate | now split].
  - (* an object *)
    pose proof (update_data_object _ _ _ _ Hwf H) as Hobj.
    destruct (Dict.get "videos" kv) as [v|] eqn:Hv.
    + destruct Hobj as (its & -> & -> & -> & Hstr).
      split; [| split].
      * intros Hflag. rewrite (remap_unmapped _ _ Hstr Hflag).
        now rewrite (dict_set_same _ _ _ Hv).
      * intros kv0 [= <-]. eexists. split; [reflexivity |].
        split; [exact (dict_set_keys _ _ _ _ Hv) |]. split.
        -- intros k Hk. rewrite dict_get_set.
           destruct (String.eqb_spec k "videos"); [contradiction | reflexivity].
        -- intros its' Hv'. rewrite Hv in Hv'. injection Hv' as <-.
           now rewrite dict_get_set.
      * intros Hno. now destruct (Hno kv).
    + destruct Hobj as [-> ->].
      split; [reflexivity |]. split.
      * intros kv0 [= <-]. exists kv. split; [reflexivity |]. split; [reflexivity |].
        split; [reflexivity |]. rewrite Hv. discriminate.
      * intros Hno. now destruct (Hno kv).
Qed.

Lemma update_data_touches_only_videos_witness :
  exists kv',
    JObj [("videos", JObj [("mmaudio", JStr "https://cdn.example/v/a.mp4")]);
          ("prompt", JStr "rain")] = JObj kv'
    /\ map fst kv' = map fst demo_record
    /\ (forall k, k <> "videos" -> Dict.get k kv' = Dict.get k demo_record)
    /\ (forall its, Dict.get "videos" demo_record = Some (JObj its) ->
          Dict.get "videos" kv' = Some (JObj (map (remap_entry cdn_mapping) its))).
Proof.
  apply (proj1 (proj2 (update_data_touches_only_videos cdn_mapping (JObj demo_record)
                         (JObj [("videos",
                                 JObj [("mmaudio", JStr "https://cdn.example/v/a.mp4")]);
                                ("prompt", JStr "rain")])
                         true
                         ltac:(apply json_wf_obj; split;
                               [apply (bool_decide_unpack _); vm_compute; exact I
                               | repeat constructor; apply (bool_decide_unpack _);
                                 vm_compute; exact I])
                         eq_refl))
           demo_record eq_refl).
Defined.

Section PassFrame.
Variable codec : Codec.
Variable m : Dict.t string.

Lemma update_jsonl_file_run (jsonl_file content : string) (w : World) :
  files w !! jsonl_file = Some content ->
  exists msgs,
    Resolver.update_jsonl_file codec jsonl_file m w
    = match update_loop_pure codec m (PyStr.file_lines content) ([], 0%nat, 1%nat) with
      | Ok (outs, cnt, _) =>
          (Ok cnt, mkWorld (<[jsonl_file := PyStr.write_lines outs]> (files w))
                     (dirs w) (log w ++ msgs))
      | Raise e => (Raise e, logged w msgs)
      end.
Proof.
  intros Hfile. unfold Resolver.update_jsonl_file.
  rewrite (bind_run_ok _ _ _ _ _ (path_exists_present _ _ _ Hfile)). cbn [negb].
  unfold bind at 1. unfold read_file. rewrite Hfile.
  unfold bind at 1.
  destruct (update_loop_run codec m (PyStr.file_lines content) ([], 0%nat, 1%nat) w)
    as [msgs ->].
  exists msgs.
  destruct (update_loop_pure codec m (PyStr.file_lines content) ([], 0%nat, 1%nat))
    as [[[outs cnt] ln]|e]; reflexivity.
Qed.




End PassFrame.



(* ===================================================================== *)
(** * The Resolver: backups *)
(* ===================================================================== *)

Section ResolverBackups.
Variable codec : Codec.
Variable m : Dict.t string.

Lemma backup_of_differs (path : string) : backup_of path <> path.
Proof.
  unfold backup_of. intros H. apply (f_equal String.length) in H.
  rewrite slength_app in H. simpl in H. lia.
Qed.

Lemma create_backup_files (file_path : string) (w : World) :
  files (snd (Resolver.create_backup file_path w))
  = match files w !! file_path with
    | Some content => <[backup_of file_path := content]> (files w)
    | None => files w
    end
  /\ fst (Resolver.create_backup file_path w) = Ok (backup_of file_path).
Proof.
  destruct (files w !! file_path) as [content|] eqn:Hfile.
  - now rewrite (create_backup_present _ _ _ Hfile).
  - now rewrite (create_backup_absent _ _ Hfile).
Qed.

(** One turn of the Resolver's loop over the manifests. *)
Lemma resolver_turn (total : nat) (jsonl_file : string) (w : World) :
  let w1 := snd ((Resolver.create_backup jsonl_file ;;;
                  updates <- Resolver.update_jsonl_file codec jsonl_file m ;;
                  ret (total + updates)%nat)%M w) in
  (forall q, q <> jsonl_file -> q <> backup_of jsonl_file ->
     files w1 !! q = files w !! q)
  /\ (forall c, files w !! jsonl_file = Some c ->
        files w1 !! backup_of jsonl_file = Some c).
Proof.
  intros w1.
  destruct (create_backup_files jsonl_file w) as [Hfiles Hret].
  assert (Hw1 : files w1
                = files (snd (Resolver.update_jsonl_file codec jsonl_file m
                                (snd (Resolver.create_backup jsonl_file w))))).
  { unfold w1. unfold bind at 1.
    destruct (Resolver.create_backup jsonl_file w) as [r w0].
    cbn [fst snd] in Hret |- *. subst r. unfold bind at 1.
    destruct (Resolver.update_jsonl_file codec jsonl_file m w0) as [[n|e] w2];
      reflexivity. }
  split.
  - intros q Hq Hq'. rewrite Hw1, update_jsonl_file_other by exact Hq.
    rewrite Hfiles.
    destruct (files w !! jsonl_file); [now rewrite lookup_insert_ne | reflexivity].
  - intros c Hc. rewrite Hw1, update_jsonl_file_other by apply backup_of_differs.
    rewrite Hfiles, Hc. apply lookup_insert_eq.
Qed.

Lemma resolver_turns (l : list string) :
  NoDup (l ++ map backup_of l) ->
  forall total w,
    let w' := snd (for_each l
                     (fun total_updates jsonl_file =>
                        (Resolver.create_backup jsonl_file ;;;
                         updates <- Resolver.update_jsonl_file codec jsonl_file m ;;
                         ret (total_updates + updates)%nat)%M)
                     total w) in
    (forall q, ~ In q l -> ~ In q (map backup_of l) -> files w' !! q = files w !! q)
    /\ (forall f c, In f l -> files w !! f = Some c ->
          files w' !! f = Some c \/ files w' !! backup_of f = Some c).
Proof.
  induction l as [|x l IH]; intros Hnd total w.
  - cbn. split; [reflexivity | intros f c []].
  - cbn [app map] in Hnd. apply NoDup_cons in Hnd as [Hx Hnd].
    assert (Hbx : ~ In (backup_of x) l /\ ~ In (backup_of x) (map backup_of l)
                  /\ NoDup (l ++ map backup_of l)).
    { apply NoDup_app in Hnd as (Hl & Hdisj & Hb).
      cbn [map] in Hb. apply NoDup_cons in Hb as [Hbx Hb].
      split; [| split].
      - intros Hin. apply list_elem_of_In in Hin. apply (Hdisj _ Hin). left.
      - intros Hin. apply Hbx. now apply list_elem_of_In.
      - apply NoDup_app. split; [exact Hl |]. split; [| exact Hb].
        intros y Hy Hy'. apply (Hdisj y Hy). now right. }
    destruct Hbx as (Hbl & Hbb & Hnd').
    assert (Hxl : ~ In x l /\ ~ In x (map backup_of l)).
    { split; intros Hin; apply Hx; apply list_elem_of_In in Hin;
        apply elem_of_app; [now left | right; now right]. }
    destruct Hxl as [Hxl Hxb].
    intros w'.
    pose proof (resolver_turn total x w) as [Hframe Hcopy]. cbv zeta in Hframe, Hcopy.
    assert (Hw' : w' = match (Resolver.create_backup x ;;;
                              updates <- Resolver.update_jsonl_file codec x m ;;
                              ret (total + updates)%nat)%M w with
                       | (Ok t1, w1) =>
                           snd (for_each l
                                  (fun total_updates jsonl_file =>
                                     (Resolver.create_backup jsonl_file ;;;
                                      updates <- Resolver.update_jsonl_file codec
                                                   jsonl_file m ;;
                                      ret (total_updates + updates)%nat)%M)
                                  t1 w1)
                       | (Raise _, w1) => w1
                       end).
    { unfold w'. cbn [for_each]. unfold bind at 1.
      destruct ((Resolver.create_backup x ;;; _)%M w) as [[t1|e] w1]; reflexivity. }
    clearbody w'.
    destruct ((Resolver.create_backup x ;;;
               updates <- Resolver.update_jsonl_file codec x m ;;
               ret (total + updates)%nat)%M w) as [[t1|e] w1];
      cbn [snd] in Hframe, Hcopy; subst w'.
    + specialize (IH Hnd' t1 w1). cbv zeta in IH. destruct IH as [IHframe IHkeep].
      split.
      * intros q Hq Hqb. rewrite IHframe.
        -- apply Hframe; intros ->; [apply Hq | apply Hqb]; now left.
        -- intros Hin. apply Hq. now right.
        -- intros Hin. apply Hqb. now right.
      * intros f c [<- | Hf] Hc.
        -- right. rewrite (IHframe _ Hbl Hbb). now apply Hcopy.
        -- apply (IHkeep f c Hf). rewrite Hframe; [exact Hc | |].
           ++ intros ->. contradiction.
           ++ intros ->. apply Hbl in Hf. exact Hf.
    + split.
      * intros q Hq Hqb. apply Hframe; intros ->; [apply Hq | apply Hqb]; now left.
      * intros f c [<- | Hf] Hc.
        -- right. now apply Hcopy.
        -- left. rewrite Hframe; [exact Hc | |].
           ++ intros ->. contradiction.
           ++ intros ->. apply Hbl in Hf. exact Hf.
Qed.

End ResolverBackups.

Section ResolverMain.
Variable codec : Codec.
Variable run : list string -> option nat -> run_result.
Variable re_search : string -> string -> option (list string).

Lemma parse_upload_log_files (log_file : string) (w : World) :
  files (snd (Resolver.parse_upload_log re_search log_file w)) = files w.
Proof.
  unfold Resolver.parse_upload_log, bind, path_exists.
  destruct (bool_decide _); cbn [negb]; [| reflexivity].
  unfold read_file. destruct (files w !! log_file); reflexivity.
Qed.

Lemma generate_video_url_mapping_files (file_mapping : Dict.t string) (w : World) :
  files (snd (Resolver.generate_video_url_mapping run file_mapping w)) = files w.
Proof.
  unfold Resolver.generate_video_url_mapping.
  apply (for_each_invariant (fun w' => files w' = files w)); [| reflexivity].
  intros s [name path] w0 _ Hw0.
  destruct (PyStr.endswith ".mp4" name); [| exact Hw0].
  cbv zeta. destruct (Resolver.truthy _); exact Hw0.
Qed.

End ResolverMain.

(** X13. The Resolver never changes a manifest without keeping its
    content: whatever the run does, and also when it stops on an
    exception, each of the three manifests that existed at the start
    either still has the content it had, or that content is in
    [<manifest>.backup]. *)
Theorem resolver_backs_up_before_rewriting
    (codec : Codec) (run : list string -> option nat -> run_result)
    (re_search : string -> string -> option (list string))
    (w : World) (jsonl_file content : string) :
  In jsonl_file Resolver.JSONL_FILES ->
  files w !! jsonl_file = Some content ->
  files (snd (Resolver.main codec run re_search w)) !! jsonl_file = Some content
  \/ files (snd (Resolver.main codec run re_search w)) !! backup_of jsonl_file
     = Some content.
Proof.
  intros Hin Hfile.
  remember (snd (Resolver.main codec run re_search w)) as w' eqn:Hw'.
  unfold Resolver.main in Hw'. unfold bind at 1 in Hw'.
  pose proof (parse_upload_log_files re_search Resolver.UPLOAD_LOG_FILE w) as Hparse.
  destruct (Resolver.parse_upload_log re_search Resolver.UPLOAD_LOG_FILE w)
    as [[file_mapping|e] w0]; cbn [snd] in Hparse.
  2:{ left. subst w'. cbn [snd]. now rewrite Hparse. }
  destruct file_mapping as [|upload uploads].
  { left. subst w'. cbn. now rewrite Hparse. }
  unfold bind at 1 in Hw'.
  pose proof (generate_video_url_mapping_files run (upload :: uploads) w0) as Hgen.
  destruct (Resolver.generate_video_url_mapping run (upload :: uploads) w0)
    as [[url_mapping|e] w1]; cbn [snd] in Hgen.
  2:{ left. subst w'. cbn [snd]. now rewrite Hgen, Hparse. }
  destruct url_mapping as [|url urls].
  { left. subst w'. cbn. now rewrite Hgen, Hparse. }
  unfold bind at 1 in Hw'.
  assert (Hnd : NoDup (Resolver.JSONL_FILES ++ map backup_of Resolver.JSONL_FILES)).
  { apply (bool_decide_unpack _). vm_compute. exact I. }
  pose proof (resolver_turns codec (url :: urls) _ Hnd 0%nat w1) as [Hframe Hkeep].
  cbv zeta in Hframe, Hkeep.
  assert (Hfile1 : files w1 !! jsonl_file = Some content) by now rewrite Hgen, Hparse.
  specialize (Hkeep _ _ Hin Hfile1).
  destruct (for_each Resolver.JSONL_FILES _ 0%nat w1) as [[total|e] w2];
    cbn [snd] in Hkeep, Hw'; subst w'; [| exact Hkeep].
  unfold write_file. cbn [snd files].
  assert (Hne : Resolver.MAPPING_FILE <> jsonl_file
                /\ Resolver.MAPPING_FILE <> backup_of jsonl_file).
  { destruct Hin as [<- | [<- | [<- | []]]]; split; discriminate. }
  destruct Hne as [Hne1 Hne2].
  rewrite !lookup_insert_ne by assumption. exact Hkeep.
Qed.

Lemma resolver_backs_up_before_rewriting_witness :
  files (snd (Resolver.main RefJson.codec Fake.tool_absent Fake.re_search resolver_world))
    !! demo_manifest
  = Some (PyStr.write_lines [video_line "videos/a.mp4"])
  \/ files (snd (Resolver.main RefJson.codec Fake.tool_absent Fake.re_search
                   resolver_world))
       !! backup_of demo_manifest
     = Some (PyStr.write_lines [video_line "videos/a.mp4"]).
Proof.
  apply (resolver_backs_up_before_rewriting RefJson.codec Fake.tool_absent Fake.re_search
           resolver_world demo_manifest).
  - left. reflexivity.
  - vm_compute. reflexivity.
Defined.

(* ===================================================================== *)
(** * From the Manifest Builder to the update pass *)
(* ===================================================================== *)

Section BuilderThenUpdate.
Import Builder.
Variable codec : Codec.
Variable m : Dict.t string.

Lemma entry_videos_items (vs : Dict.t string) :
  map fst (map (fun '(k, v) => (k, JStr v)) vs) = Dict.keys vs
  /\ Forall (fun kv => exists p, snd kv = JStr p) (map (fun '(k, v) => (k, JStr v)) vs)
  /\ map (remap_entry m) (map (fun '(k, v) => (k, JStr v)) vs)
     = map (fun '(k, v) => (k, JStr v)) (map (retarget_path m) vs)
  /\ some_path_mapped m (map (fun '(k, v) => (k, JStr v)) vs)
     = existsb (fun kv => Dict.mem (PyStr.basename (snd kv)) m) vs.
Proof.
  induction vs as [|[k v] vs (IH1 & IH2 & IH3 & IH4)].
  - repeat split; constructor.
  - split; [| split; [| split]].
    + cbn [map fst]. now rewrite IH1.
    + constructor; [now exists v | exact IH2].
    + cbn [map]. rewrite IH3. f_equal.
      unfold remap_entry, remap, retarget_path. cbn [fst snd].
      now destruct (Dict.get (PyStr.basename v) m).
    + unfold some_path_mapped in *. cbn [map existsb snd]. now rewrite IH4.
Qed.

Lemma entry_json_wf (e : entry) : Dict.wf (videos e) -> json_wf (entry_json e).
Proof.
  intros Hwf. unfold entry_json. apply json_wf_obj. split.
  - apply (bool_decide_unpack _). vm_compute. exact I.
  - do 3 (apply List.Forall_cons; [exact I |]).
    apply List.Forall_cons; [| constructor]. cbn [snd]. apply json_wf_obj.
    destruct (entry_videos_items (videos e)) as (Hkeys & _).
    split; [now rewrite Hkeys |].
    apply List.Forall_forall. intros kv Hin%in_map_iff.
    destruct Hin as ([k v] & <- & _). exact I.
Qed.

Lemma entry_update (e : entry) :
  Dict.wf (videos e) ->
  Resolver.update_data m (entry_json e) = Ok (entry_json (retarget m e), retargeted m e).
Proof.
  intros Hwf.
  destruct (entry_videos_items (videos e)) as (Hkeys & Hstr & Hmap & Hflag).
  set (its := map (fun '(k, v) => (k, JStr v)) (videos e)) in *.
  destruct (update_videos_strings m its Hstr its false) as (cur & b & Hup).
  assert (Hnd : NoDup (map fst ([] ++ its))) by (cbn [app]; now rewrite Hkeys).
  pose proof (update_videos_map m its [] false cur b Hnd Hup) as Hcur.
  pose proof (update_videos_flag m its its false cur b Hup) as Hb.
  cbn [app orb] in Hcur, Hb. subst cur b.
  unfold Resolver.update_data, entry_json. fold its.
  cbn [Resolver.contains_videos Resolver.getitem_videos].
  change (Dict.mem "videos" _) with true.
  change (Dict.get "videos" _) with (Some (JObj its)).
  cbn [rbind Resolver.items]. rewrite Hup. cbn [rbind fst snd].
  rewrite Hmap, Hflag. reflexivity.
Qed.

Hypothesis Hlaws : CodecLaws codec.

Lemma update_loop_entries (es : list entry) :
  Forall (fun e => Dict.wf (videos e)) es ->
  forall acc c n,
    update_loop_pure codec m
      (map (fun l => l +:+ String PyStr.nl "")
         (map (fun e => dumps codec (entry_json e)) es))
      (acc, c, n)
    = Ok (acc ++ map (fun e => dumps codec (entry_json (retarget m e))) es,
          (c + length (List.filter (retargeted m) es))%nat,
          (n + length es)%nat).
Proof.
  induction 1 as [|e es He _ IH]; intros acc c n.
  - cbn. now rewrite app_nil_r, !Nat.add_0_r.
  - cbn [map update_loop_pure].
    pose proof (entry_json_wf e He) as Hwf.
    destruct (dumps_one_line codec Hlaws _ Hwf) as (Hne & Hstrip & _).
    unfold update_line_pure at 1.
    rewrite strip_line_feed, Hstrip.
    destruct (String.eqb_spec (dumps codec (entry_json e)) ""); [contradiction |].
    rewrite (loads_dumps codec Hlaws _ Hwf), (entry_update e He).
    cbn [rbind fst snd]. rewrite IH. cbn [List.filter length].
    rewrite <- app_assoc. cbn [app].
    destruct (retargeted m e); cbn [length]; f_equal;
      (apply pair_equal_spec; split;
       [apply pair_equal_spec; split; [reflexivity | lia] | lia]).
Qed.

End BuilderThenUpdate.

(** X14. The manifest the Manifest Builder writes is one every update
    pass can process: with a codec that reads back what it writes, a pass
    over it with any mapping completes; it counts the entries that have a
    path whose file name is a key of the mapping, and it leaves in the file
    the lines of the same entries, one per entry in the same order, with
    those paths replaced by the mapped URLs. *)
Theorem builder_manifest_is_updatable
    (codec : Codec) (reader : string -> list Builder.row)
    (url_mapping : Dict.t string) (w w1 : World) (entries : list Builder.entry) :
  CodecLaws codec ->
  Builder.generate_model_comparison_jsonl codec reader w = (Ok entries, w1) ->
  fst (Resolver.update_jsonl_file codec Builder.OUTPUT_PATH url_mapping w1)
  = Ok (length (List.filter (retargeted url_mapping) entries))
  /\ files (snd (Resolver.update_jsonl_file codec Builder.OUTPUT_PATH url_mapping w1))
     = <[Builder.OUTPUT_PATH :=
           PyStr.write_lines
             (map (fun e => dumps codec (Builder.entry_json (retarget url_mapping e)))
                entries)]> (files w1).
Proof.
  intros Hlaws H.
  apply generate_model_comparison_jsonl_run in H as (csv & w2 & Hes & ->).
  pose proof (build_entries_videos _ _ _ _ _ _ _ Hes) as Hvideos.
  assert (Hwf : Forall (fun e => Dict.wf (Builder.videos e)) entries).
  { rewrite List.Forall_forall in Hvideos. apply List.Forall_forall.
    intros e He. rewrite (Hvideos e He), map_models_fold.
    apply fold_set_nodup. constructor. }
  set (outs := map (fun e => dumps codec (Builder.entry_json e)) entries).
  set (w1 := mkWorld (<[Builder.OUTPUT_PATH := PyStr.write_lines outs]> (files w2))
               (dirs w2) (log w2)).
  assert (Hfile : files w1 !! Builder.OUTPUT_PATH = Some (PyStr.write_lines outs))
    by apply lookup_insert_eq.
  destruct (update_jsonl_file_run codec url_mapping _ _ _ Hfile) as [msgs ->].
  rewrite file_lines_write_lines.
  2:{ unfold outs. apply List.Forall_forall. intros l Hin%in_map_iff.
      destruct Hin as (e & <- & He). rewrite List.Forall_forall in Hwf.
      now destruct (dumps_one_line codec Hlaws _ (entry_json_wf url_mapping e (Hwf e He)))
        as (_ & _ & Hclean). }
  unfold outs. rewrite (update_loop_entries codec url_mapping Hlaws entries Hwf).
  split; reflexivity.
Qed.

Lemma builder_manifest_is_updatable_witness :
  fst (Resolver.update_jsonl_file RefJson.codec Builder.OUTPUT_PATH comparison_mapping
         (snd (Builder.generate_model_comparison_jsonl RefJson.codec Fake.csv_reader
                 comparison_world)))
  = Ok (length (List.filter (retargeted comparison_mapping) comparison_entries))
  /\ length (List.filter (retargeted comparison_mapping) comparison_entries) = 1%nat.
Proof.
  split; [| reflexivity].
  apply (proj1 (builder_manifest_is_updatable RefJson.codec Fake.csv_reader
                  comparison_mapping comparison_world _ comparison_entries
                  ref_codec_laws ltac:(vm_compute; reflexivity))).
Defined.

(* ===================================================================== *)
(** * Runs that end without a usable URL *)
(* ===================================================================== *)

Section EarlyExits.
Variable codec : Codec.
Variable run : list string -> option nat -> run_result.

Lemma omap_no_video (file_mapping : Dict.t string) :
  Forall (fun kv => is_video kv = false) file_mapping ->
  omap (resolved run) file_mapping = [] /\ omap (unresolved run) file_mapping = [].
Proof.
  induction 1 as [|kv fm Hkv _ [IH1 IH2]]; [split; reflexivity |].
  cbn [omap list_omap]. fold (omap (resolved run) fm). fold (omap (unresolved run) fm).
  rewrite IH1, IH2. unfold resolved, unresolved. unfold is_video in Hkv.
  rewrite Hkv. split; reflexivity.
Qed.

Lemma extract_loop_wf (its : list (string * json)) :
  forall acc r, Dict.wf acc -> Refresher.extract_loop its acc = Ok r -> Dict.wf r.
Proof.
  induction its as [|[name v] its IH]; intros acc r Hacc H.
  - now injection H as <-.
  - cbn [Refresher.extract_loop] in H.
    destruct (Refresher.extract_step acc name v) as [acc'|e] eqn:Hstep; [| discriminate].
    cbn [rbind] in H. apply (IH acc' r); [| exact H].
    unfold Refresher.extract_step in Hstep.
    destruct v as [| | |u|l|d]; try discriminate.
    + destruct (Refresher.extract_cos_path u); injection Hstep as <-;
        [now apply dict_set_nodup | exact Hacc].
    + destruct (existsb _ l); [discriminate |]. now injection Hstep as <-.
    + destruct (Dict.mem _ d); [discriminate |]. now injection Hstep as <-.
Qed.

Lemma extract_cos_paths_run (w : World) (content : string) (m : Dict.t string) :
  files w !! Refresher.URL_MAPPING_FILE = Some content ->
  loads codec content = Some (JObj (string_items m)) ->
  Dict.wf m ->
  exists cos_paths,
    Refresher.extract_cos_paths_from_mapping codec w = (Ok cos_paths, w)
    /\ Dict.wf cos_paths.
Proof.
  intros Hfile Hloads Hwf.
  destruct (extract_loop_strings m [] Hwf) as (r & Hr & _).
  exists r. split.
  - unfold Refresher.extract_cos_paths_from_mapping.
    rewrite (bind_run_ok _ _ _ _ _ (path_exists_present _ _ _ Hfile)). cbn [negb].
    unfold bind at 1. unfold read_file. rewrite Hfile, Hloads.
    unfold bind, lift. cbn [Resolver.items]. now rewrite Hr.
  - apply (extract_loop_wf (string_items m) [] r); [constructor | exact Hr].
Qed.

End EarlyExits.

(** X15. A run of the Resolver that obtains no URL ends there: when the
    upload log exists and names at least one file, but no [.mp4] name gets a
    non-empty URL, the run logs the warnings of the names whose URL was
    empty and then the error, and touches no file: no backup, no rewrite
    and no mapping file.  In particular this is what happens when no
    uploaded name ends in [.mp4]. *)
Theorem resolver_stops_without_urls
    (codec : Codec) (run : list string -> option nat -> run_result)
    (re_search : string -> string -> option (list string))
    (w : World) (content : string) (file_mapping : Dict.t string) :
  files w !! Resolver.UPLOAD_LOG_FILE = Some content ->
  fst (Resolver.parse_upload_log re_search Resolver.UPLOAD_LOG_FILE w) = Ok file_mapping ->
  file_mapping <> [] ->
  (omap (resolved run) file_mapping = [] ->
   Resolver.main codec run re_search w
   = (Ok tt, logged w (omap (unresolved run) file_mapping ++ [ErrNoUrlGenerated])))
  /\ (Forall (fun kv => is_video kv = false) file_mapping ->
      Resolver.main codec run re_search w = (Ok tt, logged w [ErrNoUrlGenerated])).
Proof.
  intros Hfile Hparse Hne.
  pose proof (parse_upload_log_run re_search _ _ _ Hfile) as Hrun.
  rewrite Hrun in Hparse. cbn [fst] in Hparse. injection Hparse as Hfm.
  assert (Hwf : Dict.wf file_mapping).
  { rewrite <- Hfm. apply upload_fold_wf. constructor. }
  rewrite Hfm in Hrun.
  assert (Hmain : omap (resolved run) file_mapping = [] ->
            Resolver.main codec run re_search w
            = (Ok tt, logged w (omap (unresolved run) file_mapping ++ [ErrNoUrlGenerated]))).
  { intros Hnone. unfold Resolver.main.
    rewrite (bind_run_ok _ _ _ _ _ Hrun).
    destruct file_mapping as [|upload uploads]; [congruence |].
    assert (Hgen : Resolver.generate_video_url_mapping run (upload :: uploads) w
                   = (Ok [], logged w (omap (unresolved run) (upload :: uploads)))).
    { rewrite <- Hnone. exact (resolver_loop run (upload :: uploads) [] w Hwf). }
    rewrite (bind_run_ok _ _ _ _ _ Hgen).
    unfold emit, logged. cbn [files dirs log]. now rewrite app_assoc. }
  split; [exact Hmain |].
  intros Hnovideo. destruct (omap_no_video run _ Hnovideo) as [Hres Hlog].
  rewrite (Hmain Hres), Hlog. reflexivity.
Qed.

Lemma resolver_stops_without_urls_witness :
  Resolver.main RefJson.codec Fake.tool_silent Fake.re_search upload_world
  = (Ok tt, logged upload_world [WarnUrlFailed "a.mp4"; ErrNoUrlGenerated]).
Proof.
  apply (proj1 (resolver_stops_without_urls RefJson.codec Fake.tool_silent Fake.re_search
                  upload_world
                  ("Upload /local/a.mp4 => cos://bucket/hunyuanvideo-foley_demo/x/a.mp4"
                   +:+ String PyStr.nl ""
                   +:+ "3 files uploaded" +:+ String PyStr.nl "")
                  [("a.mp4", "hunyuanvideo-foley_demo/x/a.mp4")]
                  ltac:(reflexivity) ltac:(vm_compute; reflexivity)
                  ltac:(discriminate))).
  reflexivity.
Defined.

(** X16. The Refresher has no fallback: when its start-up check passes
    and the stored mapping is read, but every signing request fails, the
    run logs for each extracted path the error of its request and a skip
    warning, then the error that no signed URL was generated, and touches no
    file: no signed mapping is written and no manifest is rewritten. *)
Theorem refresher_writes_nothing_unsigned
    (codec : Codec) (run : list string -> option nat -> run_result)
    (w : World) (content stdout : string) (url_mapping : Dict.t string) :
  run version_command None = Completed stdout ->
  files w !! Refresher.URL_MAPPING_FILE = Some content ->
  loads codec content = Some (JObj (string_items url_mapping)) ->
  Dict.wf url_mapping ->
  (forall path, is_failure (run (sign_command path) (Some 60%nat))) ->
  exists cos_paths,
    Refresher.extract_cos_paths_from_mapping codec w = (Ok cos_paths, w)
    /\ Refresher.main codec run w
       = (Ok tt,
          logged w match cos_paths with
                   | [] => [ErrNoCosPath]
                   | _ => concat (map (skipped run) cos_paths) ++ [ErrNoSignedUrl]
                   end).
Proof.
  intros Hversion Hfile Hloads Hwf Hfail.
  destruct (extract_cos_paths_run codec w content url_mapping Hfile Hloads Hwf)
    as (cos_paths & Hextract & Hwfc).
  exists cos_paths. split; [exact Hextract |].
  unfold Refresher.main. unfold version_command in Hversion. rewrite Hversion.
  rewrite (bind_run_ok _ _ _ _ _ Hextract).
  destruct cos_paths as [|kv cp]; [reflexivity |].
  assert (Hgen : Refresher.generate_signed_urls run (kv :: cp) w
                 = (Ok [], logged w (concat (map (skipped run) (kv :: cp))))).
  { rewrite <- (signed_failures run (kv :: cp)).
    - exact (refresher_loop run (kv :: cp) [] w Hwfc).
    - apply List.Forall_forall. intros x _. apply Hfail. }
  rewrite (bind_run_ok _ _ _ _ _ Hgen).
  unfold emit, logged. cbn [files dirs log]. now rewrite app_assoc.
Qed.

Lemma refresher_writes_nothing_unsigned_witness :
  exists cos_paths,
    Refresher.extract_cos_paths_from_mapping RefJson.codec refresher_world
    = (Ok cos_paths, refresher_world)
    /\ Refresher.main RefJson.codec tool_checks_only refresher_world
       = (Ok tt,
          logged refresher_world
            match cos_paths with
            | [] => [ErrNoCosPath]
            | _ => concat (map (skipped tool_checks_only) cos_paths) ++ [ErrNoSignedUrl]
            end).
Proof.
  apply (refresher_writes_nothing_unsigned RefJson.codec tool_checks_only refresher_world
           stored_mapping_text "coscmd 1.8" stored_mapping).
  - reflexivity.
  - reflexivity.
  - vm_compute. reflexivity.
  - apply (bool_decide_unpack _). vm_compute. exact I.
  - intros path. exact I.
Defined.

Section RefresherFrame.
Variable codec : Codec.
Variable signed_urls : Dict.t string.

Lemma refresher_frame (w : World) :
  (forall g, In g Resolver.JSONL_FILES -> files w !! (g +:+ ".signed") = None) ->
  forall q, ~ In q Resolver.JSONL_FILES ->
    files (snd (Refresher.update_jsonl_files_with_signed_urls codec signed_urls w)) !! q
    = files w !! q.
Proof.
  intros Hsigned. unfold Refresher.update_jsonl_files_with_signed_urls.
  set (P := fun w' : World =>
              (forall q, ~ In q Resolver.JSONL_FILES -> files w' !! q = files w !! q)
              /\ forall g, In g Resolver.JSONL_FILES ->
                   files w' !! (g +:+ ".signed") = None).
  assert (HP : P (snd (for_each Resolver.JSONL_FILES
                         (fun (_ : unit) jsonl_file =>
                            bind (path_exists jsonl_file)
                              (fun ex =>
                                 if ex
                                 then bind (Resolver.create_backup
                                              (jsonl_file +:+ ".signed"))
                                        (fun _ =>
                                           bind (Resolver.update_jsonl_file codec
                                                   jsonl_file signed_urls)
                                             (fun _ => ret tt))
                                 else ret tt))
                         tt w))).
  { apply for_each_invariant; [| split; [reflexivity | exact Hsigned]].
    intros [] f w' Hf [Hframe Habs].
    rewrite (refresher_turn codec signed_urls f w' (Habs f Hf)).
    destruct (bool_decide (is_Some (files w' !! f))); [| split; assumption].
    split.
    - intros q Hq. rewrite update_jsonl_file_other; [now apply Hframe |].
      intros ->. contradiction.
    - intros g Hg. rewrite update_jsonl_file_other; [now apply Habs |].
      simpl in Hf, Hg.
      destruct Hf as [<-|[<-|[<-|[]]]]; destruct Hg as [<-|[<-|[<-|[]]]];
        discriminate. }
  unfold bind at 1.
  destruct (for_each _ _ _ _) as [[[]|e] w']; apply HP.
Qed.

Lemma refresher_skips_absent (l : list string) (w : World) :
  (forall g, In g l -> files w !! g = None) ->
  for_each l
    (fun (_ : unit) jsonl_file =>
       (ex <- path_exists jsonl_file ;;
        if ex then
          Resolver.create_backup (jsonl_file +:+ ".signed") ;;;
          Resolver.update_jsonl_file codec jsonl_file signed_urls ;;;
          ret tt
        else ret tt)%M)
    tt w
  = (Ok tt, w).
Proof.
  induction l as [|f l IH]; intros Habsent; [reflexivity |].
  cbn [for_each]. unfold bind at 1.
  rewrite (bind_run_ok _ _ _ _ _
             (path_exists_absent f w (Habsent f (or_introl eq_refl)))).
  unfold ret at 1. apply IH. intros g Hg. apply Habsent. now right.
Qed.

End RefresherFrame.

(** X17. The Refresher's update of the manifests in a world that holds no
    [<manifest>.signed] file: no file is created, so no copy of what a
    manifest held is kept; no path other than the three manifests changes;
    and when none of the manifests exists the step returns at once, with
    nothing logged. *)
Theorem refresher_update_keeps_no_copy
    (codec : Codec) (signed_urls : Dict.t string) (w : World) :
  (forall g, In g Resolver.JSONL_FILES -> files w !! (g +:+ ".signed") = None) ->
  dom (files (snd (Refresher.update_jsonl_files_with_signed_urls codec signed_urls w)))
  = dom (files w)
  /\ (forall q, ~ In q Resolver.JSONL_FILES ->
        files (snd (Refresher.update_jsonl_files_with_signed_urls codec signed_urls w))
          !! q
        = files w !! q)
  /\ ((forall g, In g Resolver.JSONL_FILES -> files w !! g = None) ->
      Refresher.update_jsonl_files_with_signed_urls codec signed_urls w = (Ok tt, w)).
Proof.
  intros Hsigned.
  split; [now apply refresher_creates_no_file |].
  split; [now apply refresher_frame |].
  intros Habsent. unfold Refresher.update_jsonl_files_with_signed_urls.
  now rewrite (bind_run_ok _ _ _ _ _
                 (refresher_skips_absent codec signed_urls _ w Habsent)).
Qed.

Lemma refresher_update_keeps_no_copy_witness :
  dom (files (snd (Refresher.update_jsonl_files_with_signed_urls RefJson.codec
                     signed_mapping one_video_manifest)))
  = dom (files one_video_manifest)
  /\ Refresher.update_jsonl_files_with_signed_urls RefJson.codec signed_mapping
       Fake.empty_world
     = (Ok tt, Fake.empty_world).
Proof.
  split.
  - apply (proj1 (refresher_update_keeps_no_copy RefJson.codec signed_mapping
                    one_video_manifest
                    ltac:(intros g [<- | [<- | [<- | []]]]; reflexivity))).
  - apply (proj2 (proj2 (refresher_update_keeps_no_copy RefJson.codec signed_mapping
                           Fake.empty_world
                           ltac:(intros g _; reflexivity)))).
    intros g _. reflexivity.
Defined.

(* ===================================================================== *)
(** * The files a run may write *)
(* ===================================================================== *)

Section Footprints.
Variable codec : Codec.
Variable run : list string -> option nat -> run_result.

Lemma create_backup_other (file_path q : string) (w : World) :
  q <> backup_of file_path ->
  files (snd (Resolver.create_backup file_path w)) !! q = files w !! q.
Proof.
  intros Hq. rewrite (proj1 (create_backup_files file_path w)).
  destruct (files w !! file_path); [now rewrite lookup_insert_ne | reflexivity].
Qed.

Lemma bind_files {A B} (m : M A) (k : A -> M B) (w : World) (P : World -> Prop) :
  P (snd (m w)) -> (forall a w1, P w1 -> P (snd (k a w1))) -> P (snd (bind m k w)).
Proof.
  intros Hm Hk. unfold bind. destruct (m w) as [[a|e] w1]; [now apply Hk | exact Hm].
Qed.

Lemma resolver_loop_frame (m : Dict.t string) (q : string) (total : nat) (w : World) :
  ~ In q resolver_writes ->
  files (snd (for_each Resolver.JSONL_FILES
                (fun total_updates jsonl_file =>
                   (Resolver.create_backup jsonl_file ;;;
                    updates <- Resolver.update_jsonl_file codec jsonl_file m ;;
                    ret (total_updates + updates)%nat)%M)
                total w)) !! q
  = files w !! q.
Proof.
  intros Hq.
  apply (for_each_invariant (fun w' => files w' !! q = files w !! q)); [| reflexivity].
  intros s g w0 Hg Hw0.
  assert (Hne : q <> g /\ q <> backup_of g).
  { split; intros ->; apply Hq; unfold resolver_writes; apply in_or_app.
    - now left.
    - right. apply in_or_app. left. now apply in_map. }
  destruct Hne as [Hne1 Hne2].
  apply (bind_files _ _ _ (fun w' => files w' !! q = files w !! q)).
  - now rewrite create_backup_other.
  - intros _ w1 Hw1.
    apply (bind_files _ _ _ (fun w' => files w' !! q = files w !! q)).
    + now rewrite update_jsonl_file_other.
    + intros n w2 Hw2. exact Hw2.
Qed.

Lemma generate_signed_urls_files (cos_paths : Dict.t string) (w : World) :
  files (snd (Refresher.generate_signed_urls run cos_paths w)) = files w.
Proof.
  unfold Refresher.generate_signed_urls.
  apply (for_each_invariant (fun w' => files w' = files w)); [| reflexivity].
  intros s [name path] w0 _ Hw0.
  unfold bind at 1, Refresher.get_cos_signed_url.
  destruct (run _ _); cbn; try exact Hw0.
  destruct (Resolver.clean_signed_output _); exact Hw0.
Qed.

Lemma extract_cos_paths_files (w : World) :
  files (snd (Refresher.extract_cos_paths_from_mapping codec w)) = files w.
Proof.
  unfold Refresher.extract_cos_paths_from_mapping, bind, path_exists.
  destruct (bool_decide _); cbn [negb]; [| reflexivity].
  unfold read_file. destruct (files w !! Refresher.URL_MAPPING_FILE); [| reflexivity].
  destruct (loads codec _) as [d|]; [| reflexivity].
  unfold lift. destruct (Resolver.items d) as [its|e]; [| reflexivity].
  reflexivity.
Qed.

Lemma refresher_loop_frame (m : Dict.t string) (q : string) (w : World) :
  ~ In q Resolver.JSONL_FILES ->
  ~ In q (map (fun g => backup_of (g +:+ ".signed")) Resolver.JSONL_FILES) ->
  files (snd (Refresher.update_jsonl_files_with_signed_urls codec m w)) !! q
  = files w !! q.
Proof.
  intros Hq Hqb. unfold Refresher.update_jsonl_files_with_signed_urls.
  apply (bind_files _ _ _ (fun w' => files w' !! q = files w !! q)).
  2:{ intros _ w1 Hw1. exact Hw1. }
  apply (for_each_invariant (fun w' => files w' !! q = files w !! q)); [| reflexivity].
  intros [] g w0 Hg Hw0.
  assert (Hne : q <> g /\ q <> backup_of (g +:+ ".signed")).
  { split; intros ->; [now apply Hq |]. apply Hqb.
    now apply (in_map (fun g => backup_of (g +:+ ".signed"))). }
  destruct Hne as [Hne1 Hne2].
  apply (bind_files _ _ _ (fun w' => files w' !! q = files w !! q)); [exact Hw0 |].
  intros ex w1 Hw1. destruct ex; [| exact Hw1].
  apply (bind_files _ _ _ (fun w' => files w' !! q = files w !! q)).
  - now rewrite create_backup_other.
  - intros _ w2 Hw2.
    apply (bind_files _ _ _ (fun w' => files w' !! q = files w !! q)).
    + now rewrite update_jsonl_file_other.
    + intros n w3 Hw3. exact Hw3.
Qed.

End Footprints.

(** X18. What a run of the Resolver can write: whatever the run does, a
    path that is not one of the three manifests, not one of their
    [.backup] copies and not [video_url_mapping.json] has after the run the
    content it had before, if any.  In particular the upload log is never
    changed. *)
Theorem resolver_footprint
    (codec : Codec) (run : list string -> option nat -> run_result)
    (re_search : string -> string -> option (list string))
    (w : World) (q : string) :
  ~ In q resolver_writes ->
  files (snd (Resolver.main codec run re_search w)) !! q = files w !! q.
Proof.
  intros Hq. unfold Resolver.main.
  apply (bind_files _ _ _ (fun w' => files w' !! q = files w !! q)).
  { now rewrite parse_upload_log_files. }
  intros file_mapping w0 Hw0. destruct file_mapping as [|upload uploads]; [exact Hw0 |].
  apply (bind_files _ _ _ (fun w' => files w' !! q = files w !! q)).
  { now rewrite generate_video_url_mapping_files. }
  intros url_mapping w1 Hw1. destruct url_mapping as [|url urls]; [exact Hw1 |].
  apply (bind_files _ _ _ (fun w' => files w' !! q = files w !! q)).
  { now rewrite resolver_loop_frame. }
  intros total w2 Hw2. unfold write_file. cbn [snd files].
  rewrite lookup_insert_ne; [exact Hw2 |].
  intros <-. apply Hq. unfold resolver_writes.
  apply in_or_app. right. apply in_or_app. right. now left.
Qed.

Lemma resolver_footprint_witness :
  files (snd (Resolver.main RefJson.codec Fake.tool_absent Fake.re_search resolver_world))
    !! Resolver.UPLOAD_LOG_FILE
  = files resolver_world !! Resolver.UPLOAD_LOG_FILE.
Proof.
  apply (resolver_footprint RefJson.codec Fake.tool_absent Fake.re_search resolver_world
           Resolver.UPLOAD_LOG_FILE).
  intros Hin. vm_compute in Hin.
  repeat (destruct Hin as [Hin | Hin]; [discriminate Hin |]). exact Hin.
Defined.

(** X19. What a run of the Refresher can write: whatever the run does, a
    path that is not one of the three manifests, not the [.backup] copy of
    a [<manifest>.signed] file and not [signed_video_url_mapping.json] has
    after the run the content it had before, if any.  In particular the
    stored mapping [video_url_mapping.json] the run reads is never
    changed. *)
Theorem refresher_footprint
    (codec : Codec) (run : list string -> option nat -> run_result)
    (w : World) (q : string) :
  ~ In q refresher_writes ->
  files (snd (Refresher.main codec run w)) !! q = files w !! q.
Proof.
  intros Hq. unfold Refresher.main.
  destruct (run _ _); try reflexivity.
  apply (bind_files _ _ _ (fun w' => files w' !! q = files w !! q)).
  { now rewrite extract_cos_paths_files. }
  intros cos_paths w0 Hw0. destruct cos_paths as [|kv cp]; [exact Hw0 |].
  apply (bind_files _ _ _ (fun w' => files w' !! q = files w !! q)).
  { now rewrite generate_signed_urls_files. }
  intros signed_urls w1 Hw1. destruct signed_urls as [|url urls]; [exact Hw1 |].
  apply (bind_files _ _ _ (fun w' => files w' !! q = files w !! q)).
  - unfold write_file. cbn [snd files].
    rewrite lookup_insert_ne; [exact Hw1 |].
    intros <-. apply Hq. unfold refresher_writes.
    apply in_or_app. right. apply in_or_app. right. now left.
  - intros [] w2 Hw2. rewrite refresher_loop_frame; [exact Hw2 | |];
      intros Hin; apply Hq; unfold refresher_writes; apply in_or_app;
      [now left | right; apply in_or_app; now left].
Qed.

Lemma refresher_footprint_witness :
  files (snd (Refresher.main RefJson.codec Fake.tool_signing refresher_world))
    !! Refresher.URL_MAPPING_FILE
  = files refresher_world !! Refresher.URL_MAPPING_FILE.
Proof.
  apply (refresher_footprint RefJson.codec Fake.tool_signing refresher_world
           Refresher.URL_MAPPING_FILE).
  intros Hin. vm_compute in Hin.
  repeat (destruct Hin as [Hin | Hin]; [discriminate Hin |]). exact Hin.
Defined.

(* ===================================================================== *)
(** * The pattern of the upload log *)
(* ===================================================================== *)

Section UploadPattern.
Import PyStr RefRe.











End UploadPattern.



(* ===================================================================== *)
(** * When the mapping files are written *)
(* ===================================================================== *)

Section MappingFiles.
Variable codec : Codec.
Variable run : list string -> option nat -> run_result.




End MappingFiles.



(** X22. When the Refresher writes its mapping file.  When the start-up
    check passes, the stored mapping is read and at least one request is
    signed, [signed_video_url_mapping.json] holds after the run the
    indented JSON text of the name -> signed URL mapping, whether the update
    of the manifests completes or stops on an exception: the file is written
    before the first manifest is touched. *)
Theorem refresher_saves_signed_mapping
    (codec : Codec) (run : list string -> option nat -> run_result)
    (w : World) (content stdout : string) (url_mapping : Dict.t string) :
  run version_command None = Completed stdout ->
  files w !! Refresher.URL_MAPPING_FILE = Some content ->
  loads codec content = Some (JObj (string_items url_mapping)) ->
  Dict.wf url_mapping ->
  exists cos_paths,
    Refresher.extract_cos_paths_from_mapping codec w = (Ok cos_paths, w)
    /\ (omap (signed run) cos_paths <> [] ->
        files (snd (Refresher.main codec run w)) !! Refresher.SIGNED_URL_MAPPING_FILE
        = Some (dumps_indent codec
                  (Resolver.mapping_json (omap (signed run) cos_paths)))).
Proof.
  intros Hversion Hfile Hloads Hwf.
  destruct (extract_cos_paths_run codec w content url_mapping Hfile Hloads Hwf)
    as (cos_paths & Hextract & Hwfc).
  exists cos_paths. split; [exact Hextract |].
  intros Hsome.
  unfold Refresher.main. unfold version_command in Hversion. rewrite Hversion.
  rewrite (bind_run_ok _ _ _ _ _ Hextract).
  pose proof (refresher_loop run cos_paths [] w Hwfc) as Hgen. cbn [app] in Hgen.
  destruct cos_paths as [|kv cp]; [now destruct Hsome |].
  change (Refresher.generate_signed_urls run (kv :: cp) w
          = (Ok (omap (signed run) (kv :: cp)),
             logged w (concat (map (skipped run) (kv :: cp))))) in Hgen.
  rewrite (bind_run_ok _ _ _ _ _ Hgen).
  destruct (omap (signed run) (kv :: cp)) as [|url urls]; [now destruct Hsome |].
  unfold bind at 1, write_file at 1.
  rewrite refresher_loop_frame.
  - cbn [files]. apply lookup_insert_eq.
  - intros Hin. vm_compute in Hin.
    repeat (destruct Hin as [Hin | Hin]; [discriminate Hin |]). exact Hin.
  - intros Hin. vm_compute in Hin.
    repeat (destruct Hin as [Hin | Hin]; [discriminate Hin |]). exact Hin.
Qed.

Lemma refresher_saves_signed_mapping_witness :
  files (snd (Refresher.main RefJson.codec Fake.tool_signing refresher_world))
    !! Refresher.SIGNED_URL_MAPPING_FILE
  = Some (dumps_indent RefJson.codec (Resolver.mapping_json signed_mapping)).
Proof.
  destruct (refresher_saves_signed_mapping RefJson.codec Fake.tool_signing
              refresher_world stored_mapping_text
              ("https://signed.example/--version?sign=k" +:+ String PyStr.nl "")
              stored_mapping)
    as (cos_paths & Hrun & Hsaved).
  - reflexivity.
  - reflexivity.
  - vm_compute. reflexivity.
  - apply (bool_decide_unpack _). vm_compute. exact I.
  - assert (Hpaths : cos_paths = [("a.mp4", "hunyuanvideo-foley_demo/demo_show/a.mp4")]).
    { vm_compute in Hrun. now injection Hrun as <-. }
    subst cos_paths. apply Hsaved. discriminate.
Defined.
